(** * Upspring ad-source core: brand cache, normaliser, identity resolver,
      retry controller and fetch orchestrators

    Shallow embedding of
    - [MetaAdsService]   (server/src/services/apify.ts),
    - [GoogleAdsService] (server/src/services/google-ads.ts),
    - the two handlers of GET /search that server/src/routes/ads.ts holds,
      the one that fetches for every request and the one that first asks
      the search history (server/src/services/searchHistory.ts),
    - the shared types of server/src/types/ads.ts.

    JavaScript strings are sequences of UTF-16 code units.  The model uses
    [string], whose characters are the code units below 256 (Latin-1);
    [toLowerCase] and [trim] are the ECMAScript functions restricted to that
    range.  Objects used as dictionaries are [gmap string _], which holds
    their own properties.  The two keys that such an object inherits and a
    cache key can spell, see [Js.inheritedKey], are outside the model: the
    properties of lookups and saves are stated for the other keys.
    Numbers are integers ([Z]) where the code computes within the integers
    that a double represents exactly.
    Values read from JSON are assumed to have their declared TypeScript type. *)

From Stdlib Require Import ZArith Ascii String List Bool Lia.
From Stdlib Require Import DecimalString HexadecimalString.
From stdpp Require Import base option gmap strings list.

Local Open Scope string_scope.

(* ===================================================================== *)
(** ** JavaScript strings *)
(* ===================================================================== *)

Module Js.

(** Code unit of a character, [String.prototype.charCodeAt]. *)
Definition charCode (c : ascii) : Z := Z.of_nat (nat_of_ascii c).

(** Upper-case letters with a lower-case partner in Latin-1:
    A-Z, and U+00C0-U+00DE except the multiplication sign U+00D7. *)
Definition isUpper (c : ascii) : bool :=
  let n := nat_of_ascii c in
  ((65 <=? n)%nat && (n <=? 90)%nat)
  || ((192 <=? n)%nat && (n <=? 222)%nat && negb (n =? 215)%nat).

Definition lowerChar (c : ascii) : ascii :=
  if isUpper c then ascii_of_nat (nat_of_ascii c + 32) else c.

(** [String.prototype.toLowerCase] *)
Fixpoint toLowerCase (s : string) : string :=
  match s with
  | EmptyString => EmptyString
  | String c r => String (lowerChar c) (toLowerCase r)
  end.

(** ECMAScript WhiteSpace and LineTerminator code units below 256:
    TAB, LF, VT, FF, CR, SPACE, NBSP. *)
Definition isWhiteSpace (c : ascii) : bool :=
  let n := nat_of_ascii c in
  ((9 <=? n)%nat && (n <=? 13)%nat) || (n =? 32)%nat || (n =? 160)%nat.

Fixpoint trimStart (s : string) : string :=
  match s with
  | EmptyString => EmptyString
  | String c r => if isWhiteSpace c then trimStart r else s
  end.

Definition isEmpty (s : string) : bool :=
  match s with EmptyString => true | _ => false end.

Fixpoint trimEnd (s : string) : string :=
  match s with
  | EmptyString => EmptyString
  | String c r =>
      let r' := trimEnd r in
      if isWhiteSpace c && isEmpty r' then EmptyString else String c r'
  end.

(** [String.prototype.trim] *)
Definition trim (s : string) : string := trimEnd (trimStart s).

(** [s.startsWith(p)] *)
Fixpoint startsWith (s p : string) {struct p} : bool :=
  match p, s with
  | EmptyString, _ => true
  | String _ _, EmptyString => false
  | String a p', String b s' => if Ascii.eqb a b then startsWith s' p' else false
  end.

(** [s.includes(sub)] *)
Fixpoint includes (s sub : string) : bool :=
  startsWith s sub ||
  match s with
  | EmptyString => false
  | String _ r => includes r sub
  end.

(** [s.substring(0, n)] for a non-negative literal [n]. *)
Fixpoint substring0 (n : nat) (s : string) : string :=
  match n, s with
  | O, _ => EmptyString
  | _, EmptyString => EmptyString
  | S n', String c r => String c (substring0 n' r)
  end.

(** Strict equality [a === b] on strings. *)
Definition streq (a b : string) : bool := String.eqb a b.

(** The property names that every object inherits from [Object.prototype]
    and that a lower-cased, trimmed key can spell; the other inherited names
    ([toString], [valueOf], [hasOwnProperty], ...) hold an upper-case letter.
    Reading [obj[key]] at such a key gives the inherited value when [obj]
    has no property of its own there, and the assignment
    [obj['__proto__'] = v] replaces the prototype of [obj] and adds no
    property. *)
Definition inheritedKey (key : string) : bool :=
  streq key "constructor" || streq key "__proto__".

(** Truthiness of an optional string ([undefined] and [''] are falsy). *)
Definition truthy (o : option string) : bool :=
  match o with
  | Some s => negb (isEmpty s)
  | None => false
  end.

(** [a || b] on optional strings. *)
Definition or_else (a b : option string) : option string :=
  if truthy a then a else b.

(** [a || b] when [b] is a string. *)
Definition or_str (a : option string) (b : string) : string :=
  match a with
  | Some s => if isEmpty s then b else s
  | None => b
  end.

(** Optional chaining, [o?.f]. *)
Definition optChain {A B} (o : option A) (f : A -> option B) : option B :=
  match o with
  | Some a => f a
  | None => None
  end.

(** [arr.join(sep)] *)
Fixpoint join (sep : string) (l : list string) : string :=
  match l with
  | [] => ""
  | [x] => x
  | x :: r => x ++ sep ++ join sep r
  end.

(** [arr.slice(0, n)] for a number [n] with an integer value: a negative
    [n] counts from the end. *)
Definition slice0 {A} (l : list A) (n : Z) : list A :=
  let len := Z.of_nat (length l) in
  let stop := if (n <? 0)%Z then Z.max (len + n) 0 else Z.min n len in
  firstn (Z.to_nat stop) l.

(** Decimal rendering of an integer-valued number, [String(n)]. *)
Definition showZ (n : Z) : string :=
  DecimalString.NilZero.string_of_int (Z.to_int n).

(** [n.toString(16)] for a non-negative integer. *)
Definition showHex (n : Z) : string :=
  HexadecimalString.NilZero.string_of_uint (N.to_hex_uint (Z.to_N n)).

End Js.

Notation "o ?> f" := (Js.optChain o f) (at level 50, left associativity).

(* ===================================================================== *)
(** ** Shared types (server/src/types/ads.ts) *)
(* ===================================================================== *)

Inductive AdPlatform :=
| facebook | instagram | messenger | audience_network
| google_search | google_display | youtube | google_shopping
| platform_unknown.

Inductive AdStatus := active | inactive | removed | status_unknown.

Inductive AdFormat :=
| fmt_image | fmt_video | fmt_carousel | fmt_collection | fmt_text | fmt_unknown.

Inductive MediaType := image | video.

Record AdMedia := {
  m_type : MediaType;
  m_url : string;
  m_thumbnailUrl : option string;
  m_duration : option Z
}.

Record AdCallToAction := {
  cta_text : option string;
  cta_type : option string;
  cta_linkUrl : option string
}.

(** [Ad].  The fields [performanceSignals], [demographics], [categories] and
    [rawData] are left out: they are copied or formatted from the raw record
    (number formatting with [toFixed]) and no modelled operation reads them.
    Dates are epoch milliseconds. *)
Record Ad := {
  id : string;
  adLibraryId : option string;
  brandName : string;
  pageId : option string;
  pageUrl : option string;
  headline : option string;
  primaryText : option string;
  description : option string;
  caption : option string;
  callToAction : option AdCallToAction;
  imageUrl : option string;
  videoUrl : option string;
  media : list AdMedia;
  platforms : list AdPlatform;
  format : AdFormat;
  startDate : option Z;
  endDate : option Z;
  status : AdStatus;
  adLibraryUrl : option string;
  snapshotUrl : option string;
  fetchedAt : Z
}.

(** [enum ApifyErrorCode], as types/ads.ts declares it.  It has no member
    [USAGE_QUOTA_EXCEEDED]: the expression
    [ApifyErrorCode.USAGE_QUOTA_EXCEEDED], which [handleError] and the route
    layer write, evaluates to [undefined]. *)
Inductive ApifyErrorCode :=
| INVALID_API_KEY | ACTOR_NOT_FOUND | RUN_FAILED | TIMEOUT | RATE_LIMIT
| NO_RESULTS | NETWORK_ERROR | UNKNOWN.

(** Values that a [catch] clause can receive. *)
Inductive JsError :=
| ApifyError (message : string) (code : ApifyErrorCode)
| Error (message : string)
| NonError.

Inductive BrandSource := cached | discovered | not_verified.

Record FetchMetadata := {
  query : string;
  durationMs : Z;
  runId : option string;
  datasetId : option string
}.

Record FetchAdsResult := {
  success : bool;
  ads : list Ad;
  error : option string;
  errorCode : option ApifyErrorCode;
  totalFound : option nat;
  brandSource : option BrandSource;
  verifiedBrandName : option string;
  metadata : option FetchMetadata
}.

(** The modelled part of [FetchAdsOptions]; [countryCode], [activeOnly] and
    [timeoutMs] only shape the input and the timeout handed to the actor
    client. *)
Record FetchAdsOptions := {
  maxAds : option Z;
  countryCode : option string;
  activeOnly : option bool;
  timeoutMs : option Z
}.

(** [options.x || dflt] for a numeric option: [undefined] and [0] are falsy. *)
Definition num_or (o : option Z) (dflt : Z) : Z :=
  match o with
  | Some n => if (n =? 0)%Z then dflt else n
  | None => dflt
  end.

(** *** The actor client boundary *)

Inductive RunStatus :=
| READY | RUNNING | SUCCEEDED | FAILED | TIMING_OUT | TIMED_OUT | ABORTING | ABORTED.

Definition RunStatus_eqb (a b : RunStatus) : bool :=
  match a, b with
  | READY, READY | RUNNING, RUNNING | SUCCEEDED, SUCCEEDED | FAILED, FAILED
  | TIMING_OUT, TIMING_OUT | TIMED_OUT, TIMED_OUT | ABORTING, ABORTING
  | ABORTED, ABORTED => true
  | _, _ => false
  end.

Definition showStatus (s : RunStatus) : string :=
  match s with
  | READY => "READY" | RUNNING => "RUNNING" | SUCCEEDED => "SUCCEEDED"
  | FAILED => "FAILED" | TIMING_OUT => "TIMING-OUT" | TIMED_OUT => "TIMED-OUT"
  | ABORTING => "ABORTING" | ABORTED => "ABORTED"
  end.

Record ActorRun := {
  run_id : string;
  run_status : RunStatus;
  defaultDatasetId : string
}.

(** What one [client.actor(id).call(input, opts)] does. *)
Inductive CallOutcome :=
| CallReturns (run : ActorRun)
| CallThrows (e : JsError).

(** What [client.dataset(id).listItems()] does. *)
Inductive ItemsOutcome (Raw : Type) :=
| ItemsReturn (items : list Raw)
| ItemsThrow (e : JsError).
Arguments ItemsReturn {Raw} items.
Arguments ItemsThrow {Raw} e.

(* ===================================================================== *)
(** ** Effects: environment, state and the completion monad *)
(* ===================================================================== *)

(** Observable effects, most recent first in the trace. *)
Inductive Event :=
| EvCacheLookup (key : string)
| EvCacheSave (key id : string)
| EvReadFile
| EvWriteFile
| EvActorCall (attempt : nat)
| EvListItems (dataset : string)
| EvSleep (ms : Z).

(** The outside world as seen by one service: the answers of the actor
    client by call number, the datasets, the clock by reading number, the
    renderings of [Math.random()] by draw number, the cache file as found on
    disk, and whether the file can be written. *)
Record Env (Raw : Type) := {
  e_script : nat -> CallOutcome;
  e_items : string -> ItemsOutcome Raw;
  e_clock : nat -> Z;
  e_random : nat -> string;
  e_writable : bool
}.
Arguments e_script {Raw} _ _.
Arguments e_items {Raw} _ _.
Arguments e_clock {Raw} _ _.
Arguments e_random {Raw} _ _.
Arguments e_writable {Raw} _.

(** The mutable state: the static in-memory cache ([None] is [null]), the
    content of the cache file ([None]: missing or not parsable), the numbers
    of actor calls, clock readings and random draws so far, and the trace. *)
Record State (Cache : Type) := {
  s_cache : option Cache;
  s_file : option Cache;
  s_calls : nat;
  s_ticks : nat;
  s_draws : nat;
  s_trace : list Event
}.
Arguments s_cache {Cache} _.
Arguments s_file {Cache} _.
Arguments s_calls {Cache} _.
Arguments s_ticks {Cache} _.
Arguments s_draws {Cache} _.
Arguments s_trace {Cache} _.

Inductive Completion (A : Type) :=
| Normal (a : A)
| Thrown (e : JsError).
Arguments Normal {A} a.
Arguments Thrown {A} e.

Definition M (Raw Cache A : Type) : Type :=
  Env Raw -> State Cache -> Completion A * State Cache.

Section Monad.
Context {Raw Cache : Type}.
Abbreviation M := (M Raw Cache).
Abbreviation State := (State Cache).

Definition ret {A} (a : A) : M A := fun _ s => (Normal a, s).

Definition bind {A B} (m : M A) (k : A -> M B) : M B :=
  fun e s =>
    match m e s with
    | (Normal a, s') => k a e s'
    | (Thrown x, s') => (Thrown x, s')
    end.

Definition throw {A} (x : JsError) : M A := fun _ s => (Thrown x, s).

(** [try { m } catch (x) { h x }] *)
Definition try_catch {A} (m : M A) (h : JsError -> M A) : M A :=
  fun e s =>
    match m e s with
    | (Normal a, s') => (Normal a, s')
    | (Thrown x, s') => h x e s'
    end.

Definition get : M State := fun _ s => (Normal s, s).

Definition emit (ev : Event) : M unit :=
  fun _ s =>
    (Normal tt,
     {| s_cache := s_cache s; s_file := s_file s; s_calls := s_calls s;
        s_ticks := s_ticks s; s_draws := s_draws s;
        s_trace := ev :: s_trace s |}).

Definition set_cache (c : option Cache) : M unit :=
  fun _ s =>
    (Normal tt,
     {| s_cache := c; s_file := s_file s; s_calls := s_calls s;
        s_ticks := s_ticks s; s_draws := s_draws s; s_trace := s_trace s |}).

(** [Date.now()] / [new Date()] *)
Definition now : M Z :=
  fun e s =>
    (Normal (e_clock e (s_ticks s)),
     {| s_cache := s_cache s; s_file := s_file s; s_calls := s_calls s;
        s_ticks := S (s_ticks s); s_draws := s_draws s;
        s_trace := s_trace s |}).

(** [Math.random()], as rendered in a template string *)
Definition random : M string :=
  fun e s =>
    (Normal (e_random e (s_draws s)),
     {| s_cache := s_cache s; s_file := s_file s; s_calls := s_calls s;
        s_ticks := s_ticks s; s_draws := S (s_draws s);
        s_trace := s_trace s |}).

(** [await client.actor(actorId).call(input, opts)] *)
Definition actorCall (attempt : nat) : M ActorRun :=
  fun e s =>
    let s' :=
      {| s_cache := s_cache s; s_file := s_file s; s_calls := S (s_calls s);
         s_ticks := s_ticks s; s_draws := s_draws s;
         s_trace := EvActorCall attempt :: s_trace s |} in
    match e_script e (s_calls s) with
    | CallReturns run => (Normal run, s')
    | CallThrows x => (Thrown x, s')
    end.

(** [await client.dataset(id).listItems()] *)
Definition listItems (dataset : string) : M (list Raw) :=
  fun e s =>
    let s' :=
      {| s_cache := s_cache s; s_file := s_file s; s_calls := s_calls s;
         s_ticks := s_ticks s; s_draws := s_draws s;
         s_trace := EvListItems dataset :: s_trace s |} in
    match e_items e dataset with
    | ItemsReturn items => (Normal items, s')
    | ItemsThrow x => (Thrown x, s')
    end.

(** [fs.readFileSync] followed by [JSON.parse]: throws when the file is
    missing or does not parse. *)
Definition readCacheFile : M Cache :=
  fun _ s =>
    let s' :=
      {| s_cache := s_cache s; s_file := s_file s; s_calls := s_calls s;
         s_ticks := s_ticks s; s_draws := s_draws s;
         s_trace := EvReadFile :: s_trace s |} in
    match s_file s with
    | Some c => (Normal c, s')
    | None => (Thrown (Error "ENOENT"), s')
    end.

(** [fs.writeFileSync(path, JSON.stringify(cache))] *)
Definition writeCacheFile (c : Cache) : M unit :=
  fun e s =>
    if e_writable e then
      (Normal tt,
       {| s_cache := s_cache s; s_file := Some c; s_calls := s_calls s;
          s_ticks := s_ticks s; s_draws := s_draws s;
          s_trace := EvWriteFile :: s_trace s |})
    else (Thrown (Error "EACCES"), s).

(** [await this.sleep(ms)] *)
Definition sleep (ms : Z) : M unit := emit (EvSleep ms).

(** [for (const x of l) ...] collecting results, [l.map] with effects *)
Fixpoint mapM {A B} (f : A -> M B) (l : list A) : M (list B) :=
  match l with
  | [] => ret []
  | x :: r => bind (f x) (fun y => bind (mapM f r) (fun ys => ret (y :: ys)))
  end.
End Monad.

#[global] Instance M_ret {Raw Cache} : MRet (M Raw Cache) := @ret Raw Cache.
#[global] Instance M_bind {Raw Cache} : MBind (M Raw Cache) :=
  fun A B k m => bind m k.

(* ===================================================================== *)
(** ** MetaAdsService *)
(* ===================================================================== *)

Module Meta.

(** *** Brand cache *)

Record BrandCacheEntry := {
  bce_pageId : string;
  bce_name : string
}.

(** [_metadata]; [lastUpdated] holds the clock reading whose ISO day is
    stored. *)
Record CacheMetadata := {
  lastUpdated : Z;
  totalBrands : nat;
  note : string
}.

Record BrandsCache := {
  brands : gmap string BrandCacheEntry;
  cache_metadata : option CacheMetadata
}.

(** *** Raw records ([ApifyRawAdItem] with the snake_case extension) *)

Record RawVideo := {
  v_url : option string;
  v_thumbnailUrl : option string;
  v_duration : option Z
}.

Record RawMediaItem := {
  mi_type : option string;
  mi_url : option string;
  mi_thumbnailUrl : option string
}.

Record SnapshotCard := {
  card_resized_image_url : option string;
  card_video_preview_image_url : option string;
  card_video_hd_url : option string
}.

Record SnapshotImage := {
  img_resized_image_url : option string;
  img_original_image_url : option string
}.

Record SnapshotVideo := {
  sv_video_hd_url : option string;
  sv_video_sd_url : option string;
  sv_video_preview_image_url : option string
}.

Record Snapshot := {
  page_profile_picture_url : option string;
  snap_page_name : option string;
  snap_body_text : option string;        (* snapshot.body?.text *)
  snap_cta_text : option string;
  snap_cta_type : option string;
  snap_caption : option string;
  snap_cards : option (list SnapshotCard);
  snap_images : option (list SnapshotImage);
  snap_videos : option (list SnapshotVideo)
}.

Record ApifyRawAdItem := {
  r_id : option string;
  r_adArchiveID : option string;
  r_ad_archive_id : option string;
  r_adid : option string;
  r_pageID : option string;
  r_page_id : option string;
  r_pageName : option string;
  r_page_name : option string;
  r_pageUrl : option string;
  r_adText : option string;
  r_bodyText : option string;
  r_primaryText : option string;
  r_headline : option string;
  r_linkTitle : option string;
  r_linkDescription : option string;
  r_linkCaption : option string;
  r_linkUrl : option string;
  r_ctaText : option string;
  r_ctaType : option string;
  r_imageUrl : option string;
  r_images : option (list string);
  r_videoUrl : option string;
  r_videos : option (list RawVideo);
  r_media : option (list RawMediaItem);
  r_platforms : option (list string);
  r_publisherPlatform : option (list string);
  r_publisher_platform : option (list string);
  r_adCreationTime : option string;
  r_startDate : option string;
  r_endDate : option string;
  r_start_date : option string;
  r_end_date : option string;
  r_start_date_formatted : option string;
  r_end_date_formatted : option string;
  r_adDeliveryStartTime : option string;
  r_adDeliveryStopTime : option string;
  r_isActive : option bool;
  r_isRunning : option bool;
  r_is_active : option bool;
  r_status : option string;
  r_adSnapshotUrl : option string;
  r_adLibraryUrl : option string;
  r_ad_library_url : option string;
  r_snapshot : option Snapshot
}.

(** *** Configuration *)

Record RetryConfig := {
  maxRetries : nat;
  baseDelayMs : Z;
  maxDelayMs : Z
}.

Record Config := {
  defaultTimeoutMs : Z;
  defaultMaxAds : Z;
  retryConfig : RetryConfig
}.

Definition DEFAULT_CONFIG : Config :=
  {| defaultTimeoutMs := 300000;
     defaultMaxAds := 50;
     retryConfig := {| maxRetries := 3; baseDelayMs := 1000; maxDelayMs := 30000 |} |}.

Abbreviation M := (M ApifyRawAdItem BrandsCache).
Abbreviation State := (State BrandsCache).
Abbreviation Env := (Env ApifyRawAdItem).

(** *** Brand cache operations *)

(** [loadBrandsCache]: the static cache when it is set, otherwise the file;
    a missing or corrupt file gives an empty cache. *)
Definition loadBrandsCache : M BrandsCache :=
  s ← get;
  match s_cache s with
  | Some c => mret c
  | None =>
      try_catch
        (c ← readCacheFile; set_cache (Some c);; mret c)
        (fun _ =>
           let c := {| brands := ∅; cache_metadata := None |} in
           set_cache (Some c);; mret c)
  end.

Definition normalizeKey (term : string) : string :=
  Js.trim (Js.toLowerCase term).

(** [lookupBrandInCache].  [brands cache !! normalizedName] is
    [cache.brands[normalizedName] || null] for the keys that are not
    inherited ([Js.inheritedKey]); an entry is an object, hence truthy. *)
Definition lookupBrandInCache (brandName : string) : M (option BrandCacheEntry) :=
  emit (EvCacheLookup (normalizeKey brandName));;
  cache ← loadBrandsCache;
  let normalizedName := normalizeKey brandName in
  mret (brands cache !! normalizedName).

(** [saveBrandToCache].  [cache] is the object held in the static field,
    so the new entry and the metadata are visible in memory before the file
    is written, and stay there when writing fails.  [EvCacheSave] marks the
    assignment [cache.brands[normalizedKey] = ...].  As for the lookup, the
    test [cache.brands[normalizedKey]] is the one of the code for the keys
    that are not inherited. *)
Definition saveBrandToCache (searchTerm pageId pageName : string) : M unit :=
  try_catch
    (cache ← loadBrandsCache;
     let normalizedKey := normalizeKey searchTerm in
     match brands cache !! normalizedKey with
     | Some _ => mret tt
     | None =>
         let brands' :=
           <[normalizedKey := {| bce_pageId := pageId; bce_name := pageName |}]>
             (brands cache) in
         let note' :=
           match cache_metadata cache with
           | Some md => note md
           | None => ""
           end in
         set_cache (Some {| brands := brands';
                            cache_metadata := cache_metadata cache |});;
         emit (EvCacheSave normalizedKey pageId);;
         t ← now;
         let cache' :=
           {| brands := brands';
              cache_metadata :=
                Some {| lastUpdated := t;
                        totalBrands := size brands';
                        note := note' |} |} in
         set_cache (Some cache');;
         writeCacheFile cache'
     end)
    (fun _ => mret tt).

(** *** Retry controller *)

Definition isRetryableError (error : JsError) : bool :=
  match error with
  | ApifyError _ code =>
      match code with
      | NETWORK_ERROR | TIMEOUT => true
      | _ => false
      end
  | Error message =>
      let message := Js.toLowerCase message in
      Js.includes message "network"
      || Js.includes message "timeout"
      || Js.includes message "econnreset"
      || Js.includes message "enotfound"
      || Js.includes message "socket"
  | NonError => false
  end.

Definition isRateLimitError (error : JsError) : bool :=
  match error with
  | ApifyError _ code =>
      match code with
      | RATE_LIMIT => true
      | _ => false
      end
  | Error message =>
      let message := Js.toLowerCase message in
      Js.includes message "rate limit"
      || Js.includes message "too many requests"
      || Js.includes message "429"
  | NonError => false
  end.

(** The [try] block of [runActorWithRetry]: one call of the actor, and the
    check of the status of the run it returns. *)
Definition runOnce (attempt : nat) : M ActorRun :=
  run ← actorCall attempt;
  if RunStatus_eqb (run_status run) FAILED then
    throw (ApifyError ("Actor run failed with status: " ++ showStatus (run_status run))
                      RUN_FAILED)
  else if RunStatus_eqb (run_status run) TIMED_OUT then
    throw (ApifyError "Actor run timed out" TIMEOUT)
  else mret run.

(** [Math.min(baseDelayMs * Math.pow(2, attempt - 1), maxDelayMs)], doubled
    for a rate-limit error.  The code computes with doubles; the integers of
    the model give the same number when [attempt] is at least 1, as it is in
    [runActorWithRetry], the two delays of the configuration are integers
    from 0 to 2^53 - 1 and the product is not [0 * Infinity],
    that is, when [baseDelayMs] is positive or [attempt] is at most 1024
    ([Math.pow(2, 1024)] is [Infinity]).  A product too large for a double
    is [Infinity], and the minimum is then [maxDelayMs], as it is here. *)
Definition retryDelay (rc : RetryConfig) (attempt : nat) (isRateLimit : bool) : Z :=
  let delay :=
    Z.min (baseDelayMs rc * 2 ^ (Z.of_nat attempt - 1))%Z (maxDelayMs rc) in
  if isRateLimit then (delay * 2)%Z else delay.

(** [runActorWithRetry], the self-recursion unrolled over [fuel].  The input
    and the timeout are only handed to the client, whose answer is given by
    the environment.  The recursive call is made only when
    [attempt < maxRetries]; with [fuel = maxRetries - attempt] the last
    branch is never reached (lemma [retry_fuel_enough]). *)
Fixpoint runActorWithRetry_fuel (cfg : Config) (fuel attempt : nat) : M ActorRun :=
  try_catch (runOnce attempt)
    (fun error =>
       let isRetryable := isRetryableError error in
       let isRateLimit := isRateLimitError error in
       if (maxRetries (retryConfig cfg) <=? attempt)%nat
          || (negb isRetryable && negb isRateLimit)
       then throw error
       else
         sleep (retryDelay (retryConfig cfg) attempt isRateLimit);;
         match fuel with
         | S fuel' => runActorWithRetry_fuel cfg fuel' (S attempt)
         | O => throw error
         end).

Definition runActorWithRetry (cfg : Config) (attempt : nat) : M ActorRun :=
  runActorWithRetry_fuel cfg (maxRetries (retryConfig cfg) - attempt) attempt.

(** [fetchDatasetItems] *)
Definition fetchDatasetItems (datasetId : string) : M (list ApifyRawAdItem) :=
  try_catch (listItems datasetId)
    (fun _ => throw (ApifyError "Failed to fetch results from dataset" NETWORK_ERROR)).

(** *** Identity resolver *)

Record PageInfo := {
  pi_pageName : string;
  pi_count : nat
}.

(** The [Map<string, {pageName, count}>] of [findBestMatchingPage], in
    insertion order (the order in which [for ... of] visits it). *)
Definition PageMap := list (string * PageInfo).

(** [pageMap.get(key)] *)
Fixpoint pm_get (m : PageMap) (key : string) : option PageInfo :=
  match m with
  | [] => None
  | (k, v) :: r => if Js.streq k key then Some v else pm_get r key
  end.

(** [existing.count++] on the entry for [key] *)
Fixpoint pm_incr (m : PageMap) (key : string) : PageMap :=
  match m with
  | [] => []
  | (k, v) :: r =>
      if Js.streq k key
      then (k, {| pi_pageName := pi_pageName v; pi_count := S (pi_count v) |}) :: r
      else (k, v) :: pm_incr r key
  end.

(** The body of the grouping loop. *)
Definition groupStep (pageMap : PageMap) (ad : Ad) : PageMap :=
  match pageId ad with
  | Some pid =>
      if Js.isEmpty pid then pageMap
      else
        match pm_get pageMap pid with
        | Some _ => pm_incr pageMap pid
        | None =>
            (pageMap ++ [(pid, {| pi_pageName := brandName ad; pi_count := 1 |})])%list
        end
  | None => pageMap
  end.

Definition groupByPage (ads : list Ad) : PageMap :=
  fold_left groupStep ads [].

Definition nameScore (nameLower searchLower : string) : nat :=
  if Js.streq nameLower searchLower then 1000
  else if Js.startsWith nameLower searchLower || Js.startsWith searchLower nameLower
  then 500
  else if Js.includes nameLower searchLower || Js.includes searchLower nameLower
  then 100
  else 0.

Record BestMatch := {
  bm_pageId : string;
  bm_pageName : string;
  bm_score : nat;
  bm_count : nat
}.

(** The body of the scoring loop. *)
Definition scoreStep (searchLower : string) (bestMatch : option BestMatch)
    (entry : string * PageInfo) : option BestMatch :=
  let '(pid, info) := entry in
  let nameLower := Js.toLowerCase (pi_pageName info) in
  let score := nameScore nameLower searchLower in
  if (score =? 0)%nat then bestMatch
  else
    let totalScore := (score + Nat.min (pi_count info) 50)%nat in
    let candidate :=
      Some {| bm_pageId := pid; bm_pageName := pi_pageName info;
              bm_score := totalScore; bm_count := pi_count info |} in
    match bestMatch with
    | None => candidate
    | Some b => if (bm_score b <? totalScore)%nat then candidate else bestMatch
    end.

Record PageMatch := {
  pm_pageId : string;
  pm_pageName : string
}.

(** [findBestMatchingPage] *)
Definition findBestMatchingPage (ads : list Ad) (searchTerm : string) : option PageMatch :=
  let pageMap := groupByPage ads in
  if (length pageMap =? 0)%nat then None
  else
    let searchLower := Js.toLowerCase searchTerm in
    match fold_left (scoreStep searchLower) pageMap None with
    | Some b => Some {| pm_pageId := bm_pageId b; pm_pageName := bm_pageName b |}
    | None => None
    end.

(** *** Record normaliser *)

Section Normalizer.

(** [new Date(s).getTime()], [None] when the result is [NaN]. *)
Variable jsDate : string -> option Z.

(** [parseDate] *)
Definition parseDate (dateValue : option string) : option Z :=
  match dateValue with
  | Some s => if Js.isEmpty s then None else jsDate s
  | None => None
  end.

Definition imageOf (u : string) : AdMedia :=
  {| m_type := image; m_url := u; m_thumbnailUrl := None; m_duration := None |}.

Definition videoOf (thumb : option string) (dur : option Z) (u : string) : AdMedia :=
  {| m_type := video; m_url := u; m_thumbnailUrl := thumb; m_duration := dur |}.

(** [media.some((m) => m.url === url)] *)
Definition seen (media : list AdMedia) (url : string) : bool :=
  existsb (fun m => Js.streq (m_url m) url) media.

(** [if (url && !media.some((m) => m.url === url)) media.push(mk url)] *)
Definition pushUnique (media : list AdMedia) (url : option string)
    (mk : string -> AdMedia) : list AdMedia :=
  match url with
  | Some u =>
      if negb (Js.isEmpty u) && negb (seen media u) then (media ++ [mk u])%list else media
  | None => media
  end.

(** [if (url) media.push(mk url)] *)
Definition pushAlways (media : list AdMedia) (url : option string)
    (mk : string -> AdMedia) : list AdMedia :=
  match url with
  | Some u => if Js.isEmpty u then media else (media ++ [mk u])%list
  | None => media
  end.

(** [if (arr && Array.isArray(arr)) arr.forEach(step)] *)
Definition forEachOpt {A} (arr : option (list A))
    (step : list AdMedia -> A -> list AdMedia) (media : list AdMedia) : list AdMedia :=
  match arr with
  | Some l => fold_left step l media
  | None => media
  end.

Definition cardStep (media : list AdMedia) (card : SnapshotCard) : list AdMedia :=
  let imgUrl :=
    Js.or_else (card_resized_image_url card) (card_video_preview_image_url card) in
  let media := pushUnique media imgUrl imageOf in
  pushUnique media (card_video_hd_url card)
    (videoOf (card_video_preview_image_url card) None).

Definition mediaItemStep (media : list AdMedia) (item : RawMediaItem) : list AdMedia :=
  pushUnique media (mi_url item)
    (fun u =>
       {| m_type :=
            match mi_type item with
            | Some t => if Js.streq t "video" then video else image
            | None => image
            end;
          m_url := u;
          m_thumbnailUrl := mi_thumbnailUrl item;
          m_duration := None |}).

(** [parseMedia] *)
Definition parseMedia (rawAd : ApifyRawAdItem) : list AdMedia :=
  let media := [] in
  (* direct images *)
  let media := pushAlways media (r_imageUrl rawAd) imageOf in
  let media :=
    forEachOpt (r_images rawAd)
      (fun media url => pushUnique media (Some url) imageOf) media in
  (* snapshot.images *)
  let media :=
    forEachOpt (r_snapshot rawAd ?> snap_images)
      (fun media img =>
         pushUnique media
           (Js.or_else (img_resized_image_url img) (img_original_image_url img))
           imageOf) media in
  (* snapshot.cards *)
  let media := forEachOpt (r_snapshot rawAd ?> snap_cards) cardStep media in
  (* direct videos *)
  let media := pushAlways media (r_videoUrl rawAd) (videoOf None None) in
  let media :=
    forEachOpt (r_videos rawAd)
      (fun media v =>
         pushUnique media (v_url v) (videoOf (v_thumbnailUrl v) (v_duration v)))
      media in
  (* snapshot.videos *)
  let media :=
    forEachOpt (r_snapshot rawAd ?> snap_videos)
      (fun media v =>
         pushUnique media
           (Js.or_else (sv_video_hd_url v) (sv_video_sd_url v))
           (videoOf (sv_video_preview_image_url v) None)) media in
  (* generic media array *)
  forEachOpt (r_media rawAd) mediaItemStep media.

Definition isVideo (m : AdMedia) : bool :=
  match m_type m with video => true | image => false end.

Definition isImage (m : AdMedia) : bool :=
  match m_type m with image => true | video => false end.

(** [arr && arr.length > n] *)
Definition longerThan {A} (arr : option (list A)) (n : nat) : bool :=
  match arr with
  | Some l => (n <? length l)%nat
  | None => false
  end.

(** [arr && arr.length === n] *)
Definition hasLength {A} (arr : option (list A)) (n : nat) : bool :=
  match arr with
  | Some l => (length l =? n)%nat
  | None => false
  end.

(** [determineFormat] *)
Definition determineFormat (rawAd : ApifyRawAdItem) (media : list AdMedia) : AdFormat :=
  let videoCount := length (List.filter isVideo media) in
  let imageCount := length (List.filter isImage media) in
  if (0 <? videoCount)%nat then fmt_video
  else if (1 <? imageCount)%nat then fmt_carousel
  else if (imageCount =? 1)%nat then fmt_image
  (* raw data hints *)
  else if Js.truthy (r_videoUrl rawAd) || longerThan (r_videos rawAd) 0 then fmt_video
  else if longerThan (r_images rawAd) 1 then fmt_carousel
  else if Js.truthy (r_imageUrl rawAd) || hasLength (r_images rawAd) 1 then fmt_image
  else fmt_unknown.

(** [extractImageUrl] *)
Definition extractImageUrl (raw : ApifyRawAdItem) : option string :=
  if Js.truthy (r_imageUrl raw) then r_imageUrl raw
  else if Js.truthy (r_images raw ?> head) then r_images raw ?> head
  else
    match r_snapshot raw ?> snap_images ?> head with
    | Some img =>
        Js.or_else (img_resized_image_url img) (img_original_image_url img)
    | None =>
        match r_snapshot raw ?> snap_cards ?> head with
        | Some card =>
            Js.or_else (card_resized_image_url card)
                       (card_video_preview_image_url card)
        | None =>
            if Js.truthy (r_snapshot raw ?> page_profile_picture_url)
            then r_snapshot raw ?> page_profile_picture_url
            else None
        end
    end.

(** [extractVideoUrl] *)
Definition extractVideoUrl (raw : ApifyRawAdItem) : option string :=
  if Js.truthy (r_videoUrl raw) then r_videoUrl raw
  else if Js.truthy (r_videos raw ?> head ?> v_url)
  then r_videos raw ?> head ?> v_url
  else
    match r_snapshot raw ?> snap_videos ?> head with
    | Some v => Js.or_else (sv_video_hd_url v) (sv_video_sd_url v)
    | None =>
        if Js.truthy (r_snapshot raw ?> snap_cards ?> head ?> card_video_hd_url)
        then r_snapshot raw ?> snap_cards ?> head ?> card_video_hd_url
        else None
    end.

Definition platformOf (p : string) : AdPlatform :=
  let platform := Js.toLowerCase p in
  if Js.includes platform "facebook" then facebook
  else if Js.includes platform "instagram" then instagram
  else if Js.includes platform "messenger" then messenger
  else if Js.includes platform "audience_network"
          || Js.includes platform "audience network" then audience_network
  else platform_unknown.

(** [a || b] on optional arrays: every array is truthy. *)
Definition arr_or {A} (a b : option (list A)) : option (list A) :=
  match a with Some _ => a | None => b end.

(** [parsePlatforms] *)
Definition parsePlatforms (rawAd : ApifyRawAdItem) : list AdPlatform :=
  let platformStrings :=
    default []
      (arr_or (r_platforms rawAd)
         (arr_or (r_publisherPlatform rawAd) (r_publisher_platform rawAd))) in
  if (length platformStrings =? 0)%nat then [platform_unknown]
  else map platformOf platformStrings.

Definition isTrue (b : option bool) : bool :=
  match b with Some true => true | _ => false end.

Definition isFalse (b : option bool) : bool :=
  match b with Some false => true | _ => false end.

(** [parseStatus] *)
Definition parseStatus (rawAd : ApifyRawAdItem) : AdStatus :=
  if isTrue (r_isActive rawAd) || isTrue (r_isRunning rawAd) then active
  else if isFalse (r_isActive rawAd) || isFalse (r_isRunning rawAd) then inactive
  else if isTrue (r_is_active rawAd) then active
  else if isFalse (r_is_active rawAd) then inactive
  else if Js.truthy (r_status rawAd) then
    let status := Js.toLowerCase (default "" (r_status rawAd)) in
    if Js.streq status "active" || Js.streq status "running" then active
    else if Js.streq status "inactive" || Js.streq status "stopped"
            || Js.streq status "paused" then inactive
    else if Js.streq status "removed" || Js.streq status "deleted" then removed
    else status_unknown
  else status_unknown.

(** [ToInt32] *)
Definition toInt32 (z : Z) : Z :=
  let m := (z mod 2 ^ 32)%Z in
  if (m <? 2 ^ 31)%Z then m else (m - 2 ^ 32)%Z.

(** The loop body of [hashString]:
    [hash = (hash << 5) - hash + char; hash = hash & hash]. *)
Definition hashStep (hash : Z) (c : ascii) : Z :=
  let hash := (toInt32 (Z.shiftl hash 5) - hash + Js.charCode c)%Z in
  toInt32 (Z.land hash hash).

Fixpoint hashLoop (hash : Z) (str : string) : Z :=
  match str with
  | EmptyString => hash
  | String c r => hashLoop (hashStep hash c) r
  end.

(** [hashString] *)
Definition hashString (str : string) : string :=
  "generated_" ++ Js.showHex (Z.abs (hashLoop 0 str)).

(** The [components] array of [generateAdId]. *)
Definition idComponents (rawAd : ApifyRawAdItem) : list string :=
  [ Js.or_str (r_pageID rawAd) "";
    Js.or_str (Js.substring0 50 <$> r_adText rawAd) "";
    Js.or_str (Js.or_else (r_imageUrl rawAd) (r_videoUrl rawAd)) "";
    Js.or_str (r_startDate rawAd) "" ].

(** [generateAdId] *)
Definition generateAdId (rawAd : ApifyRawAdItem) : string :=
  hashString (Js.join "|" (idComponents rawAd)).

(** The natural id of a raw record, when it has one. *)
Definition naturalId (raw : ApifyRawAdItem) : option string :=
  Js.or_else (r_id raw)
    (Js.or_else (r_adArchiveID raw)
       (Js.or_else (r_ad_archive_id raw) (r_adid raw))).

(** [normalizeAd]; [fetched] is the value of [new Date()]. *)
Definition normalizeAd (rawAd : ApifyRawAdItem) (brand : string) (fetched : Z) : Ad :=
  let raw := rawAd in
  let id := Js.or_str (naturalId raw) (generateAdId rawAd) in
  let platforms := parsePlatforms rawAd in
  let status := parseStatus rawAd in
  let startDate :=
    parseDate
      (Js.or_else (r_startDate raw)
         (Js.or_else (r_start_date raw)
            (Js.or_else (r_start_date_formatted raw)
               (Js.or_else (r_adCreationTime raw) (r_adDeliveryStartTime raw))))) in
  let endDate :=
    parseDate
      (Js.or_else (r_endDate raw)
         (Js.or_else (r_end_date raw)
            (Js.or_else (r_end_date_formatted raw) (r_adDeliveryStopTime raw)))) in
  let media := parseMedia rawAd in
  let format := determineFormat rawAd media in
  let imageUrl := extractImageUrl raw in
  let videoUrl := extractVideoUrl raw in
  let primaryText :=
    Js.or_else (r_primaryText raw)
      (Js.or_else (r_bodyText raw)
         (Js.or_else (r_adText raw) (r_snapshot raw ?> snap_body_text))) in
  let ctaText := Js.or_else (r_ctaText raw) (r_snapshot raw ?> snap_cta_text) in
  let ctaType := Js.or_else (r_ctaType raw) (r_snapshot raw ?> snap_cta_type) in
  {| id := id;
     adLibraryId := Js.or_else (r_adArchiveID raw) (r_ad_archive_id raw);
     brandName :=
       Js.or_str
         (Js.or_else (r_pageName raw)
            (Js.or_else (r_page_name raw) (r_snapshot raw ?> snap_page_name)))
         brand;
     pageId := Js.or_else (r_pageID raw) (r_page_id raw);
     pageUrl := r_pageUrl raw;
     headline := Js.or_else (r_headline raw) (r_linkTitle raw);
     primaryText := primaryText;
     description := r_linkDescription raw;
     caption := Js.or_else (r_linkCaption raw) (r_snapshot raw ?> snap_caption);
     callToAction :=
       if Js.truthy ctaText
       then Some {| cta_text := ctaText; cta_type := ctaType;
                    cta_linkUrl := r_linkUrl raw |}
       else None;
     imageUrl := imageUrl;
     videoUrl := videoUrl;
     media := media;
     platforms := platforms;
     format := format;
     startDate := startDate;
     endDate := endDate;
     status := status;
     adLibraryUrl := Js.or_else (r_adLibraryUrl raw) (r_ad_library_url raw);
     snapshotUrl := r_adSnapshotUrl raw;
     fetchedAt := fetched |}.

(** [normalizeAd] with its reading of the clock. *)
Definition normalizeAdM (brand : ApifyRawAdItem -> string) (rawAd : ApifyRawAdItem) : M Ad :=
  t ← now;
  mret (normalizeAd rawAd (brand rawAd) t).

(** *** Fetch orchestrator *)

Definition failureResult (message : string) (code : ApifyErrorCode)
    (q : string) (duration : Z) : FetchAdsResult :=
  {| success := false; ads := []; error := Some message; errorCode := Some code;
     totalFound := None; brandSource := None; verifiedBrandName := None;
     metadata := Some {| query := q; durationMs := duration;
                         runId := None; datasetId := None |} |}.

Definition successResult (found : list Ad) (total : nat)
    (source : option BrandSource) (verified : option string)
    (q : string) (duration : Z) (run : ActorRun) : FetchAdsResult :=
  {| success := true; ads := found; error := None; errorCode := None;
     totalFound := Some total; brandSource := source;
     verifiedBrandName := verified;
     metadata := Some {| query := q; durationMs := duration;
                         runId := Some (run_id run);
                         datasetId := Some (defaultDatasetId run) |} |}.

(** The error code that [handleError] reads off the message of a plain
    [Error].  [None] is [undefined], the value of
    [ApifyErrorCode.USAGE_QUOTA_EXCEEDED]. *)
Definition classifyMessage (lowerMessage : string) : option ApifyErrorCode :=
  let has := Js.includes lowerMessage in
  if (has "out of" && has "token")
     || has "credit"
     || has "usage limit"
     || has "quota"
     || (has "insufficient" && (has "credit" || has "token"))
     || (has "exceeded" && (has "limit" || has "quota"))
  then None
  else if has "timeout" then Some TIMEOUT
  else if has "rate limit" || has "429" then Some RATE_LIMIT
  else if has "not found" || has "404" then Some ACTOR_NOT_FOUND
  else if has "unauthorized" || has "401" then Some INVALID_API_KEY
  else Some UNKNOWN.

(** [handleError]; the clock is read for the log entry and for the result. *)
Definition handleError (error : JsError) (q : string) (startTime : Z) : M FetchAdsResult :=
  let '(errorMessage, errorCode) :=
    match error with
    | ApifyError message code => (message, Some code)
    | Error message => (message, classifyMessage (Js.toLowerCase message))
    | NonError => ("An unknown error occurred", Some UNKNOWN)
    end in
  _ ← now;
  t ← now;
  mret {| success := false; ads := []; error := Some errorMessage;
          errorCode := errorCode; totalFound := None; brandSource := None;
          verifiedBrandName := None;
          metadata := Some {| query := q; durationMs := (t - startTime)%Z;
                              runId := None; datasetId := None |} |}.

(** [!s || s.trim().length === 0] *)
Definition isBlank (s : string) : bool :=
  Js.isEmpty s || (String.length (Js.trim s) =? 0)%nat.

(** [fetchAdsByPageId] *)
Definition fetchAdsByPageId (cfg : Config) (pid : string) (options : FetchAdsOptions)
    : M FetchAdsResult :=
  startTime ← now;
  if isBlank pid then
    t ← now;
    mret (failureResult "Page ID is required" NO_RESULTS pid (t - startTime)%Z)
  else
    let trimmedPageId := Js.trim pid in
    try_catch
      (result ← runActorWithRetry cfg 1;
       rawAds ← fetchDatasetItems (defaultDatasetId result);
       if (length rawAds =? 0)%nat then
         t ← now;
         mret (successResult [] 0 None None trimmedPageId (t - startTime)%Z result)
       else
         normalizedAds ←
           mapM (normalizeAdM (fun rawAd => Js.or_str (r_pageName rawAd) trimmedPageId))
                rawAds;
         t ← now;
         mret (successResult normalizedAds (length normalizedAds) None None
                 trimmedPageId (t - startTime)%Z result))
      (fun error => handleError error trimmedPageId startTime).

(** [ad.pageId === id] *)
Definition fromPage (pid : string) (ad : Ad) : bool :=
  match pageId ad with
  | Some p => Js.streq p pid
  | None => false
  end.

(** The steps of [fetchAdsByBrand] after a cache miss, inside its [try]. *)
Definition coldSearch (cfg : Config) (trimmedBrandName : string)
    (options : FetchAdsOptions) (startTime : Z) : M FetchAdsResult :=
  let maxAds := num_or (maxAds options) (defaultMaxAds cfg) in
  result ← runActorWithRetry cfg 1;
  rawAds ← fetchDatasetItems (defaultDatasetId result);
  if (length rawAds =? 0)%nat then
    t ← now;
    mret (successResult [] 0 (Some not_verified) None trimmedBrandName
            (t - startTime)%Z result)
  else
    normalizedAds ← mapM (normalizeAdM (fun _ => trimmedBrandName)) rawAds;
    match findBestMatchingPage normalizedAds trimmedBrandName with
    | None =>
        t ← now;
        mret (successResult [] 0 (Some not_verified) None trimmedBrandName
                (t - startTime)%Z result)
    | Some bestMatch =>
        (if negb (Js.isEmpty (pm_pageId bestMatch))
         then saveBrandToCache trimmedBrandName (pm_pageId bestMatch)
                (pm_pageName bestMatch)
         else mret tt);;
        let filteredAds := List.filter (fromPage (pm_pageId bestMatch)) normalizedAds in
        let finalAds := Js.slice0 filteredAds maxAds in
        t ← now;
        mret (successResult finalAds (length filteredAds) (Some discovered)
                (Some (pm_pageName bestMatch)) trimmedBrandName
                (t - startTime)%Z result)
    end.

(** [fetchAdsByBrand] *)
Definition fetchAdsByBrand (cfg : Config) (brand : string) (options : FetchAdsOptions)
    : M FetchAdsResult :=
  startTime ← now;
  if isBlank brand then
    t ← now;
    mret (failureResult "Brand name is required" NO_RESULTS brand (t - startTime)%Z)
  else
    let trimmedBrandName := Js.trim brand in
    cachedBrand ← lookupBrandInCache trimmedBrandName;
    match cachedBrand with
    | Some entry =>
        result ← fetchAdsByPageId cfg (bce_pageId entry) options;
        mret {| success := success result; ads := ads result;
                error := error result; errorCode := errorCode result;
                totalFound := totalFound result;
                brandSource := Some cached;
                verifiedBrandName := Some (bce_name entry);
                metadata := metadata result |}
    | None =>
        try_catch (coldSearch cfg trimmedBrandName options startTime)
          (fun error => handleError error trimmedBrandName startTime)
    end.

End Normalizer.

End Meta.

(* ===================================================================== *)
(** ** GoogleAdsService *)
(* ===================================================================== *)

Module Google.

Record AdvertiserCacheEntry := {
  ace_advertiserId : string;
  ace_name : string;
  ace_domain : string
}.

Record CacheMetadata := {
  lastUpdated : Z;
  totalAdvertisers : nat;
  note : string
}.

Record AdvertisersCache := {
  advertisers : gmap string AdvertiserCacheEntry;
  cache_metadata : option CacheMetadata
}.

(** One element of [variations]; each field is the optional chain
    [variation.<block>?.<field>]. *)
Record Variation := {
  text_iframeUrl : option string;
  image_imageUrl : option string;
  video_videoUrl : option string;
  video_thumbnailUrl : option string
}.

(** The fields of [GoogleAdRawItem] that the service reads. *)
Record GoogleAdRawItem := {
  g_advertiserId : option string;
  g_advertiserName : option string;
  g_creativeId : option string;
  g_adType : option string;
  g_variations : option (list Variation)
}.

Record Config := {
  defaultTimeoutMs : Z;
  defaultMaxAds : Z
}.

Definition DEFAULT_CONFIG : Config :=
  {| defaultTimeoutMs := 180000; defaultMaxAds := 10 |}.

Abbreviation M := (M GoogleAdRawItem AdvertisersCache).
Abbreviation State := (State AdvertisersCache).
Abbreviation Env := (Env GoogleAdRawItem).

Definition emptyCache : AdvertisersCache :=
  {| advertisers := ∅; cache_metadata := None |}.

(** *** Advertiser cache *)

(** [loadCache], run by the constructor. *)
Definition loadCache : M unit :=
  s ← get;
  match s_cache s with
  | Some _ => mret tt
  | None =>
      try_catch (c ← readCacheFile; set_cache (Some c))
                (fun _ => set_cache (Some emptyCache))
  end.

(** [saveCache] *)
Definition saveCache : M unit :=
  s ← get;
  match s_cache s with
  | None => mret tt
  | Some c =>
      try_catch
        (t ← now;
         let c' :=
           {| advertisers := advertisers c;
              cache_metadata :=
                Some {| lastUpdated := t;
                        totalAdvertisers := size (advertisers c);
                        note := "Google Ads advertiser IDs cached for faster lookups" |} |} in
         set_cache (Some c');;
         writeCacheFile c')
        (fun _ => mret tt)
  end.

Definition normalizeKey (term : string) : string :=
  Js.trim (Js.toLowerCase term).

(** [lookupInCache].  [advertisers c !! key] is
    [advertisersCache?.advertisers[key] || null] for the keys that are not
    inherited ([Js.inheritedKey]). *)
Definition lookupInCache (brand : string) : M (option AdvertiserCacheEntry) :=
  let key := normalizeKey brand in
  emit (EvCacheLookup key);;
  s ← get;
  mret (s_cache s ?> (fun c => advertisers c !! key)).

(** [saveToCache].  [EvCacheSave] marks the assignment
    [advertisersCache.advertisers[key] = ...], which adds or replaces the
    property [key] for every key but [__proto__]. *)
Definition saveToCache (brand advertiserId displayName domain : string) : M unit :=
  s ← get;
  let c := default emptyCache (s_cache s) in
  let key := normalizeKey brand in
  set_cache
    (Some {| advertisers :=
               <[key := {| ace_advertiserId := advertiserId;
                           ace_name := displayName;
                           ace_domain := domain |}]> (advertisers c);
             cache_metadata := cache_metadata c |});;
  emit (EvCacheSave key advertiserId);;
  saveCache.

(** *** Domain of a brand *)

Definition domainMap : list (string * string) :=
  [ ("coca-cola", "coca-cola.com");
    ("coca cola", "coca-cola.com");
    ("mcdonald's", "mcdonalds.com");
    ("mcdonalds", "mcdonalds.com");
    ("at&t", "att.com");
    ("att", "att.com") ].

Fixpoint assoc (m : list (string * string)) (key : string) : option string :=
  match m with
  | [] => None
  | (k, v) :: r => if Js.streq k key then Some v else assoc r key
  end.

(** The characters kept by [replace(/[^a-z0-9]/g, '')]. *)
Definition isLowerAlnum (c : ascii) : bool :=
  let n := nat_of_ascii c in
  ((97 <=? n)%nat && (n <=? 122)%nat) || ((48 <=? n)%nat && (n <=? 57)%nat).

Fixpoint keepLowerAlnum (s : string) : string :=
  match s with
  | EmptyString => EmptyString
  | String c r =>
      if isLowerAlnum c then String c (keepLowerAlnum r) else keepLowerAlnum r
  end.

(** [buildDomain].  [assoc domainMap key] is [domainMap[key]] for the keys
    that are not inherited ([Js.inheritedKey]): the object literal has the
    six properties of [domainMap], all of them non-empty strings. *)
Definition buildDomain (brand : string) : string :=
  let key := normalizeKey brand in
  match assoc domainMap key with
  | Some d => d
  | None => Js.trim (keepLowerAlnum (Js.toLowerCase brand)) ++ ".com"
  end.

(** *** Record normaliser *)

Definition isQuote (c : ascii) : bool :=
  Ascii.eqb c (ascii_of_nat 34) || Ascii.eqb c (ascii_of_nat 39).

(** The longest prefix without a quote, and what follows it. *)
Fixpoint spanNonQuote (s : string) : string * string :=
  match s with
  | EmptyString => (EmptyString, EmptyString)
  | String c r =>
      if isQuote c then (EmptyString, s)
      else let '(run, rest) := spanNonQuote r in (String c run, rest)
  end.

(** A match, starting at the head of [s], of the pattern of [extractImageUrl]:
    the letters src=, a single or double quote, one or more characters that
    are not quotes (the capture), and a quote. *)
Definition matchSrcHere (s : string) : option string :=
  match s with
  | String "s" (String "r" (String "c" (String "=" (String q r)))) =>
      if isQuote q then
        match spanNonQuote r with
        | (run, String _ _) => if Js.isEmpty run then None else Some run
        | (_, EmptyString) => None
        end
      else None
  | _ => None
  end.

(** The first capture of the leftmost match. *)
Fixpoint matchSrc (s : string) : option string :=
  match matchSrcHere s with
  | Some u => Some u
  | None =>
      match s with
      | EmptyString => None
      | String _ r => matchSrc r
      end
  end.

(** [extractImageUrl] *)
Definition extractImageUrl (html : option string) : option string :=
  match html with
  | Some h => if Js.isEmpty h then None else matchSrc h
  | None => None
  end.

(** The format that [normalizeAd] reads off [adType]. *)
Definition formatOfAdType (rawAdType : option string) : AdFormat :=
  let adType := Js.toLowerCase (Js.or_str rawAdType "") in
  if Js.includes adType "video" then fmt_video
  else if Js.includes adType "image" then fmt_image
  else if Js.includes adType "text" then fmt_text
  else fmt_unknown.

(** The variables [imageUrl], [videoUrl] and [media] of [normalizeAd]. *)
Record MediaAcc := {
  acc_imageUrl : option string;
  acc_videoUrl : option string;
  acc_media : list AdMedia
}.

(** The body of the loop over [variations]. *)
Definition variationStep (acc : MediaAcc) (variation : Variation) : MediaAcc :=
  (* textAdMetadata: an HTML fragment with an img tag *)
  let acc :=
    if Js.truthy (text_iframeUrl variation) then
      match extractImageUrl (text_iframeUrl variation) with
      | Some extractedUrl =>
          if negb (Js.isEmpty extractedUrl) && negb (Js.truthy (acc_imageUrl acc))
          then {| acc_imageUrl := Some extractedUrl;
                  acc_videoUrl := acc_videoUrl acc;
                  acc_media :=
                    (acc_media acc ++
                     [{| m_type := image; m_url := extractedUrl;
                         m_thumbnailUrl := None; m_duration := None |}])%list |}
          else acc
      | None => acc
      end
    else acc in
  (* imageAdMetadata *)
  let acc :=
    match image_imageUrl variation with
    | Some u =>
        if negb (Js.isEmpty u) && negb (Js.truthy (acc_imageUrl acc))
        then {| acc_imageUrl := Some u;
                acc_videoUrl := acc_videoUrl acc;
                acc_media :=
                  (acc_media acc ++
                   [{| m_type := image; m_url := u;
                       m_thumbnailUrl := None; m_duration := None |}])%list |}
        else acc
    | None => acc
    end in
  (* videoAdMetadata *)
  match video_videoUrl variation with
  | Some u =>
      if negb (Js.isEmpty u) && negb (Js.truthy (acc_videoUrl acc))
      then {| acc_imageUrl := acc_imageUrl acc;
              acc_videoUrl := Some u;
              acc_media :=
                (acc_media acc ++
                 [{| m_type := video; m_url := u;
                     m_thumbnailUrl := video_thumbnailUrl variation;
                     m_duration := None |}])%list |}
      else acc
  | None => acc
  end.

Definition extractMedia (raw : GoogleAdRawItem) : MediaAcc :=
  fold_left variationStep (default [] (g_variations raw))
    {| acc_imageUrl := None; acc_videoUrl := None; acc_media := [] |}.

(** The [adLibraryUrl] of a normalised ad. *)
Definition libraryUrl (advertiserId adId : string) : string :=
  if negb (Js.isEmpty advertiserId) && negb (Js.isEmpty adId) then
    "https://adstransparency.google.com/advertiser/" ++ advertiserId
      ++ "/creative/" ++ adId
  else if negb (Js.isEmpty advertiserId) then
    "https://adstransparency.google.com/advertiser/" ++ advertiserId
  else "https://adstransparency.google.com/".

(** [normalizeAd], given the id and the value of [new Date()]. *)
Definition buildAd (raw : GoogleAdRawItem) (searchTerm adId : string) (fetched : Z) : Ad :=
  let advertiserId := Js.or_str (g_advertiserId raw) "" in
  let advertiserName := Js.or_str (g_advertiserName raw) searchTerm in
  let format := formatOfAdType (g_adType raw) in
  let acc := extractMedia raw in
  {| id := adId;
     adLibraryId := None;
     brandName := advertiserName;
     pageId := Some advertiserId;
     pageUrl := None;
     headline := None;
     primaryText := None;
     description := None;
     caption := None;
     callToAction := None;
     imageUrl := acc_imageUrl acc;
     videoUrl := acc_videoUrl acc;
     media := acc_media acc;
     platforms := [google_display];
     format := format;
     startDate := None;
     endDate := None;
     status := active;
     adLibraryUrl := Some (libraryUrl advertiserId adId);
     snapshotUrl := None;
     fetchedAt := fetched |}.

(** [raw.creativeId || `google-${Date.now()}-${Math.random()}`] *)
Definition adIdOf (raw : GoogleAdRawItem) : M string :=
  if Js.truthy (g_creativeId raw) then mret (default "" (g_creativeId raw))
  else
    t ← now;
    r ← random;
    mret ("google-" ++ Js.showZ t ++ "-" ++ r).

(** [normalizeAd] *)
Definition normalizeAd (searchTerm : string) (raw : GoogleAdRawItem) : M Ad :=
  adId ← adIdOf raw;
  fetched ← now;
  mret (buildAd raw searchTerm adId fetched).

(** *** Fetch orchestrator *)

Definition isBlank (s : string) : bool :=
  Js.isEmpty s || (String.length (Js.trim s) =? 0)%nat.

Definition failureResult (message : string) (code : ApifyErrorCode)
    (source : option BrandSource) (q : string) (duration : Z) : FetchAdsResult :=
  {| success := false; ads := []; error := Some message; errorCode := Some code;
     totalFound := None; brandSource := source; verifiedBrandName := None;
     metadata := Some {| query := q; durationMs := duration;
                         runId := None; datasetId := None |} |}.

(** [error instanceof Error ? error.message : 'Unknown error'] *)
Definition messageOf (error : JsError) : string :=
  match error with
  | ApifyError message _ => message
  | Error message => message
  | NonError => "Unknown error"
  end.

(** [fetchAdsByAdvertiserId] *)
Definition fetchAdsByAdvertiserId (cfg : Config) (advertiserId : string)
    (options : FetchAdsOptions) : M FetchAdsResult :=
  startTime ← now;
  try_catch
    (let maxAds := num_or (maxAds options) (defaultMaxAds cfg) in
     run ← actorCall 1;
     if negb (RunStatus_eqb (run_status run) SUCCEEDED) then
       t ← now;
       mret (failureResult "Failed to fetch ads" RUN_FAILED None advertiserId
               (t - startTime)%Z)
     else
       items ← listItems (defaultDatasetId run);
       normalizedAds ← mapM (normalizeAd "") items;
       let finalAds := Js.slice0 normalizedAds maxAds in
       t ← now;
       mret {| success := true; ads := finalAds; error := None; errorCode := None;
               totalFound := Some (length normalizedAds);
               brandSource := None; verifiedBrandName := None;
               metadata := Some {| query := advertiserId;
                                   durationMs := (t - startTime)%Z;
                                   runId := Some (run_id run);
                                   datasetId := Some (defaultDatasetId run) |} |})
    (fun error =>
       t ← now;
       mret (failureResult (messageOf error) UNKNOWN None advertiserId
               (t - startTime)%Z)).

(** The steps of [fetchAdsByBrand] after a cache miss, inside its [try]. *)
Definition coldSearch (cfg : Config) (trimmedBrandName domain : string)
    (options : FetchAdsOptions) (startTime : Z) : M FetchAdsResult :=
  let maxAds := num_or (maxAds options) (defaultMaxAds cfg) in
  run ← actorCall 1;
  if negb (RunStatus_eqb (run_status run) SUCCEEDED) then
    t ← now;
    mret (failureResult "Failed to fetch ads" RUN_FAILED (Some not_verified)
            trimmedBrandName (t - startTime)%Z)
  else
    items ← listItems (defaultDatasetId run);
    match items with
    | [] =>
        t ← now;
        mret {| success := true; ads := []; error := None; errorCode := None;
                totalFound := Some 0%nat;
                brandSource := Some not_verified; verifiedBrandName := None;
                metadata := Some {| query := trimmedBrandName;
                                    durationMs := (t - startTime)%Z;
                                    runId := Some (run_id run);
                                    datasetId := None |} |}
    | firstAd :: _ =>
        normalizedAds ← mapM (normalizeAd trimmedBrandName) items;
        (* the advertiser of the first record *)
        let advertiserId := g_advertiserId firstAd in
        let advertiserName := Js.or_str (g_advertiserName firstAd) trimmedBrandName in
        (if Js.truthy advertiserId
         then saveToCache trimmedBrandName (default "" advertiserId)
                advertiserName domain
         else mret tt);;
        let finalAds := Js.slice0 normalizedAds maxAds in
        t ← now;
        mret {| success := true; ads := finalAds; error := None; errorCode := None;
                totalFound := Some (length normalizedAds);
                brandSource :=
                  Some (if Js.truthy advertiserId then discovered else not_verified);
                verifiedBrandName := Some advertiserName;
                metadata := Some {| query := trimmedBrandName;
                                    durationMs := (t - startTime)%Z;
                                    runId := Some (run_id run);
                                    datasetId := Some (defaultDatasetId run) |} |}
    end.

(** [fetchAdsByBrand] *)
Definition fetchAdsByBrand (cfg : Config) (brand : string) (options : FetchAdsOptions)
    : M FetchAdsResult :=
  startTime ← now;
  if isBlank brand then
    t ← now;
    mret (failureResult "Brand name is required" NO_RESULTS (Some not_verified)
            brand (t - startTime)%Z)
  else
    let trimmedBrandName := Js.trim brand in
    cachedEntry ← lookupInCache trimmedBrandName;
    match cachedEntry with
    | Some entry =>
        result ← fetchAdsByAdvertiserId cfg (ace_advertiserId entry) options;
        mret {| success := success result; ads := ads result;
                error := error result; errorCode := errorCode result;
                totalFound := totalFound result;
                brandSource := Some cached;
                verifiedBrandName := Some (ace_name entry);
                metadata := metadata result |}
    | None =>
        let domain := buildDomain trimmedBrandName in
        try_catch (coldSearch cfg trimmedBrandName domain options startTime)
          (fun error =>
             t ← now;
             mret (failureResult (messageOf error) UNKNOWN (Some not_verified)
                     trimmedBrandName (t - startTime)%Z))
    end.

End Google.

(* ===================================================================== *)
(** ** Input of the actors *)
(* ===================================================================== *)

Module ActorInput.
Import Js.

(** *** [URLSearchParams.prototype.toString]

    The application/x-www-form-urlencoded serialiser: a space becomes a
    plus sign; the ASCII letters and digits and the characters * - . _ stay;
    every other character is replaced by the percent-encoded bytes of its
    UTF-8 form. *)

Definition hexDigit (n : nat) : ascii :=
  if (n <? 10)%nat then ascii_of_nat (48 + n) else ascii_of_nat (55 + n).

Definition percentByte (b : nat) : string :=
  String "%" (String (hexDigit (b / 16)) (String (hexDigit (b mod 16)) "")).

Definition isUrlencodedSafe (c : ascii) : bool :=
  let n := nat_of_ascii c in
  ((48 <=? n)%nat && (n <=? 57)%nat)
  || ((65 <=? n)%nat && (n <=? 90)%nat)
  || ((97 <=? n)%nat && (n <=? 122)%nat)
  || (n =? 42)%nat || (n =? 45)%nat || (n =? 46)%nat || (n =? 95)%nat.

(** The UTF-8 bytes of a code unit below 256. *)
Definition utf8 (c : ascii) : list nat :=
  let n := nat_of_ascii c in
  if (n <? 128)%nat then [n] else [(192 + n / 64)%nat; (128 + n mod 64)%nat].

Definition encodeUnit (c : ascii) : string :=
  if (nat_of_ascii c =? 32)%nat then "+"
  else if isUrlencodedSafe c then String c ""
  else fold_right (fun b acc => percentByte b ++ acc) "" (utf8 c).

Fixpoint formUrlEncode (s : string) : string :=
  match s with
  | EmptyString => EmptyString
  | String c r => encodeUnit c ++ formUrlEncode r
  end.

(** [new URLSearchParams(record).toString()], the entries in the order of
    the record. *)
Definition searchParams (params : list (string * string)) : string :=
  join "&" (map (fun '(k, v) => formUrlEncode k ++ "=" ++ formUrlEncode v) params).

(** [options.activeOnly ? 'active' : 'all'] *)
Definition activeStatusOf (options : FetchAdsOptions) : string :=
  if Meta.isTrue (activeOnly options) then "active" else "all".

(** [buildAdLibraryUrl] of the Meta service *)
Definition buildAdLibraryUrl (brandName : string) (options : FetchAdsOptions) : string :=
  let countryCode := or_str (countryCode options) "US" in
  let activeStatus := activeStatusOf options in
  let params :=
    searchParams
      [ ("active_status", activeStatus);
        ("ad_type", "all");
        ("country", countryCode);
        ("q", brandName);
        ("search_type", "page");
        ("media_type", "all") ] in
  "https://www.facebook.com/ads/library/?" ++ params.

(** The input of the Meta actor: the field [urls], the field [count] and
    the field ['scrapePageAds.activeStatus']. *)
Record MetaActorInput := {
  in_urls : list string;
  in_count : Z;
  in_activeStatus : string
}.

(** [buildActorInput] of the Meta service; [maxAds] is [options.maxAds]. *)
Definition buildActorInput (brandName : string) (options : FetchAdsOptions)
    (maxAds : Z) : MetaActorInput :=
  let adLibraryUrl := buildAdLibraryUrl brandName options in
  let fetchCount := Z.min (maxAds * 4) 200 in
  {| in_urls := [adLibraryUrl];
     in_count := fetchCount;
     in_activeStatus := activeStatusOf options |}.

(** [buildSearchUrl] of the Google service *)
Definition buildSearchUrl (domain region : string) : string :=
  "https://adstransparency.google.com/?region=" ++ region ++ "&domain=" ++ domain.

End ActorInput.

(* ===================================================================== *)
(** ** The search route (server/src/routes/ads.ts) *)
(* ===================================================================== *)

Module Routes.
Import Js.

(** [AdsSearchResponse]; [fromCache] belongs to the handler with the search
    history, the other handler leaves it out. *)
Record AdsSearchResponse := {
  rs_success : bool;
  rs_ads : list Ad;
  rs_total : nat;
  rs_error : option string;
  rs_brandSource : option BrandSource;
  rs_verifiedBrandName : option string;
  rs_fromCache : option bool
}.

(** The query of a request.  Each parameter is absent or a string; a
    parameter given more than once or with brackets is outside the model. *)
Record Query := {
  q_brand : option string;
  q_maxAds : option string;
  q_countryCode : option string
}.

(** *** [parseInt(s, 10)] *)

Definition isDigit (c : ascii) : bool :=
  let n := nat_of_ascii c in (48 <=? n)%nat && (n <=? 57)%nat.

(** The value of the longest prefix of digits, [None] when there is none. *)
Fixpoint digitsPrefix (s : string) (acc : option Z) : option Z :=
  match s with
  | EmptyString => acc
  | String c r =>
      if isDigit c
      then digitsPrefix r (Some (10 * default 0 acc + (charCode c - 48))%Z)
      else acc
  end.

(** [parseInt(s, 10)]; [None] is [NaN]. *)
Definition parseInt10 (s : string) : option Z :=
  match trimStart s with
  | String "-" r => Z.opp <$> digitsPrefix r None
  | String "+" r => digitsPrefix r None
  | t => digitsPrefix t None
  end.

(** *** [String.prototype.toUpperCase] and [trim] on code units

    The upper-case form of a character below 256 can lie above 255 or have
    two characters, so the result is given as a list of code units. *)

Definition upperUnits (c : ascii) : list Z :=
  let n := charCode c in
  if ((97 <=? n) && (n <=? 122))%Z then [(n - 32)%Z]
  else if (n =? 181)%Z then [924%Z]
  else if (n =? 223)%Z then [83%Z; 83%Z]
  else if (n =? 255)%Z then [376%Z]
  else if ((224 <=? n) && (n <=? 254) && negb (n =? 247))%Z then [(n - 32)%Z]
  else [n].

Fixpoint toUpperCase (s : string) : list Z :=
  match s with
  | EmptyString => []
  | String c r => (upperUnits c ++ toUpperCase r)%list
  end.

(** WhiteSpace and LineTerminator code units. *)
Definition isWhiteSpaceUnit (u : Z) : bool :=
  (((9 <=? u) && (u <=? 13)) || (u =? 32) || (u =? 160) || (u =? 5760)
   || ((8192 <=? u) && (u <=? 8202)) || (u =? 8232) || (u =? 8233)
   || (u =? 8239) || (u =? 8287) || (u =? 12288) || (u =? 65279))%Z.

Fixpoint dropSpace (l : list Z) : list Z :=
  match l with
  | [] => []
  | u :: r => if isWhiteSpaceUnit u then dropSpace r else l
  end.

Definition trimUnits (l : list Z) : list Z :=
  rev (dropSpace (rev (dropSpace l))).

(** The test of the pattern of two letters A-Z. *)
Definition isCountryCode (l : list Z) : bool :=
  match l with
  | [a; b] => ((65 <=? a) && (a <=? 90) && (65 <=? b) && (b <=? 90))%Z
  | _ => false
  end.

(** The string of a list of code units below 256. *)
Definition stringOfUnits (l : list Z) : string :=
  string_of_list_ascii (map (fun u => ascii_of_nat (Z.to_nat u)) l).

(** *** Validation of the query *)

(** The double quote, for the messages that hold one. *)
Definition dq : string := String (ascii_of_nat 34) "".

Definition brandRequired : string :=
  "Brand name is required. Please provide a " ++ dq ++ "brand" ++ dq
    ++ " query parameter.".

Definition countryCodeInvalid : string :=
  "countryCode must be a valid 2-letter ISO country code (e.g., " ++ dq ++ "US"
    ++ dq ++ ", " ++ dq ++ "GB" ++ dq ++ ").".

Inductive Validated :=
| Rejected (message : string)
| Accepted (brand : string) (parsedMaxAds : Z) (parsedCountryCode : option string).

Definition validate (q : Query) : Validated :=
  match q_brand q with
  | None => Rejected brandRequired
  | Some brand =>
      if isEmpty brand || (String.length (trim brand) =? 0)%nat then
        Rejected brandRequired
      else
        let parsedMaxAds :=
          if truthy (q_maxAds q) then parseInt10 (default "" (q_maxAds q))
          else Some 10%Z in
        match parsedMaxAds with
        | None => Rejected "maxAds must be a number between 1 and 100."
        | Some n =>
            if ((n <? 1) || (100 <? n))%Z then
              Rejected "maxAds must be a number between 1 and 100."
            else
              let parsedCountryCode :=
                if truthy (q_countryCode q)
                then Some (trimUnits (toUpperCase (default "" (q_countryCode q))))
                else None in
              match parsedCountryCode with
              | Some (u :: l) =>
                  if isCountryCode (u :: l)
                  then Accepted brand n (Some (stringOfUnits (u :: l)))
                  else Rejected countryCodeInvalid
              | Some [] => Accepted brand n (Some "")
              | None => Accepted brand n None
              end
        end
  end.

(** *** Status codes and messages *)

(** [getStatusCodeForApifyError] *)
Definition getStatusCodeForApifyError (errorCode : option ApifyErrorCode) : Z :=
  match errorCode with
  | Some INVALID_API_KEY => 401
  | Some RATE_LIMIT => 429
  | Some ACTOR_NOT_FOUND => 404
  | Some TIMEOUT => 504
  | Some NO_RESULTS => 200
  | _ => 500
  end.

(** [getUserFriendlyErrorMessage]; [production] is
    [process.env.NODE_ENV === 'production']. *)
Definition getUserFriendlyErrorMessage (production : bool) (errorCode : ApifyErrorCode)
    (originalMessage : string) : string :=
  match errorCode with
  | INVALID_API_KEY => "Service configuration error. Please contact support."
  | RATE_LIMIT => "Too many requests. Please wait a moment and try again."
  | ACTOR_NOT_FOUND => "Service temporarily unavailable. Please try again later."
  | TIMEOUT =>
      "The request took too long. Please try again with a smaller maxAds value."
  | NO_RESULTS => "No ads found for the specified brand."
  | RUN_FAILED => "Failed to fetch ads. Please try again later."
  | NETWORK_ERROR =>
      "Network error occurred. Please check your connection and try again."
  | _ =>
      if production then "An unexpected error occurred. Please try again later."
      else originalMessage
  end.

Definition failureBody (message : string) : AdsSearchResponse :=
  {| rs_success := false; rs_ads := []; rs_total := 0;
     rs_error := Some message; rs_brandSource := None;
     rs_verifiedBrandName := None; rs_fromCache := None |}.

(** [new GoogleAdsService()]; [apiKey] is [process.env.APIFY_API_KEY]. *)
Definition newGoogleAdsService (apiKey : option string) : Google.M unit :=
  if negb (truthy apiKey)
  then throw (ApifyError "APIFY_API_KEY is required" INVALID_API_KEY)
  else Google.loadCache.

(** The handler of GET /search that fetches for every request: the status
    and the body of the response. *)
Definition search (production : bool) (apiKey : option string) (q : Query)
    : Google.M (Z * AdsSearchResponse) :=
  match validate q with
  | Rejected message => mret (400%Z, failureBody message)
  | Accepted brand parsedMaxAds parsedCountryCode =>
      try_catch
        (newGoogleAdsService apiKey;;
         result ←
           Google.fetchAdsByBrand Google.DEFAULT_CONFIG (trim brand)
             {| maxAds := Some parsedMaxAds; countryCode := parsedCountryCode;
                activeOnly := None; timeoutMs := None |};
         if negb (success result) then
           let statusCode := getStatusCodeForApifyError (errorCode result) in
           mret (statusCode,
                 failureBody
                   (or_str (error result)
                      "Failed to fetch ads. Please try again later."))
         else
           mret (200%Z,
                 {| rs_success := true; rs_ads := ads result;
                    rs_total := length (ads result); rs_error := None;
                    rs_brandSource := brandSource result;
                    rs_verifiedBrandName := verifiedBrandName result;
                    rs_fromCache := None |}))
        (fun error =>
           match error with
           | ApifyError message code =>
               mret (getStatusCodeForApifyError (Some code),
                     failureBody (getUserFriendlyErrorMessage production code message))
           | Error message =>
               mret (500%Z,
                     failureBody
                       (if production
                        then "An unexpected error occurred while fetching ads. Please try again later."
                        else message))
           | NonError =>
               mret (500%Z,
                     failureBody
                       (if production
                        then "An unexpected error occurred while fetching ads. Please try again later."
                        else "An unexpected error occurred"))
           end)
  end.

End Routes.

(* ===================================================================== *)
(** ** The search route with the search history *)
(* ===================================================================== *)

(** The stored searches (server/src/types/searchHistory.ts). *)
Module SearchHistory.

(** [CachedAd].  The fields [publisherPlatform], [currency] and the spend and
    impression bounds are left out: the route reads [currency] only for
    [performanceSignals], which the [Ad] of the model leaves out.
    [platforms] holds the names of platforms that [adToCachedAd] stored. *)
Record CachedAd := {
  c_id : string;
  c_pageId : string;
  c_pageName : string;
  c_adArchiveId : string;
  c_startDate : option string;
  c_endDate : option string;
  c_isActive : bool;
  c_platforms : list AdPlatform;
  c_adCreativeBody : option string;
  c_adCreativeLinkTitle : option string;
  c_adCreativeLinkDescription : option string;
  c_adCreativeLinkCaption : option string;
  c_images : list string;
  c_videos : list string
}.

(** [SearchHistoryItem] *)
Record SearchHistoryItem := {
  h_searchId : string;
  h_brand : string;
  h_normalizedBrand : string;
  h_searchedAt : string;
  h_resultCount : Z;
  h_results : list CachedAd
}.

End SearchHistory.

(** The later version of server/src/routes/ads.ts.  Its validation of the
    query is the one of [Routes]. *)
Module RoutesWithHistory.
Import Js Routes SearchHistory.

(** [getStatusCodeForApifyError].  The second case of the switch is
    [ApifyErrorCode.USAGE_QUOTA_EXCEEDED], that is [undefined]: it is the
    case of a missing error code. *)
Definition getStatusCodeForApifyError (errorCode : option ApifyErrorCode) : Z :=
  match errorCode with
  | Some INVALID_API_KEY => 401
  | None => 402
  | Some RATE_LIMIT => 429
  | Some ACTOR_NOT_FOUND => 404
  | Some TIMEOUT => 504
  | Some NO_RESULTS => 200
  | Some RUN_FAILED | Some NETWORK_ERROR | Some UNKNOWN => 500
  end.

(** [getUserFriendlyErrorMessage], with the same second case. *)
Definition getUserFriendlyErrorMessage (production : bool)
    (errorCode : option ApifyErrorCode) (originalMessage : string) : string :=
  match errorCode with
  | Some INVALID_API_KEY => "Service configuration error. Please contact support."
  | None =>
      "Ad search service quota exceeded. Please try again later or contact support."
  | Some RATE_LIMIT => "Too many requests. Please wait a moment and try again."
  | Some ACTOR_NOT_FOUND => "Service temporarily unavailable. Please try again later."
  | Some TIMEOUT =>
      "The request took too long. Please try again with a smaller maxAds value."
  | Some NO_RESULTS => "No ads found for the specified brand."
  | Some RUN_FAILED => "Failed to fetch ads. Please try again later."
  | Some NETWORK_ERROR =>
      "Network error occurred. Please check your connection and try again."
  | Some UNKNOWN =>
      if production then "An unexpected error occurred. Please try again later."
      else originalMessage
  end.

(** The conversion of a stored ad back to [Ad].  [isoTime s] is
    [new Date(s).getTime()] for an ISO timestamp [s]; the stored dates are
    ISO timestamps, [saveSearch] writing them with [toISOString]. *)
Definition cachedToAd (isoTime : string -> Z) (searchedAt : string)
    (cached : CachedAd) : Ad :=
  {| id := c_id cached;
     adLibraryId := Some (c_adArchiveId cached);
     brandName := c_pageName cached;
     pageId := Some (c_pageId cached);
     pageUrl := None;
     headline := c_adCreativeLinkTitle cached;
     primaryText := c_adCreativeBody cached;
     description := c_adCreativeLinkDescription cached;
     caption := c_adCreativeLinkCaption cached;
     callToAction := None;
     imageUrl := head (c_images cached);
     videoUrl := head (c_videos cached);
     media :=
       (map (fun url => {| m_type := image; m_url := url;
                           m_thumbnailUrl := None; m_duration := None |})
          (c_images cached)
        ++ map (fun url => {| m_type := video; m_url := url;
                              m_thumbnailUrl := None; m_duration := None |})
             (c_videos cached))%list;
     platforms := c_platforms cached;
     format := fmt_unknown;
     startDate :=
       if truthy (c_startDate cached) then isoTime <$> c_startDate cached else None;
     endDate :=
       if truthy (c_endDate cached) then isoTime <$> c_endDate cached else None;
     status := if c_isActive cached then active else inactive;
     adLibraryUrl := None;
     snapshotUrl := None;
     fetchedAt := isoTime searchedAt |}.

(** The handler of GET /search that first asks the search history.
    [getCachedSearch] is the answer of [searchHistoryService.getCachedSearch],
    which catches every error of the table scan and then answers [null].
    After a successful fetch with ads the handler starts
    [searchHistoryService.saveSearch] without awaiting it and only logs its
    failure, so the response does not depend on it; the table of stored
    searches is not part of the state. *)
Definition search (production : bool) (apiKey : option string)
    (getCachedSearch : string -> option SearchHistoryItem) (isoTime : string -> Z)
    (q : Query) : Google.M (Z * AdsSearchResponse) :=
  match validate q with
  | Rejected message => mret (400%Z, failureBody message)
  | Accepted brand parsedMaxAds parsedCountryCode =>
      try_catch
        (let trimmedBrand := trim brand in
         match getCachedSearch trimmedBrand with
         | Some cachedSearch =>
             let cachedAds :=
               map (cachedToAd isoTime (h_searchedAt cachedSearch))
                 (h_results cachedSearch) in
             mret (200%Z,
                   {| rs_success := true; rs_ads := slice0 cachedAds parsedMaxAds;
                      rs_total := length cachedAds; rs_error := None;
                      rs_brandSource := None; rs_verifiedBrandName := None;
                      rs_fromCache := Some true |})
         | None =>
             newGoogleAdsService apiKey;;
             result ←
               Google.fetchAdsByBrand Google.DEFAULT_CONFIG trimmedBrand
                 {| maxAds := Some parsedMaxAds; countryCode := parsedCountryCode;
                    activeOnly := None; timeoutMs := None |};
             if negb (success result) then
               let statusCode := getStatusCodeForApifyError (errorCode result) in
               mret (statusCode,
                     failureBody
                       (or_str (error result)
                          "Failed to fetch ads. Please try again later."))
             else
               mret (200%Z,
                     {| rs_success := true; rs_ads := ads result;
                        rs_total := length (ads result); rs_error := None;
                        rs_brandSource := brandSource result;
                        rs_verifiedBrandName := verifiedBrandName result;
                        rs_fromCache := Some false |})
         end)
        (fun error =>
           match error with
           | ApifyError message code =>
               mret (getStatusCodeForApifyError (Some code),
                     failureBody
                       (getUserFriendlyErrorMessage production (Some code) message))
           | Error message =>
               mret (500%Z,
                     failureBody
                       (if production
                        then "An unexpected error occurred while fetching ads. Please try again later."
                        else message))
           | NonError =>
               mret (500%Z,
                     failureBody
                       (if production
                        then "An unexpected error occurred while fetching ads. Please try again later."
                        else "An unexpected error occurred"))
           end)
  end.

End RoutesWithHistory.

(* ===================================================================== *)
(** ** Vocabulary of the properties *)
(* ===================================================================== *)

Module Props.
Import Js.

Definition IsPrefix (p s : string) : Prop := exists t, s = p ++ t.

Definition IsSubstring (sub s : string) : Prop := exists u v, s = u ++ sub ++ v.

(** The textual relations between a name and a search term: equality, one
    being a prefix of the other, one containing the other. *)
Definition TextualRelation (a b : string) : Prop :=
  a = b \/ IsPrefix b a \/ IsPrefix a b \/ IsSubstring b a \/ IsSubstring a b.

(** Every entry of the page map has a non-empty id, and the id and the
    display name of an ad of the input. *)
Definition FromAds (ads : list Ad) (pageMap : Meta.PageMap) : Prop :=
  forall pid info, In (pid, info) pageMap ->
    pid <> ""
    /\ exists ad, In ad ads /\ pageId ad = Some pid
                  /\ brandName ad = Meta.pi_pageName info.

(** What the scoring loop maintains: the best match so far is an entry of the
    page map whose name scores above zero against the search term. *)
Definition Relevant (searchLower : string) (pageMap : Meta.PageMap)
    (best : option Meta.BestMatch) : Prop :=
  forall b, best = Some b ->
    Meta.nameScore (toLowerCase (Meta.bm_pageName b)) searchLower <> 0%nat /\
    exists info, In (Meta.bm_pageId b, info) pageMap /\ Meta.pi_pageName info = Meta.bm_pageName b.

(** The URLs of a media list, in order. *)
Definition urls (media : list AdMedia) : list string := map m_url media.

Definition videoCount (media : list AdMedia) : nat :=
  length (List.filter Meta.isVideo media).

Definition imageCount (media : list AdMedia) : nat :=
  length (List.filter Meta.isImage media).

(** An ad with another fetch timestamp. *)
Definition withFetchedAt (t : Z) (ad : Ad) : Ad :=
  {| id := id ad; adLibraryId := adLibraryId ad; brandName := brandName ad;
     pageId := pageId ad; pageUrl := pageUrl ad; headline := headline ad;
     primaryText := primaryText ad; description := description ad;
     caption := caption ad; callToAction := callToAction ad;
     imageUrl := imageUrl ad; videoUrl := videoUrl ad; media := media ad;
     platforms := platforms ad; format := format ad; startDate := startDate ad;
     endDate := endDate ad; status := status ad;
     adLibraryUrl := adLibraryUrl ad; snapshotUrl := snapshotUrl ad;
     fetchedAt := t |}.

(** [m], run in [e] from [s], ends normally with a value and a state that
    satisfy [Q], or throws with an error and a state that satisfy [X]. *)
Definition outcome {Raw Cache A} (m : M Raw Cache A) (e : Env Raw)
    (s : State Cache)
    (Q : A -> State Cache -> Prop)
    (X : JsError -> State Cache -> Prop) : Prop :=
  match m e s with
  | (Normal a, s') => Q a s'
  | (Thrown x, s') => X x s'
  end.

(** [m] leaves the observation [f] of the state as it found it, whether it
    returns or throws. *)
Definition Preserves {Raw Cache A T} (f : State Cache -> T)
    (m : M Raw Cache A) : Prop :=
  forall e s, outcome m e s (fun _ s' => f s' = f s) (fun _ s' => f s' = f s).

Definition isWriteEvent (ev : Event) : bool :=
  match ev with
  | EvCacheSave _ _ | EvWriteFile => true
  | _ => false
  end.

(** The cache writes of a trace: assignments of entries and writes of the
    cache file. *)
Definition cacheWrites {Cache} (s : State Cache) : list Event :=
  List.filter isWriteEvent (s_trace s).

Definition isClientEvent (ev : Event) : bool :=
  match ev with
  | EvActorCall _ | EvListItems _ => true
  | _ => false
  end.

(** The calls of the actor client in a trace. *)
Definition clientCalls {Cache} (s : State Cache) : list Event :=
  List.filter isClientEvent (s_trace s).

(** The cache that [loadBrandsCache] returns in state [s]. *)
Definition metaLoaded (s : Meta.State) : Meta.BrandsCache :=
  match s_cache s with
  | Some c => c
  | None =>
      match s_file s with
      | Some c => c
      | None => {| Meta.brands := ∅; Meta.cache_metadata := None |}
      end
  end.

(** The state that [loadBrandsCache] leaves. *)
Definition metaHydrated (s : Meta.State) : Meta.State :=
  match s_cache s with
  | Some _ => s
  | None =>
      {| s_cache := Some (metaLoaded s); s_file := s_file s;
         s_calls := s_calls s; s_ticks := s_ticks s; s_draws := s_draws s;
         s_trace := EvReadFile :: s_trace s |}
  end.

(** The entry of the in-memory advertiser cache under a key. *)
Definition googleEntry (s : Google.State) (key : string)
    : option Google.AdvertiserCacheEntry :=
  s_cache s ?> (fun c => Google.advertisers c !! key).

(** The error that the [catch] clause of [runActorWithRetry] receives after
    one call of the actor, if any: the error the call throws, or the error
    raised for the status of the run it returns. *)
Definition attemptError (o : CallOutcome) : option JsError :=
  match o with
  | CallThrows x => Some x
  | CallReturns run =>
      match run_status run with
      | FAILED => Some (ApifyError "Actor run failed with status: FAILED" RUN_FAILED)
      | TIMED_OUT => Some (ApifyError "Actor run timed out" TIMEOUT)
      | _ => None
      end
  end.

(** The errors after which [runActorWithRetry] tries again. *)
Definition retried (x : JsError) : bool :=
  Meta.isRetryableError x || Meta.isRateLimitError x.

(** The state after one reading of the clock. *)
Definition ticked {Cache} (s : State Cache) : State Cache :=
  {| s_cache := s_cache s; s_file := s_file s; s_calls := s_calls s;
     s_ticks := S (s_ticks s); s_draws := s_draws s; s_trace := s_trace s |}.

(** The state after one call of the actor. *)
Definition afterCall {Cache} (attempt : nat) (s : State Cache) : State Cache :=
  {| s_cache := s_cache s; s_file := s_file s; s_calls := S (s_calls s);
     s_ticks := s_ticks s; s_draws := s_draws s;
     s_trace := EvActorCall attempt :: s_trace s |}.

(** What a run of the retry controller from attempt number [attempt] does:
    it makes [k >= 1] calls; every call but the last ended in a retryable or
    rate-limit error while attempts remained; the last call either returned
    a run whose status raises no error, which is the result, or ended in an
    error that is thrown unchanged, the attempts being used up or the error
    being neither retryable nor a rate limit. *)
Definition RetrySpec (cfg : Meta.Config) (attempt : nat) (e : Meta.Env)
    (s : Meta.State) (res : Completion ActorRun * Meta.State) : Prop :=
  let n0 := s_calls s in
  let limit := Meta.maxRetries (Meta.retryConfig cfg) in
  exists k : nat,
    (1 <= k)%nat
    /\ s_calls res.2 = (n0 + k)%nat
    /\ (forall i : nat, (i + 1 < k)%nat ->
          exists x, attemptError (e_script e (n0 + i)%nat) = Some x
                    /\ retried x = true /\ (attempt + i < limit)%nat)
    /\ match res.1 with
       | Normal run =>
           e_script e (n0 + k - 1)%nat = CallReturns run
           /\ attemptError (CallReturns run) = None
       | Thrown x =>
           attemptError (e_script e (n0 + k - 1)%nat) = Some x
           /\ ((limit <= attempt + k - 1)%nat \/ retried x = false)
       end.

(** [m] returns only values that satisfy [Q], and throws only if [X]. *)
Definition Ensures {Raw Cache A} (Q : A -> Prop) (X : Prop)
    (m : M Raw Cache A) : Prop :=
  forall e s, outcome m e s (fun a _ => Q a) (fun _ _ => X).

(** The cache writes of one save: none, the assignment of the entry, or the
    assignment followed by the write of the file. *)
Definition SaveWrites (key pid : string) (before after : list Event) : Prop :=
  after = before
  \/ after = EvCacheSave key pid :: before
  \/ after = EvWriteFile :: EvCacheSave key pid :: before.

(** [ads] are the records [items] normalised in order, each at some reading
    of the clock. *)
Definition MetaNormalized (jsDate : string -> option Z) (brand : string)
    (items : list Meta.ApifyRawAdItem) (ads : list Ad) : Prop :=
  Forall2 (fun raw ad => exists t, ad = Meta.normalizeAd jsDate raw brand t) items ads.

Definition GoogleNormalized (term : string)
    (items : list Google.GoogleAdRawItem) (ads : list Ad) : Prop :=
  Forall2 (fun raw ad => exists adId t, ad = Google.buildAd raw term adId t) items ads.

(** What a Meta fetch that ends as discovered has done: the records of the
    dataset were normalised, a page with a non-empty id was selected among
    them, the ads of that page were kept and then cut to [maxAds], and the
    cache was written at most for that page. *)
Definition MetaDiscovered (jsDate : string -> option Z) (cfg : Meta.Config)
    (brand : string) (options : FetchAdsOptions) (e : Meta.Env)
    (s s' : Meta.State) (r : FetchAdsResult) : Prop :=
  exists run items normalized pid name,
    e_items e (defaultDatasetId run) = ItemsReturn items
    /\ MetaNormalized jsDate (trim brand) items normalized
    /\ Meta.findBestMatchingPage normalized (trim brand)
       = Some {| Meta.pm_pageId := pid; Meta.pm_pageName := name |}
    /\ pid <> ""
    /\ ads r = slice0 (List.filter (Meta.fromPage pid) normalized)
                 (num_or (maxAds options) (Meta.defaultMaxAds cfg))
    /\ totalFound r = Some (length (List.filter (Meta.fromPage pid) normalized))
    /\ verifiedBrandName r = Some name
    /\ Forall (fun ad => pageId ad = Some pid) (ads r)
    /\ SaveWrites (Meta.normalizeKey (trim brand)) pid
         (cacheWrites s) (cacheWrites s').

(** What a Google fetch that ends as discovered has done: the records of the
    dataset were normalised, the advertiser of the first record, whose id is
    not empty, was saved to the cache, and the ads, of whatever advertiser,
    were cut to [maxAds]. *)
Definition GoogleDiscovered (cfg : Google.Config) (brand : string)
    (options : FetchAdsOptions) (e : Google.Env) (s s' : Google.State)
    (r : FetchAdsResult) : Prop :=
  exists run first rest normalized aid,
    e_items e (defaultDatasetId run) = ItemsReturn (first :: rest)
    /\ GoogleNormalized (trim brand) (first :: rest) normalized
    /\ Google.g_advertiserId first = Some aid
    /\ aid <> ""
    /\ ads r = slice0 normalized (num_or (maxAds options) (Google.defaultMaxAds cfg))
    /\ totalFound r = Some (length normalized)
    /\ (cacheWrites s'
          = EvCacheSave (Google.normalizeKey (trim brand)) aid :: cacheWrites s
        \/ cacheWrites s'
           = EvWriteFile :: EvCacheSave (Google.normalizeKey (trim brand)) aid
               :: cacheWrites s).

(** Every character of [s] is white space. *)
Definition OnlyWhiteSpace (s : string) : Prop :=
  forall c, In c (list_ascii_of_string s) -> isWhiteSpace c = true.

(** A failed fetch is reported with an empty list of ads, a message and an
    error code. *)
Definition TypedFailure (r : FetchAdsResult) : Prop :=
  success r = false ->
  ads r = [] /\ is_Some (error r) /\ is_Some (errorCode r).

End Props.

(* ===================================================================== *)
(** ** Reference descriptions *)
(* ===================================================================== *)

Module Spec.
Import Js.

(** *** Identity resolver *)

(** The first ad of a page in a list of ads, and the number of its ads. *)
Definition firstOfPage (pid : string) (ads : list Ad) : option Ad :=
  List.find (Meta.fromPage pid) ads.

Definition countOfPage (pid : string) (ads : list Ad) : nat :=
  length (List.filter (Meta.fromPage pid) ads).

(** The entry that the grouping loop holds for a page: the display name of
    the first ad of the page, and the number of ads of the page. *)
Definition pageEntry (pid : string) (ads : list Ad) : option Meta.PageInfo :=
  if isEmpty pid then None
  else
    match firstOfPage pid ads with
    | Some ad =>
        Some {| Meta.pi_pageName := brandName ad;
                Meta.pi_count := countOfPage pid ads |}
    | None => None
    end.

(** [existing.count++] *)
Definition bump (v : Meta.PageInfo) : Meta.PageInfo :=
  {| Meta.pi_pageName := Meta.pi_pageName v; Meta.pi_count := S (Meta.pi_count v) |}.

(** The score of the name of a page against the lower-cased search term,
    and the score with the volume bonus. *)
Definition pageScore (searchLower : string) (info : Meta.PageInfo) : nat :=
  Meta.nameScore (toLowerCase (Meta.pi_pageName info)) searchLower.

Definition totalScore (searchLower : string) (info : Meta.PageInfo) : nat :=
  (pageScore searchLower info + Nat.min (Meta.pi_count info) 50)%nat.

(** What the scoring loop has found after the entries [pageMap]: nothing
    when no name scores above zero; otherwise an entry whose name scores
    above zero, whose total is above that of every such entry before it and
    not below that of any such entry after it. *)
Definition FirstBest (searchLower : string) (pageMap : Meta.PageMap)
    (best : option Meta.BestMatch) : Prop :=
  match best with
  | None => forall pid info, In (pid, info) pageMap -> pageScore searchLower info = 0%nat
  | Some b =>
      exists before info after,
        pageMap = (before ++ (Meta.bm_pageId b, info) :: after)%list
        /\ Meta.pi_pageName info = Meta.bm_pageName b
        /\ Meta.bm_score b = totalScore searchLower info
        /\ pageScore searchLower info <> 0%nat
        /\ (forall pid i, In (pid, i) before -> pageScore searchLower i <> 0%nat ->
              (totalScore searchLower i < totalScore searchLower info)%nat)
        /\ (forall pid i, In (pid, i) after -> pageScore searchLower i <> 0%nat ->
              (totalScore searchLower i <= totalScore searchLower info)%nat)
  end.

(** *** Retry controller *)




(** *** Media *)

(** The media list of [parseMedia] when it reaches the direct [videoUrl]:
    the direct images, the images of the snapshot and the carousel cards
    have been collected. *)
Definition mediaBeforeVideo (rawAd : Meta.ApifyRawAdItem) : list AdMedia :=
  let media := [] in
  let media := Meta.pushAlways media (Meta.r_imageUrl rawAd) Meta.imageOf in
  let media :=
    Meta.forEachOpt (Meta.r_images rawAd)
      (fun media url => Meta.pushUnique media (Some url) Meta.imageOf) media in
  let media :=
    Meta.forEachOpt (Meta.r_snapshot rawAd ?> Meta.snap_images)
      (fun media img =>
         Meta.pushUnique media
           (or_else (Meta.img_resized_image_url img) (Meta.img_original_image_url img))
           Meta.imageOf) media in
  Meta.forEachOpt (Meta.r_snapshot rawAd ?> Meta.snap_cards) Meta.cardStep media.

(** The steps of [parseMedia] after the direct [videoUrl]. *)
Definition afterVideo (rawAd : Meta.ApifyRawAdItem) (media : list AdMedia) : list AdMedia :=
  let media :=
    Meta.forEachOpt (Meta.r_videos rawAd)
      (fun media v =>
         Meta.pushUnique media (Meta.v_url v) (Meta.videoOf (Meta.v_thumbnailUrl v) (Meta.v_duration v)))
      media in
  let media :=
    Meta.forEachOpt (Meta.r_snapshot rawAd ?> Meta.snap_videos)
      (fun media v =>
         Meta.pushUnique media
           (or_else (Meta.sv_video_hd_url v) (Meta.sv_video_sd_url v))
           (Meta.videoOf (Meta.sv_video_preview_image_url v) None)) media in
  Meta.forEachOpt (Meta.r_media rawAd) Meta.mediaItemStep media.

(** No entry has an empty URL. *)
Definition Filled (media : list AdMedia) : Prop :=
  List.Forall (fun m => m_url m <> "") media.

(** No character of [s] is a quote. *)
Definition QuoteFree (s : string) : Prop :=
  forall c, In c (list_ascii_of_string s) -> Google.isQuote c = false.

(** [html] holds an image source: the letters src=, a quote, the non-empty
    quote-free text [u], and a quote. *)
Definition HasSrc (html u : string) : Prop :=
  exists pre q1 q2 post,
    html = pre ++ "src=" ++ String q1 (u ++ String q2 post)
    /\ Google.isQuote q1 = true /\ Google.isQuote q2 = true
    /\ u <> "" /\ QuoteFree u.

(** The URLs of an optional field, as a list. *)
Definition listOf (o : option string) : list string :=
  match o with Some u => [u] | None => [] end.

(** The image and video fields of the accumulator of the Google normaliser
    agree with its media list: the URLs of the images of the list are the
    image field, those of its videos the video field, and no URL is
    empty. *)
Definition MediaAgree (acc : Google.MediaAcc) : Prop :=
  map m_url (List.filter Meta.isImage (Google.acc_media acc))
    = listOf (Google.acc_imageUrl acc)
  /\ map m_url (List.filter Meta.isVideo (Google.acc_media acc))
     = listOf (Google.acc_videoUrl acc)
  /\ Google.acc_imageUrl acc <> Some ""
  /\ Google.acc_videoUrl acc <> Some ""
  /\ Filled (Google.acc_media acc).

(** *** Results *)

(** What a fetch of the Google service returns, by what its one call of the
    actor, the call number [n] of the environment, and the reading of the
    dataset do. *)
Definition GoogleOutcome (e : Google.Env) (n : nat) (r : FetchAdsResult) : Prop :=
  match e_script e n with
  | CallThrows x =>
      success r = false /\ errorCode r = Some UNKNOWN
      /\ error r = Some (Google.messageOf x)
  | CallReturns run =>
      if RunStatus_eqb (run_status run) SUCCEEDED then
        match e_items e (defaultDatasetId run) with
        | ItemsReturn items =>
            success r = true /\ totalFound r = Some (length items)
        | ItemsThrow x =>
            success r = false /\ errorCode r = Some UNKNOWN
            /\ error r = Some (Google.messageOf x)
        end
      else
        success r = false /\ errorCode r = Some RUN_FAILED
        /\ error r = Some "Failed to fetch ads"
  end.

(** The characters of a string. *)
Definition chars (s : string) : list ascii := list_ascii_of_string s.

(** The characters of a host name: lower-case letters, digits, the dot and
    the hyphen. *)
Definition isHostChar (c : ascii) : bool :=
  Google.isLowerAlnum c || Ascii.eqb c "." || Ascii.eqb c "-".

(** The characters that the serialiser of the search parameters writes for
    a name or a value: the ones it leaves as they are, the plus sign and the
    percent sign. *)
Definition isEncodedChar (c : ascii) : bool :=
  ActorInput.isUrlencodedSafe c || Ascii.eqb c "+" || Ascii.eqb c "%".

(** The messages that [handleError] takes for a usage-quota error: they
    speak of a quota, a credit or a usage limit, of being out of tokens or of
    insufficient tokens, or of an exceeded limit. *)
Definition QuotaMessage (lowerMessage : string) : Prop :=
  let has sub := Props.IsSubstring sub lowerMessage in
  (has "out of" /\ has "token")
  \/ has "credit"
  \/ has "usage limit"
  \/ has "quota"
  \/ (has "insufficient" /\ (has "credit" \/ has "token"))
  \/ (has "exceeded" /\ (has "limit" \/ has "quota")).

(** The integers that a double represents exactly, from 0 to
    [Number.MAX_SAFE_INTEGER]. *)
Definition safeInteger (n : Z) : Prop := (0 <= n <= 9007199254740991)%Z.

(** A failed fetch is reported with an empty list of ads and a message. *)
Definition ReportedFailure (r : FetchAdsResult) : Prop :=
  success r = false -> ads r = [] /\ is_Some (error r).

(** A result holds no more ads than [limit], and no more than the total it
    reports. *)
Definition AdsWithin (limit : Z) (r : FetchAdsResult) : Prop :=
  (length (ads r) <= Z.to_nat limit)%nat
  /\ forall n, totalFound r = Some n -> (length (ads r) <= n)%nat.

(** [m] makes at most [N] calls of the actor, whether it returns or
    throws. *)
Definition CallsWithin {Raw Cache A} (N : nat) (m : M Raw Cache A) : Prop :=
  forall e s,
    Props.outcome m e s
      (fun _ s' => (s_calls s <= s_calls s' <= s_calls s + N)%nat)
      (fun _ s' => (s_calls s <= s_calls s' <= s_calls s + N)%nat).

End Spec.

(* ===================================================================== *)
(** ** Example data *)
(* ===================================================================== *)

Module Fixtures.

(** An ad with the given page id and display name. *)
Definition adOf (pid name : string) : Ad :=
  {| id := "ad"; adLibraryId := None; brandName := name; pageId := Some pid;
     pageUrl := None; headline := None; primaryText := None;
     description := None; caption := None; callToAction := None;
     imageUrl := None; videoUrl := None; media := []; platforms := [];
     format := fmt_unknown; startDate := None; endDate := None;
     status := status_unknown; adLibraryUrl := None; snapshotUrl := None;
     fetchedAt := 0 |}.

(** Nine ads of page 1 (Acme Corp) after three ads of page 2 (Widgets Inc). *)
Definition acmeAds : list Ad :=
  (repeat (adOf "2" "Widgets Inc") 3 ++ repeat (adOf "1" "Acme Corp") 9)%list.

(** A raw Meta record with the given direct fields and snapshot. *)
Definition rawAd (pageID pageName adText imageUrl videoUrl startDate : option string)
    (snapshot : option Meta.Snapshot) : Meta.ApifyRawAdItem :=
  {| Meta.r_id := None; Meta.r_adArchiveID := None; Meta.r_ad_archive_id := None;
     Meta.r_adid := None; Meta.r_pageID := pageID; Meta.r_page_id := None;
     Meta.r_pageName := pageName; Meta.r_page_name := None;
     Meta.r_pageUrl := None; Meta.r_adText := adText; Meta.r_bodyText := None;
     Meta.r_primaryText := None; Meta.r_headline := None;
     Meta.r_linkTitle := None; Meta.r_linkDescription := None;
     Meta.r_linkCaption := None; Meta.r_linkUrl := None; Meta.r_ctaText := None;
     Meta.r_ctaType := None; Meta.r_imageUrl := imageUrl; Meta.r_images := None;
     Meta.r_videoUrl := videoUrl; Meta.r_videos := None; Meta.r_media := None;
     Meta.r_platforms := None; Meta.r_publisherPlatform := None;
     Meta.r_publisher_platform := None; Meta.r_adCreationTime := None;
     Meta.r_startDate := startDate; Meta.r_endDate := None;
     Meta.r_start_date := None; Meta.r_end_date := None;
     Meta.r_start_date_formatted := None; Meta.r_end_date_formatted := None;
     Meta.r_adDeliveryStartTime := None; Meta.r_adDeliveryStopTime := None;
     Meta.r_isActive := None; Meta.r_isRunning := None; Meta.r_is_active := None;
     Meta.r_status := None; Meta.r_adSnapshotUrl := None;
     Meta.r_adLibraryUrl := None; Meta.r_ad_library_url := None;
     Meta.r_snapshot := snapshot |}.

(** A snapshot that holds only carousel cards. *)
Definition cardsOnly (cards : list Meta.SnapshotCard) : Meta.Snapshot :=
  {| Meta.page_profile_picture_url := None; Meta.snap_page_name := None;
     Meta.snap_body_text := None; Meta.snap_cta_text := None;
     Meta.snap_cta_type := None; Meta.snap_caption := None;
     Meta.snap_cards := Some cards; Meta.snap_images := None;
     Meta.snap_videos := None |}.

(** A record whose video is listed both as the video of a carousel card and
    in the direct [videoUrl] field. *)
Definition videoTwice : Meta.ApifyRawAdItem :=
  rawAd (Some "100") (Some "Acme Corp") None None (Some "https://cdn/v.mp4") None
    (Some (cardsOnly
       [ {| Meta.card_resized_image_url := None;
            Meta.card_video_preview_image_url := Some "https://cdn/p.jpg";
            Meta.card_video_hd_url := Some "https://cdn/v.mp4" |} ])).

(** A record that gives the same URL as [imageUrl] and as [videoUrl]. *)
Definition sameUrlTwice : Meta.ApifyRawAdItem :=
  rawAd (Some "100") (Some "Acme Corp") None (Some "https://cdn/a") (Some "https://cdn/a")
    None None.

(** Two records without a natural id that differ only in fields outside the
    components of the generated id. *)
Definition acmeRaw1 : Meta.ApifyRawAdItem :=
  rawAd (Some "100") (Some "Acme Corp") (Some "Buy now") (Some "https://cdn/a")
    None (Some "2024-01-01") None.

Definition acmeRaw2 : Meta.ApifyRawAdItem :=
  rawAd (Some "100") (Some "ACME") (Some "Buy now") (Some "https://cdn/a")
    None (Some "2024-01-01") (Some (cardsOnly [])).

(** A Google record of type Text whose only variation carries an image. *)
Definition textAdWithImage : Google.GoogleAdRawItem :=
  {| Google.g_advertiserId := Some "AR1"; Google.g_advertiserName := Some "Nike";
     Google.g_creativeId := Some "CR1"; Google.g_adType := Some "Text";
     Google.g_variations :=
       Some [ {| Google.text_iframeUrl := None;
                 Google.image_imageUrl := Some "https://g/i.png";
                 Google.video_videoUrl := None;
                 Google.video_thumbnailUrl := None |} ] |}.

(** A Google record without a creative id. *)
Definition noCreativeId : Google.GoogleAdRawItem :=
  {| Google.g_advertiserId := Some "AR1"; Google.g_advertiserName := Some "Nike";
     Google.g_creativeId := None; Google.g_adType := Some "Image";
     Google.g_variations := None |}.

(** An environment whose clock advances by one second per reading and whose
    random draws are all rendered as 0.5. *)
Definition steadyEnv {Raw} (script : nat -> CallOutcome)
    (items : string -> ItemsOutcome Raw) : Env Raw :=
  {| e_script := script; e_items := items;
     e_clock := fun n => (Z.of_nat n * 1000)%Z;
     e_random := fun _ => "0.5";
     e_writable := true |}.

Definition noRun : CallOutcome := CallThrows (Error "network unreachable").

Definition noItems {Raw} (_ : string) : ItemsOutcome Raw := ItemsReturn [].

(** A state with the given in-memory cache and cache file, before any call. *)
Definition stateOf {Cache} (mem file : option Cache) : State Cache :=
  {| s_cache := mem; s_file := file; s_calls := 0; s_ticks := 0; s_draws := 0;
     s_trace := [] |}.

Definition runWith (st : RunStatus) : ActorRun :=
  {| run_id := "run1"; run_status := st; defaultDatasetId := "ds1" |}.

(** The first run is reported as timed out, the next ones succeed. *)
Definition timedOutThenOk (n : nat) : CallOutcome :=
  match n with
  | O => CallReturns (runWith TIMED_OUT)
  | _ => CallReturns (runWith SUCCEEDED)
  end.

(** The first run is reported as failed, the next ones succeed. *)
Definition failedThenOk (n : nat) : CallOutcome :=
  match n with
  | O => CallReturns (runWith FAILED)
  | _ => CallReturns (runWith SUCCEEDED)
  end.

(** Three network errors, then success. *)
Definition threeNetworkErrors (n : nat) : CallOutcome :=
  if (n <? 3)%nat then CallThrows (Error "Network error: ECONNRESET")
  else CallReturns (runWith SUCCEEDED).

Definition fourRetries : Meta.Config :=
  {| Meta.defaultTimeoutMs := 300000; Meta.defaultMaxAds := 50;
     Meta.retryConfig :=
       {| Meta.maxRetries := 4; Meta.baseDelayMs := 1000;
          Meta.maxDelayMs := 30000 |} |}.

(** An environment in which no actor run and no dataset is available. *)
Definition offline {Raw} : Env Raw :=
  steadyEnv (fun _ => noRun) noItems.

(** The states after save(Nike, A, Nike) and then after
    save(Nike, B, Nike Inc.), from an empty cache. *)
Definition metaNikeA : Meta.State :=
  (Meta.saveBrandToCache "Nike" "A" "Nike" offline (stateOf None None)).2.

Definition metaNikeAB : Meta.State :=
  (Meta.saveBrandToCache "Nike" "B" "Nike Inc." offline metaNikeA).2.

Definition googleNikeA : Google.State :=
  (Google.saveToCache "Nike" "A" "Nike" "nike.com" offline (stateOf None None)).2.

Definition googleNikeAB : Google.State :=
  (Google.saveToCache "Nike" "B" "Nike Inc." "nike.com" offline googleNikeA).2.

Definition fiveAds : FetchAdsOptions :=
  {| maxAds := Some 5%Z; countryCode := None; activeOnly := None;
     timeoutMs := None |}.

(** The dataset of the Acme scenario: three records of page 2
    (Widgets Inc), then nine of page 1 (Acme Corp). *)
Definition acmeItems : list Meta.ApifyRawAdItem :=
  (repeat (rawAd (Some "2") (Some "Widgets Inc") (Some "Widgets for all")
             (Some "https://cdn/w") None None None) 3
   ++ repeat (rawAd (Some "1") (Some "Acme Corp") (Some "Buy now")
                (Some "https://cdn/a") None None None) 9)%list.

Definition acmeEnv : Meta.Env :=
  steadyEnv (fun _ => CallReturns (runWith SUCCEEDED))
            (fun _ => ItemsReturn acmeItems).

(** A Google dataset with ads of two advertisers. *)
Definition twoAdvertisers : list Google.GoogleAdRawItem :=
  [ {| Google.g_advertiserId := Some "AR1"; Google.g_advertiserName := Some "Nike";
       Google.g_creativeId := Some "CR1"; Google.g_adType := Some "Image";
       Google.g_variations := None |};
    {| Google.g_advertiserId := Some "AR2";
       Google.g_advertiserName := Some "Shoe Outlet";
       Google.g_creativeId := Some "CR2"; Google.g_adType := Some "Image";
       Google.g_variations := None |} ].

Definition twoAdvertisersEnv : Google.Env :=
  steadyEnv (fun _ => CallReturns (runWith SUCCEEDED))
            (fun _ => ItemsReturn twoAdvertisers).

(** A date parser for the examples: no string parses. *)
Definition noDate (s : string) : option Z := None.

End Fixtures.

(** More example data. *)

Module Samples.

(** A dataset that cannot be read. *)
Definition brokenDataset {Raw} (_ : string) : ItemsOutcome Raw :=
  ItemsThrow (Error "socket hang up").

(** An environment in which the actor succeeds and its dataset cannot be
    read. *)
Definition unreadableEnv {Raw} : Env Raw :=
  Fixtures.steadyEnv (fun _ => CallReturns (Fixtures.runWith SUCCEEDED)) brokenDataset.

(** A stored search of three ads, found whatever the brand. *)
Definition storedAd (n : string) : SearchHistory.CachedAd :=
  {| SearchHistory.c_id := n; SearchHistory.c_pageId := "1";
     SearchHistory.c_pageName := "Acme Corp"; SearchHistory.c_adArchiveId := n;
     SearchHistory.c_startDate := None; SearchHistory.c_endDate := None;
     SearchHistory.c_isActive := true; SearchHistory.c_platforms := [facebook];
     SearchHistory.c_adCreativeBody := Some "Anvils";
     SearchHistory.c_adCreativeLinkTitle := None;
     SearchHistory.c_adCreativeLinkDescription := None;
     SearchHistory.c_adCreativeLinkCaption := None;
     SearchHistory.c_images := ["https://cdn/a"]; SearchHistory.c_videos := [] |}.

Definition storedSearch (_ : string) : option SearchHistory.SearchHistoryItem :=
  Some {| SearchHistory.h_searchId := "s1"; SearchHistory.h_brand := "Acme";
          SearchHistory.h_normalizedBrand := "acme";
          SearchHistory.h_searchedAt := "2025-01-01T00:00:00.000Z";
          SearchHistory.h_resultCount := 3;
          SearchHistory.h_results := [storedAd "a"; storedAd "b"; storedAd "c"] |}.

(** An environment in which the actor client refuses every call for the
    usage limit of the account. *)
Definition overLimit {Raw} : Env Raw :=
  Fixtures.steadyEnv (fun _ => CallThrows (Error "Monthly usage hard limit exceeded"))
    Fixtures.noItems.

(** An environment in which the run of the actor is reported as failed. *)
Definition failingEnv {Raw} : Env Raw :=
  Fixtures.steadyEnv (fun _ => CallReturns (Fixtures.runWith FAILED)) Fixtures.noItems.

(** An environment in which the actor succeeds and its dataset is empty. *)
Definition emptyEnv {Raw} : Env Raw :=
  Fixtures.steadyEnv (fun _ => CallReturns (Fixtures.runWith SUCCEEDED)) Fixtures.noItems.

End Samples.

(* ===================================================================== *)
(** * Properties *)
(* ===================================================================== *)

(** ** Strings *)

Module JsFacts.
Import Js Props.








Lemma trimEnd_idem s : trimEnd (trimEnd s) = trimEnd s.
Proof.
  induction s as [|c r IH]; simpl; [reflexivity|].
  destruct (isWhiteSpace c && isEmpty (trimEnd r)) eqn:E; simpl; [reflexivity|].
  now rewrite IH, E.
Qed.

Lemma trimStart_head s :
  trimStart s = "" \/ exists c r, trimStart s = String c r /\ isWhiteSpace c = false.
Proof.
  induction s as [|c r IH]; simpl; [now left|].
  destruct (isWhiteSpace c) eqn:E; [exact IH|].
  right. now exists c, r.
Qed.

Lemma trim_idem s : trim (trim s) = trim s.
Proof.
  unfold trim.
  destruct (trimStart_head s) as [->|(c & r & -> & Hc)]; [reflexivity|].
  simpl. rewrite Hc. simpl. rewrite Hc. simpl.
  now rewrite trimEnd_idem, Hc.
Qed.


Lemma append_cons c s t : String c s ++ t = String c (s ++ t).
Proof. reflexivity. Qed.

Lemma append_empty t : "" ++ t = t.
Proof. reflexivity. Qed.

Lemma startsWith_spec s p : startsWith s p = true <-> IsPrefix p s.
Proof.
  revert s. induction p as [|a p IH]; intros s; simpl.
  - split; [intros _; now exists s|reflexivity].
  - destruct s as [|b s]; simpl.
    + split; [discriminate|]. intros [t Ht]. discriminate.
    + destruct (Ascii.eqb a b) eqn:E.
      * apply Ascii.eqb_eq in E. subst b. rewrite IH.
        split; intros [t Ht]; exists t; rewrite append_cons in *; congruence.
      * apply Ascii.eqb_neq in E.
        split; [discriminate|]. intros [t Ht]. rewrite append_cons in Ht.
        congruence.
Qed.

Lemma includes_spec s sub : includes s sub = true <-> IsSubstring sub s.
Proof.
  split.
  - induction s as [|c r IH]; simpl; rewrite orb_true_iff.
    + intros [H|H]; [|discriminate].
      apply startsWith_spec in H. destruct H as [t Ht]. now exists "", t.
    + intros [H|H].
      * apply (proj1 (startsWith_spec (String c r) sub)) in H.
        destruct H as [t Ht]. now exists "", t.
      * destruct (IH H) as (u & v & ->). now exists (String c u), v.
  - intros (u & v & ->). induction u as [|c u IH].
    + rewrite append_empty.
      assert (H : startsWith (sub ++ v) sub = true)
        by (apply startsWith_spec; now exists v).
      destruct (sub ++ v); simpl in *; now rewrite H.
    + rewrite append_cons. simpl. rewrite IH. apply orb_true_r.
Qed.

Lemma streq_spec a b : streq a b = true <-> a = b.
Proof. apply String.eqb_eq. Qed.

End JsFacts.

(** ** Identity resolver *)

Module ResolverFacts.
Import Js Props JsFacts Meta.

Lemma nameScore_related a b : nameScore a b <> 0%nat -> TextualRelation a b.
Proof.
  unfold nameScore, TextualRelation.
  destruct (streq a b) eqn:E1.
  { intros _. left. now apply streq_spec. }
  destruct (startsWith a b || startsWith b a) eqn:E2.
  { intros _. apply orb_true_iff in E2 as [H|H]; apply startsWith_spec in H; auto. }
  destruct (includes a b || includes b a) eqn:E3.
  { intros _. apply orb_true_iff in E3 as [H|H]; apply includes_spec in H; auto. }
  congruence.
Qed.

Lemma related_nameScore a b : TextualRelation a b -> nameScore a b <> 0%nat.
Proof.
  unfold nameScore.
  intros H.
  destruct (streq a b) eqn:E1; [discriminate|].
  destruct (startsWith a b || startsWith b a) eqn:E2; [discriminate|].
  apply orb_false_iff in E2 as [E2 E2'].
  assert (Hsub : IsSubstring b a \/ IsSubstring a b).
  { destruct H as [H|[H|[H|H]]]; [| | |exact H].
    - apply streq_spec in H. congruence.
    - apply startsWith_spec in H. congruence.
    - apply startsWith_spec in H. congruence. }
  destruct Hsub as [H'|H']; apply includes_spec in H'; rewrite H';
    rewrite ?orb_true_r; discriminate.
Qed.

Lemma pm_incr_In m key pid info :
  In (pid, info) (pm_incr m key) ->
  exists info', In (pid, info') m /\ pi_pageName info' = pi_pageName info.
Proof.
  induction m as [|[k v] r IH]; simpl; [tauto|].
  destruct (streq k key); simpl.
  - intros [H|H].
    + inversion H; subst. exists v. split; [now left|reflexivity].
    + exists info. split; [now right|reflexivity].
  - intros [H|H].
    + inversion H; subst. exists info. split; [now left|reflexivity].
    + destruct (IH H) as (info' & Hin & Hn). exists info'. split; [now right|exact Hn].
Qed.

Lemma groupStep_FromAds ads seen_ads pageMap ad :
  (forall a, In a seen_ads -> In a ads) -> In ad ads ->
  FromAds ads pageMap -> FromAds ads (groupStep pageMap ad).
Proof.
  intros Hsub Had Hm. unfold groupStep.
  destruct (pageId ad) as [pid|] eqn:Hpid; [|exact Hm].
  destruct (isEmpty pid) eqn:Hne; [exact Hm|].
  destruct (pm_get pageMap pid) as [existing|].
  - intros q info Hin.
    destruct (pm_incr_In _ _ _ _ Hin) as (info' & Hin' & Hn).
    destruct (Hm _ _ Hin') as (Hq & a & Ha & Hp & Hb).
    split; [exact Hq|].
    exists a. repeat split; [exact Ha|exact Hp|congruence].
  - intros q info Hin. apply in_app_or in Hin as [Hin|Hin].
    + now apply Hm.
    + destruct Hin as [Hin|[]]. inversion Hin; subst.
      split; [intros ->; discriminate|]. now exists ad.
Qed.

Lemma fold_groupStep_FromAds ads l pageMap :
  (forall a, In a l -> In a ads) ->
  FromAds ads pageMap -> FromAds ads (fold_left groupStep l pageMap).
Proof.
  revert pageMap. induction l as [|ad l IH]; intros pageMap Hsub Hm; simpl.
  - exact Hm.
  - apply IH; [intros a Ha; apply Hsub; now right|].
    apply (groupStep_FromAds ads []); [intros a []|apply Hsub; now left|exact Hm].
Qed.

Lemma groupByPage_FromAds ads : FromAds ads (groupByPage ads).
Proof.
  apply fold_groupStep_FromAds; [auto|]. intros pid info [].
Qed.

Lemma scoreStep_Relevant searchLower pageMap best entry :
  In entry pageMap ->
  Relevant searchLower pageMap best ->
  Relevant searchLower pageMap (scoreStep searchLower best entry).
Proof.
  intros Hin Hbest. destruct entry as [pid info]. unfold scoreStep.
  destruct (nameScore (toLowerCase (pi_pageName info)) searchLower =? 0)%nat eqn:E;
    [exact Hbest|].
  apply Nat.eqb_neq in E.
  assert (Hcand : Relevant searchLower pageMap
            (Some {| bm_pageId := pid; bm_pageName := pi_pageName info;
                     bm_score := (nameScore (toLowerCase (pi_pageName info)) searchLower
                                  + Nat.min (pi_count info) 50)%nat;
                     bm_count := pi_count info |})).
  { intros b Hb. inversion Hb; subst; simpl. split; [exact E|]. now exists info. }
  destruct best as [b0|]; [|exact Hcand].
  destruct (bm_score b0 <? _)%nat; [exact Hcand|exact Hbest].
Qed.

Lemma fold_scoreStep_Relevant searchLower pageMap l best :
  (forall x, In x l -> In x pageMap) ->
  Relevant searchLower pageMap best ->
  Relevant searchLower pageMap (fold_left (scoreStep searchLower) l best).
Proof.
  revert best. induction l as [|x l IH]; intros best Hsub Hbest; simpl.
  - exact Hbest.
  - apply IH; [intros y Hy; apply Hsub; now right|].
    apply scoreStep_Relevant; [apply Hsub; now left|exact Hbest].
Qed.

(** A selected page is a candidate of the input whose name scores above
    zero. *)
Lemma findBestMatchingPage_sound ads searchTerm r :
  findBestMatchingPage ads searchTerm = Some r ->
  nameScore (toLowerCase (pm_pageName r)) (toLowerCase searchTerm) <> 0%nat /\
  pm_pageId r <> "" /\
  exists ad, In ad ads /\ pageId ad = Some (pm_pageId r) /\
             brandName ad = pm_pageName r.
Proof.
  unfold findBestMatchingPage. intros H.
  destruct (length (groupByPage ads) =? 0)%nat; [discriminate|].
  destruct (fold_left _ _ _) as [b|] eqn:Hfold; [|discriminate].
  inversion H; subst; simpl. clear H.
  assert (Hrel : Relevant (toLowerCase searchTerm) (groupByPage ads) (Some b)).
  { rewrite <- Hfold. apply fold_scoreStep_Relevant; [auto|]. intros ? [=]. }
  destruct (Hrel b eq_refl) as (Hscore & info & Hin & Hname).
  split; [exact Hscore|].
  destruct (groupByPage_FromAds ads _ _ Hin) as (Hne & ad & Had & Hp & Hb).
  split; [exact Hne|].
  exists ad. repeat split; [exact Had|exact Hp|congruence].
Qed.

End ResolverFacts.

(** C1.  Whatever the ads and the search term, a page selected by
    [findBestMatchingPage] has a display name that, compared
    case-insensitively, equals the search term, is a prefix of it or has it
    as a prefix, or contains it or is contained in it; and the page is one of
    the input (some ad carries its id and its name).  The number of ads that
    share an id plays no part: a name without such a relation is never
    selected. *)
Theorem C1_selected_page_name_related (ads : list Ad) (searchTerm : string)
    (r : Meta.PageMatch) :
  Meta.findBestMatchingPage ads searchTerm = Some r ->
  Props.TextualRelation (Js.toLowerCase (Meta.pm_pageName r))
                        (Js.toLowerCase searchTerm)
  /\ exists ad, In ad ads /\ pageId ad = Some (Meta.pm_pageId r)
                /\ brandName ad = Meta.pm_pageName r.
Proof.
  intros H. apply ResolverFacts.findBestMatchingPage_sound in H as (Hs & _ & Hin).
  split; [now apply ResolverFacts.nameScore_related|exact Hin].
Qed.

Lemma C1_witness :
  Meta.findBestMatchingPage Fixtures.acmeAds "Acme"
    = Some {| Meta.pm_pageId := "1"; Meta.pm_pageName := "Acme Corp" |}
  /\ Props.TextualRelation "acme corp" "acme".
Proof.
  split; [reflexivity|].
  exact (proj1 (C1_selected_page_name_related Fixtures.acmeAds "Acme"
                  {| Meta.pm_pageId := "1"; Meta.pm_pageName := "Acme Corp" |}
                  eq_refl)).
Defined.

(** ** Meta record normaliser *)

Module MetaNormalizerFacts.
Import Js Props JsFacts Meta.

Lemma seen_false media u : seen media u = false -> ~ In u (urls media).
Proof.
  unfold seen, urls. intros H Hin.
  apply in_map_iff in Hin as (m & Hm & Hin).
  assert (existsb (fun m => streq (m_url m) u) media = true).
  { apply existsb_exists. exists m. split; [exact Hin|]. now apply streq_spec. }
  congruence.
Qed.

Lemma urls_snoc media m : urls (media ++ [m]) = (urls media ++ [m_url m])%list.
Proof. unfold urls. now rewrite map_app. Qed.

Lemma NoDup_snoc (l : list string) x : NoDup l -> ~ In x l -> NoDup (l ++ [x]).
Proof.
  intros Hl Hx. apply NoDup_app; repeat split.
  - exact Hl.
  - intros y Hy Hy'. apply list_elem_of_In in Hy. apply list_elem_of_In in Hy'.
    destruct Hy' as [<-|[]]. contradiction.
  - apply NoDup_singleton.
Qed.

(** A guarded push never introduces a second entry with the same URL. *)
Lemma pushUnique_NoDup media url mk :
  (forall u, m_url (mk u) = u) ->
  NoDup (urls media) -> NoDup (urls (pushUnique media url mk)).
Proof.
  intros Hmk Hnd. unfold pushUnique.
  destruct url as [u|]; [|exact Hnd].
  destruct (isEmpty u); simpl; [exact Hnd|].
  destruct (seen media u) eqn:E; simpl; [exact Hnd|].
  rewrite urls_snoc, Hmk. apply NoDup_snoc; [exact Hnd|now apply seen_false].
Qed.

Lemma forEachOpt_NoDup {A} (arr : option (list A)) step media :
  (forall media x, NoDup (urls media) -> NoDup (urls (step media x))) ->
  NoDup (urls media) -> NoDup (urls (forEachOpt arr step media)).
Proof.
  intros Hstep. unfold forEachOpt. destruct arr as [l|]; [|auto].
  revert media. induction l as [|x l IH]; intros media Hnd; simpl; auto.
Qed.

Lemma cardStep_NoDup media card :
  NoDup (urls media) -> NoDup (urls (cardStep media card)).
Proof.
  intros Hnd. unfold cardStep.
  apply pushUnique_NoDup; [reflexivity|].
  apply pushUnique_NoDup; [reflexivity|exact Hnd].
Qed.

Lemma mediaItemStep_NoDup media item :
  NoDup (urls media) -> NoDup (urls (mediaItemStep media item)).
Proof. intros Hnd. unfold mediaItemStep. now apply pushUnique_NoDup. Qed.

Lemma pushAlways_falsy media url mk :
  truthy url = false -> pushAlways media url mk = media.
Proof.
  unfold pushAlways, truthy. destruct url as [u|]; [|reflexivity].
  now destruct (isEmpty u).
Qed.

Lemma pushAlways_first url mk :
  (forall u, m_url (mk u) = u) -> NoDup (urls (pushAlways [] url mk)).
Proof.
  intros Hmk. unfold pushAlways. destruct url as [u|]; [|constructor].
  destruct (isEmpty u); simpl; [constructor|].
  apply NoDup_singleton.
Qed.

(** Every push of [parseMedia] but the one of the direct [videoUrl] is
    guarded: without that field the media list has no URL twice. *)
Lemma parseMedia_NoDup_without_videoUrl rawAd :
  truthy (r_videoUrl rawAd) = false -> NoDup (urls (parseMedia rawAd)).
Proof.
  intros Hv. unfold parseMedia. rewrite (pushAlways_falsy _ _ _ Hv).
  apply forEachOpt_NoDup; [apply mediaItemStep_NoDup|].
  apply forEachOpt_NoDup; [intros; now apply pushUnique_NoDup|].
  apply forEachOpt_NoDup; [intros; now apply pushUnique_NoDup|].
  apply forEachOpt_NoDup; [apply cardStep_NoDup|].
  apply forEachOpt_NoDup; [intros; now apply pushUnique_NoDup|].
  apply forEachOpt_NoDup; [intros; now apply pushUnique_NoDup|].
  now apply pushAlways_first.
Qed.

End MetaNormalizerFacts.

(** C7.  [parseMedia] does not always deduplicate by URL: the direct
    [videoUrl] is pushed without looking at the URLs already collected.  For
    a record whose video is both the video of a carousel card and the direct
    [videoUrl], the media list holds that URL twice. *)
Theorem C7_parseMedia_repeats_direct_videoUrl :
  map m_url (Meta.parseMedia Fixtures.videoTwice)
    = ["https://cdn/p.jpg"; "https://cdn/v.mp4"; "https://cdn/v.mp4"]
  /\ ~ NoDup (map m_url (Meta.parseMedia Fixtures.videoTwice))
  /\ ~ NoDup (map m_url (Meta.parseMedia Fixtures.sameUrlTwice)).
Proof.
  split; [reflexivity|].
  split; intros H; vm_compute in H.
  - apply NoDup_cons_1_2 in H. apply NoDup_cons_1_1 in H.
    apply H. now left.
  - apply NoDup_cons_1_1 in H. apply H. now left.
Qed.

(** ** Format and identifier of a normalised ad *)

Module FormatFacts.
Import Js Props JsFacts Meta.

Lemma counts_length media : (videoCount media + imageCount media = length media)%nat.
Proof.
  unfold videoCount, imageCount. induction media as [|m media IH]; simpl; [reflexivity|].
  unfold isVideo, isImage in *. destruct (m_type m); simpl; lia.
Qed.

Lemma determineFormat_video rawAd media :
  (0 < videoCount media)%nat -> determineFormat rawAd media = fmt_video.
Proof.
  unfold determineFormat, videoCount. intros H.
  apply Nat.ltb_lt in H. now rewrite H.
Qed.

Lemma determineFormat_carousel rawAd media :
  videoCount media = 0%nat -> (1 < imageCount media)%nat ->
  determineFormat rawAd media = fmt_carousel.
Proof.
  unfold determineFormat, videoCount, imageCount. intros -> H.
  apply Nat.ltb_lt in H. now rewrite H.
Qed.

Lemma determineFormat_image rawAd media :
  videoCount media = 0%nat -> imageCount media = 1%nat ->
  determineFormat rawAd media = fmt_image.
Proof.
  unfold determineFormat, videoCount, imageCount. now intros -> ->.
Qed.

(** With a non-empty media list the raw record is not consulted. *)
Lemma determineFormat_hints_unused rawAd rawAd' media :
  media <> [] -> determineFormat rawAd media = determineFormat rawAd' media.
Proof.
  intros Hne. pose proof (counts_length media) as Hc.
  assert (Hlen : (0 < length media)%nat) by (destruct media; simpl; [congruence|lia]).
  unfold determineFormat. fold (videoCount media) (imageCount media).
  destruct (0 <? videoCount media)%nat eqn:E1; [reflexivity|].
  destruct (1 <? imageCount media)%nat eqn:E2; [reflexivity|].
  destruct (imageCount media =? 1)%nat eqn:E3; [reflexivity|].
  apply Nat.ltb_ge in E1, E2. apply Nat.eqb_neq in E3. lia.
Qed.

Lemma normalizeAd_format jsDate rawAd brand t :
  format (normalizeAd jsDate rawAd brand t)
  = determineFormat rawAd (media (normalizeAd jsDate rawAd brand t)).
Proof. reflexivity. Qed.

(** The clock only shows in [fetchedAt]. *)
Lemma normalizeAd_clock jsDate rawAd brand t1 t2 :
  normalizeAd jsDate rawAd brand t2
  = withFetchedAt t2 (normalizeAd jsDate rawAd brand t1).
Proof. reflexivity. Qed.

(** The generated id is a function of four raw fields. *)
Lemma generateAdId_salient raw1 raw2 :
  r_pageID raw1 = r_pageID raw2 ->
  substring0 50 <$> r_adText raw1 = substring0 50 <$> r_adText raw2 ->
  or_else (r_imageUrl raw1) (r_videoUrl raw1)
    = or_else (r_imageUrl raw2) (r_videoUrl raw2) ->
  r_startDate raw1 = r_startDate raw2 ->
  generateAdId raw1 = generateAdId raw2.
Proof.
  intros H1 H2 H3 H4. unfold generateAdId, idComponents.
  now rewrite H1, H2, H3, H4.
Qed.

Lemma normalizeAd_id_generated jsDate rawAd brand t :
  truthy (naturalId rawAd) = false ->
  id (normalizeAd jsDate rawAd brand t) = generateAdId rawAd.
Proof.
  intros H. unfold normalizeAd; simpl. unfold or_str, truthy in *.
  destruct (naturalId rawAd) as [n|]; [|reflexivity].
  destruct (isEmpty n); [reflexivity|discriminate].
Qed.

End FormatFacts.

Module GoogleNormalizerFacts.
Import Js Props JsFacts Google.

(** [normalizeAd] completes normally; the ad is built from the record, an id
    and a clock reading. *)
Lemma normalizeAd_runs term raw (e : Env) (s : State) :
  exists adId t s',
    normalizeAd term raw e s = (Normal (buildAd raw term adId t), s')
    /\ (truthy (g_creativeId raw) = true -> Some adId = g_creativeId raw)
    /\ s_cache s' = s_cache s /\ s_file s' = s_file s
    /\ s_calls s' = s_calls s /\ s_trace s' = s_trace s.
Proof.
  unfold normalizeAd, adIdOf.
  destruct (truthy (g_creativeId raw)) eqn:E.
  - eexists _, _, _. split; [reflexivity|]. split; [|now repeat split].
    intros _. unfold truthy in E. now destruct (g_creativeId raw).
  - eexists _, _, _. split; [reflexivity|]. split; [discriminate|now repeat split].
Qed.

Lemma buildAd_format raw term adId t :
  format (buildAd raw term adId t) = formatOfAdType (g_adType raw).
Proof. reflexivity. Qed.

Lemma buildAd_clock raw term adId t1 t2 :
  buildAd raw term adId t2 = withFetchedAt t2 (buildAd raw term adId t1).
Proof. reflexivity. Qed.

End GoogleNormalizerFacts.

(** C5, as the code has it.  The Meta normaliser computes the format from
    the media list: a video in the list gives video; without a video, more
    than one image gives carousel and exactly one image gives image; and the
    raw record is consulted only when the list is empty.  The Google
    normaliser takes the format from the [adType] string alone, whatever the
    media list holds. *)
Theorem C5_format_of_normalised_ad
    (jsDate : string -> option Z) (rawAd : Meta.ApifyRawAdItem) (brand : string) (t : Z)
    (term : string) (raw : Google.GoogleAdRawItem) (e : Google.Env) (s : Google.State) :
  let ad := Meta.normalizeAd jsDate rawAd brand t in
  ((0 < Props.videoCount (media ad))%nat -> format ad = fmt_video)
  /\ (Props.videoCount (media ad) = 0%nat ->
      (1 < Props.imageCount (media ad))%nat -> format ad = fmt_carousel)
  /\ (Props.videoCount (media ad) = 0%nat ->
      Props.imageCount (media ad) = 1%nat -> format ad = fmt_image)
  /\ (media ad <> [] -> forall rawAd', format ad = Meta.determineFormat rawAd' (media ad))
  /\ exists gad s',
       Google.normalizeAd term raw e s = (Normal gad, s')
       /\ format gad = Google.formatOfAdType (Google.g_adType raw).
Proof.
  intros ad. unfold ad. rewrite FormatFacts.normalizeAd_format.
  split; [apply FormatFacts.determineFormat_video|].
  split; [apply FormatFacts.determineFormat_carousel|].
  split; [apply FormatFacts.determineFormat_image|].
  split; [intros Hne rawAd'; now apply FormatFacts.determineFormat_hints_unused|].
  destruct (GoogleNormalizerFacts.normalizeAd_runs term raw e s)
    as (adId & t' & s' & Hrun & _).
  exists (Google.buildAd raw term adId t'), s'. split; [exact Hrun|reflexivity].
Qed.

Lemma C5_witness :
  format (Meta.normalizeAd Fixtures.noDate Fixtures.videoTwice "acme" 0) = fmt_video
  /\ format (Meta.normalizeAd Fixtures.noDate Fixtures.acmeRaw1 "acme" 0) = fmt_image.
Proof.
  split.
  - apply (proj1 (C5_format_of_normalised_ad Fixtures.noDate Fixtures.videoTwice
                    "acme" 0 "nike" Fixtures.textAdWithImage
                    (Fixtures.steadyEnv (fun _ => Fixtures.noRun) Fixtures.noItems)
                    (Fixtures.stateOf None None))).
    vm_compute. lia.
  - apply (proj1 (proj2 (proj2
             (C5_format_of_normalised_ad Fixtures.noDate Fixtures.acmeRaw1
                "acme" 0 "nike" Fixtures.textAdWithImage
                (Fixtures.steadyEnv (fun _ => Fixtures.noRun) Fixtures.noItems)
                (Fixtures.stateOf None None))))); reflexivity.
Defined.

(** The Google normaliser does not follow the media list: a record of type
    Text with one image and no video is given the format text. *)
Lemma C5_counterexample :
  exists gad s',
    Google.normalizeAd "nike" Fixtures.textAdWithImage
      (Fixtures.steadyEnv (fun _ => Fixtures.noRun) Fixtures.noItems)
      (Fixtures.stateOf None None) = (Normal gad, s')
    /\ Props.videoCount (media gad) = 0%nat
    /\ Props.imageCount (media gad) = 1%nat
    /\ format gad = fmt_text
    /\ format gad <> fmt_image.
Proof.
  eexists _, _. split; [reflexivity|]. repeat split. discriminate.
Qed.

(** C6, as the code has it.  Normalising a Meta record at two clock
    readings gives ads that differ at most in [fetchedAt], so the id is the
    same; two Meta records without a natural id that agree on [pageID], the
    first fifty characters of [adText], the first of [imageUrl] and
    [videoUrl], and [startDate], get the same id; and a Google record with a
    creative id is normalised, in any two environments and states, to ads
    that carry that id and differ at most in [fetchedAt]. *)
Theorem C6_normalize_deterministic_up_to_clock :
  (forall jsDate rawAd brand t1 t2,
      Meta.normalizeAd jsDate rawAd brand t2
      = Props.withFetchedAt t2 (Meta.normalizeAd jsDate rawAd brand t1))
  /\ (forall jsDate raw1 raw2 brand1 brand2 t1 t2,
         Js.truthy (Meta.naturalId raw1) = false ->
         Js.truthy (Meta.naturalId raw2) = false ->
         Meta.r_pageID raw1 = Meta.r_pageID raw2 ->
         Js.substring0 50 <$> Meta.r_adText raw1
           = Js.substring0 50 <$> Meta.r_adText raw2 ->
         Js.or_else (Meta.r_imageUrl raw1) (Meta.r_videoUrl raw1)
           = Js.or_else (Meta.r_imageUrl raw2) (Meta.r_videoUrl raw2) ->
         Meta.r_startDate raw1 = Meta.r_startDate raw2 ->
         id (Meta.normalizeAd jsDate raw1 brand1 t1)
         = id (Meta.normalizeAd jsDate raw2 brand2 t2))
  /\ (forall term raw (e1 e2 : Google.Env) (s1 s2 : Google.State),
         Js.truthy (Google.g_creativeId raw) = true ->
         exists ad1 ad2 s1' s2',
           Google.normalizeAd term raw e1 s1 = (Normal ad1, s1')
           /\ Google.normalizeAd term raw e2 s2 = (Normal ad2, s2')
           /\ Some (id ad1) = Google.g_creativeId raw
           /\ ad2 = Props.withFetchedAt (fetchedAt ad2) ad1).
Proof.
  split; [intros; apply FormatFacts.normalizeAd_clock|].
  split.
  - intros jsDate raw1 raw2 brand1 brand2 t1 t2 Hn1 Hn2 Hp Ht Hm Hd.
    rewrite !FormatFacts.normalizeAd_id_generated by assumption.
    now apply FormatFacts.generateAdId_salient.
  - intros term raw e1 e2 s1 s2 Hc.
    destruct (GoogleNormalizerFacts.normalizeAd_runs term raw e1 s1)
      as (id1 & t1 & s1' & Hrun1 & Hid1 & _).
    destruct (GoogleNormalizerFacts.normalizeAd_runs term raw e2 s2)
      as (id2 & t2 & s2' & Hrun2 & Hid2 & _).
    specialize (Hid1 Hc). specialize (Hid2 Hc).
    assert (id2 = id1) as -> by congruence.
    eexists _, _, _, _. split; [exact Hrun1|]. split; [exact Hrun2|].
    split; [exact Hid1|]. reflexivity.
Qed.

Lemma C6_witness :
  id (Meta.normalizeAd Fixtures.noDate Fixtures.acmeRaw1 "acme" 10)
  = id (Meta.normalizeAd Fixtures.noDate Fixtures.acmeRaw2 "acme inc" 20).
Proof.
  apply (proj1 (proj2 C6_normalize_deterministic_up_to_clock)); reflexivity.
Defined.

(** Normalising one Google record without a creative id twice in a row
    gives two different ids, and the Meta normaliser gives two ads that
    differ in [fetchedAt] when the clock has moved. *)
Lemma C6_counterexample :
  (exists ad1 ad2 s1 s2,
      Google.normalizeAd "nike" Fixtures.noCreativeId
        (Fixtures.steadyEnv (fun _ => Fixtures.noRun) Fixtures.noItems)
        (Fixtures.stateOf None None) = (Normal ad1, s1)
      /\ Google.normalizeAd "nike" Fixtures.noCreativeId
           (Fixtures.steadyEnv (fun _ => Fixtures.noRun) Fixtures.noItems) s1
         = (Normal ad2, s2)
      /\ id ad1 = "google-0-0.5" /\ id ad2 = "google-2000-0.5"
      /\ id ad1 <> id ad2)
  /\ Meta.normalizeAd Fixtures.noDate Fixtures.acmeRaw1 "acme" 0
     <> Meta.normalizeAd Fixtures.noDate Fixtures.acmeRaw1 "acme" 1000.
Proof.
  split.
  - eexists _, _, _, _. split; [reflexivity|]. split; [reflexivity|].
    split; [reflexivity|]. split; [reflexivity|]. discriminate.
  - intros H. apply (f_equal fetchedAt) in H. discriminate.
Qed.

(** ** Reasoning about effects *)

Module MonadFacts.
Import Props.

Section Rules.
Context {Raw Cache : Type}.
Implicit Types (e : Env Raw) (s : State Cache).

Lemma outcome_bind {A B} (m : M Raw Cache A) (k : A -> M Raw Cache B) e s Q X :
  outcome m e s (fun a s' => outcome (k a) e s' Q X) X ->
  outcome (m ≫= k) e s Q X.
Proof.
  unfold outcome, mbind, M_bind, bind. now destruct (m e s) as [[a|x] s'].
Qed.

Lemma outcome_try_catch {A} (m : M Raw Cache A) h e s Q X :
  outcome m e s Q (fun x s' => outcome (h x) e s' Q X) ->
  outcome (try_catch m h) e s Q X.
Proof.
  unfold outcome, try_catch. now destruct (m e s) as [[a|x] s'].
Qed.

Lemma bind_run {A B} (m : M Raw Cache A) (k : A -> M Raw Cache B) e s :
  (m ≫= k) e s
  = match m e s with
    | (Normal a, s') => k a e s'
    | (Thrown x, s') => (Thrown x, s')
    end.
Proof. reflexivity. Qed.

Lemma bind_now {B} (k : Z -> M Raw Cache B) e s :
  (now ≫= k) e s = k (e_clock e (s_ticks s)) e (ticked s).
Proof. reflexivity. Qed.

Lemma try_success {A} (body : M Raw Cache A) handler e s (ok : A -> bool) r s' :
  (forall x e1 s1, exists r1 s2, handler x e1 s1 = (Normal r1, s2) /\ ok r1 = false) ->
  try_catch body handler e s = (Normal r, s') -> ok r = true ->
  body e s = (Normal r, s').
Proof.
  intros Hh. unfold try_catch. destruct (body e s) as [[a|x] s1]; [auto|].
  destruct (Hh x e s1) as (r1 & s2 & -> & Hf). intros H Hok.
  inversion H; subst. congruence.
Qed.

Lemma mapM_cons {A B} (g : A -> M Raw Cache B) a l e s :
  mapM g (a :: l) e s
  = match g a e s with
    | (Normal b, s1) =>
        match mapM g l e s1 with
        | (Normal bs, s2) => (Normal (b :: bs), s2)
        | (Thrown x, s2) => (Thrown x, s2)
        end
    | (Thrown x, s1) => (Thrown x, s1)
    end.
Proof.
  simpl. unfold bind at 1. destruct (g a e s) as [[b|x] s1]; [|reflexivity].
  unfold bind at 1. now destruct (mapM g l e s1) as [[bs|x] s2].
Qed.

(** What a computation does is one of the two. *)
Lemma outcome_run {A} (m : M Raw Cache A) e s Q X :
  outcome m e s Q X ->
  (exists a s', m e s = (Normal a, s') /\ Q a s')
  \/ (exists x s', m e s = (Thrown x, s') /\ X x s').
Proof.
  unfold outcome. destruct (m e s) as [[a|x] s']; intros H; [left|right]; eauto.
Qed.

Section Preservation.
Context {T : Type} (f : State Cache -> T).

Lemma Preserves_ret {A} (a : A) : Preserves f (mret a : M Raw Cache A).
Proof. intros e s. reflexivity. Qed.

Lemma Preserves_throw {A} (x : JsError) : Preserves f (throw x : M Raw Cache A).
Proof. intros e s. reflexivity. Qed.

Lemma Preserves_bind {A B} (m : M Raw Cache A) (k : A -> M Raw Cache B) :
  Preserves f m -> (forall a, Preserves f (k a)) -> Preserves f (m ≫= k).
Proof.
  intros Hm Hk e s. apply outcome_bind. specialize (Hm e s).
  unfold outcome in *. destruct (m e s) as [[a|x] s']; [|exact Hm].
  specialize (Hk a e s'). unfold outcome in Hk.
  destruct (k a e s') as [[b|y] s'']; congruence.
Qed.

Lemma Preserves_try_catch {A} (m : M Raw Cache A) h :
  Preserves f m -> (forall x, Preserves f (h x)) -> Preserves f (try_catch m h).
Proof.
  intros Hm Hh e s. apply outcome_try_catch. specialize (Hm e s).
  unfold outcome in *. destruct (m e s) as [[a|x] s']; [exact Hm|].
  specialize (Hh x e s'). unfold outcome in Hh.
  destruct (h x e s') as [[b|y] s'']; congruence.
Qed.

Lemma Preserves_mapM {A B} (g : A -> M Raw Cache B) l :
  (forall a, Preserves f (g a)) -> Preserves f (mapM g l).
Proof.
  intros Hg. induction l as [|a l IH]; simpl.
  - apply (Preserves_ret []).
  - apply (Preserves_bind (g a)); [apply Hg|]. intros b.
    apply (Preserves_bind (mapM g l)); [exact IH|]. intros bs.
    apply (Preserves_ret (b :: bs)).
Qed.

End Preservation.
End Rules.

(** One step of a proof that a computation preserves an observation. *)
Ltac preserves_step :=
  match goal with
  | |- Preserves _ (mret _) => apply Preserves_ret
  | |- Preserves _ (throw _) => apply Preserves_throw
  | |- Preserves _ (mbind _ _) => apply Preserves_bind; [|intros ?]
  | |- Preserves _ (try_catch _ _) => apply Preserves_try_catch; [|intros ?]
  | |- Preserves _ (mapM _ _) => apply Preserves_mapM; intros ?
  | |- Preserves _ (if ?b then _ else _) => destruct b
  | |- Preserves _ (match ?x with _ => _ end) => destruct x
  end.

(** A primitive operation, by running it. *)
Ltac preserves_prim :=
  let e := fresh "e" in
  let s := fresh "s" in
  intros e s;
  unfold outcome, now, random, sleep, emit, get, set_cache,
    actorCall, listItems, readCacheFile, writeCacheFile;
  cbn;
  repeat match goal with
         | |- context [e_script ?e ?n] => destruct (e_script e n)
         | |- context [e_items ?e ?d] => destruct (e_items e d)
         | |- context [e_writable ?e] => destruct (e_writable e)
         | |- context [match s_file ?s with _ => _ end] => destruct (s_file s)
         end;
  reflexivity.

Create HintDb preserves.

Ltac preserves :=
  repeat (first [ solve [auto with preserves] | preserves_step ]);
  try solve [auto with preserves];
  try preserves_prim.

End MonadFacts.

(** ** Brand cache *)

Module CacheFacts.
Import Js Props JsFacts MonadFacts.





(** *** Meta *)

Lemma loadBrandsCache_run (e : Meta.Env) (s : Meta.State) :
  Meta.loadBrandsCache e s = (Normal (metaLoaded s), metaHydrated s).
Proof.
  unfold Meta.loadBrandsCache, metaLoaded, metaHydrated.
  destruct s as [mem file calls ticks draws trace]; cbn.
  destruct mem as [c|]; [reflexivity|].
  destruct file as [c|]; reflexivity.
Qed.

Lemma metaHydrated_cache s : s_cache (metaHydrated s) = Some (metaLoaded s).
Proof.
  unfold metaHydrated, metaLoaded. destruct (s_cache s) eqn:E; [exact E|reflexivity].
Qed.

Lemma metaLoaded_mem s c : s_cache s = Some c -> metaLoaded s = c.
Proof. unfold metaLoaded. now intros ->. Qed.

Lemma metaHydrated_mem s c : s_cache s = Some c -> metaHydrated s = s.
Proof. unfold metaHydrated. now intros ->. Qed.

Lemma lookupBrandInCache_run t (e : Meta.Env) (s : Meta.State) :
  exists s',
    Meta.lookupBrandInCache t e s
      = (Normal (Meta.brands (metaLoaded s) !! Meta.normalizeKey t), s')
    /\ s_cache s' = Some (metaLoaded s)
    /\ s_file s' = s_file s /\ s_calls s' = s_calls s
    /\ cacheWrites s' = cacheWrites s /\ clientCalls s' = clientCalls s.
Proof.
  unfold Meta.lookupBrandInCache.
  unfold mbind at 1, M_bind, bind, emit.
  unfold mbind, M_bind, bind. rewrite loadBrandsCache_run.
  eexists. split; [reflexivity|].
  unfold metaLoaded, metaHydrated; cbn.
  destruct (s_cache s); cbn; auto 10.
Qed.

(** A save under a key that the cache in memory holds does nothing. *)
Lemma saveBrandToCache_present t pid name (e : Meta.Env) (s : Meta.State) c entry :
  s_cache s = Some c ->
  Meta.brands c !! Meta.normalizeKey t = Some entry ->
  Meta.saveBrandToCache t pid name e s = (Normal tt, s).
Proof.
  intros Hc Hk. unfold Meta.saveBrandToCache, try_catch.
  unfold mbind, M_bind, bind. rewrite loadBrandsCache_run.
  rewrite (metaLoaded_mem _ _ Hc), (metaHydrated_mem _ _ Hc), Hk. reflexivity.
Qed.

(** After a save the cache in memory holds the key: with the entry it had,
    or with the new one when it had none. *)
Lemma saveBrandToCache_after t pid name (e : Meta.Env) (s : Meta.State) :
  exists c,
    s_cache (Meta.saveBrandToCache t pid name e s).2 = Some c
    /\ Meta.brands c !! Meta.normalizeKey t
       = Some (default {| Meta.bce_pageId := pid; Meta.bce_name := name |}
                 (Meta.brands (metaLoaded s) !! Meta.normalizeKey t)).
Proof.
  unfold Meta.saveBrandToCache, try_catch.
  unfold mbind at 1, M_bind, bind. rewrite loadBrandsCache_run.
  destruct (Meta.brands (metaLoaded s) !! Meta.normalizeKey t) as [entry|] eqn:Hk.
  - exists (metaLoaded s). cbn. split; [apply metaHydrated_cache|exact Hk].
  - unfold mbind, M_bind, bind, set_cache, emit, now, writeCacheFile. cbn.
    destruct (e_writable e); cbn; eexists; (split; [reflexivity|]); cbn;
      apply lookup_insert_eq.
Qed.

(** *** Google *)

Lemma lookupInCache_run t (e : Google.Env) (s : Google.State) :
  exists s',
    Google.lookupInCache t e s = (Normal (googleEntry s (Google.normalizeKey t)), s')
    /\ s_cache s' = s_cache s /\ s_file s' = s_file s
    /\ s_calls s' = s_calls s /\ cacheWrites s' = cacheWrites s
    /\ clientCalls s' = clientCalls s.
Proof. eexists. split; [reflexivity|]. cbn. auto 10. Qed.

Lemma saveCache_entries (e : Google.Env) (s : Google.State) key :
  googleEntry (Google.saveCache e s).2 key = googleEntry s key.
Proof.
  unfold Google.saveCache, googleEntry.
  unfold mbind at 1, M_bind, bind, get.
  destruct (s_cache s) as [c|] eqn:Hc; cbn; [|now rewrite Hc].
  unfold try_catch, mbind, M_bind, bind, now, set_cache, writeCacheFile; cbn.
  destruct (e_writable e); reflexivity.
Qed.

(** A save stores the new entry under the key, whatever was there. *)
Lemma saveToCache_stores t aid name dom (e : Google.Env) (s : Google.State) :
  googleEntry (Google.saveToCache t aid name dom e s).2 (Google.normalizeKey t)
  = Some {| Google.ace_advertiserId := aid; Google.ace_name := name;
            Google.ace_domain := dom |}.
Proof.
  unfold Google.saveToCache.
  unfold mbind, M_bind, bind, get, set_cache, emit.
  rewrite saveCache_entries. unfold googleEntry. cbn. apply lookup_insert_eq.
Qed.

(** A save leaves the entries under the other keys alone. *)
Lemma saveToCache_others t aid name dom (e : Google.Env) (s : Google.State) key :
  key <> Google.normalizeKey t ->
  googleEntry (Google.saveToCache t aid name dom e s).2 key = googleEntry s key.
Proof.
  intros Hne. unfold Google.saveToCache.
  unfold mbind, M_bind, bind, get, set_cache, emit.
  rewrite saveCache_entries. unfold googleEntry. cbn.
  rewrite lookup_insert_ne by congruence.
  destruct (s_cache s); reflexivity.
Qed.

End CacheFacts.

(** ** Google orchestrator *)

Module GoogleFacts.
Import Js Props JsFacts MonadFacts CacheFacts.

Lemma normalizeAd_keeps_entries key term raw :
  Preserves (fun s => googleEntry s key) (Google.normalizeAd term raw).
Proof. unfold Google.normalizeAd, Google.adIdOf. preserves. Qed.

Lemma fetchAdsByAdvertiserId_keeps_entries key cfg aid options :
  Preserves (fun s => googleEntry s key)
            (Google.fetchAdsByAdvertiserId cfg aid options).
Proof.
  pose proof (normalizeAd_keeps_entries key) as Hn.
  unfold Google.fetchAdsByAdvertiserId. preserves.
Qed.

Lemma saveToCache_keeps_others key t aid name dom :
  key <> Google.normalizeKey t ->
  Preserves (fun s => googleEntry s key) (Google.saveToCache t aid name dom).
Proof.
  intros Hne e s. unfold outcome.
  pose proof (saveToCache_others t aid name dom e s key Hne) as H.
  destruct (Google.saveToCache t aid name dom e s) as [[[]|x] s']; exact H.
Qed.

Lemma coldSearch_keeps_others key cfg t dom options startTime :
  key <> Google.normalizeKey t ->
  Preserves (fun s => googleEntry s key)
            (Google.coldSearch cfg t dom options startTime).
Proof.
  intros Hne.
  pose proof (normalizeAd_keeps_entries key) as Hn.
  unfold Google.coldSearch. preserves.
  all: try (apply saveToCache_keeps_others; exact Hne).
Qed.

(** A fetch leaves every entry that the cache holds when it starts as it
    is: it saves only after a miss, and only under the key that missed. *)
Lemma fetchAdsByBrand_keeps_entries cfg brand options (e : Google.Env)
    (s : Google.State) key entry :
  googleEntry s key = Some entry ->
  googleEntry (Google.fetchAdsByBrand cfg brand options e s).2 key = Some entry.
Proof.
  intros Hin.
  pose proof (normalizeAd_keeps_entries key) as Hn.
  pose proof (fetchAdsByAdvertiserId_keeps_entries key cfg) as Hf.
  destruct (decide (key = Google.normalizeKey (trim brand))) as [Heq|Hne].
  - (* the brand of the request: the lookup hits *)
    unfold Google.fetchAdsByBrand.
    unfold mbind at 1, M_bind, bind, now.
    destruct (Google.isBlank brand); [exact Hin|].
    unfold mbind at 1, M_bind, bind.
    match goal with
    | |- context [Google.lookupInCache ?t ?e ?s0] =>
        destruct (lookupInCache_run t e s0) as (s1 & -> & Hc & _);
        assert (H0 : googleEntry s0 (Google.normalizeKey t) = Some entry)
          by (rewrite <- Heq; exact Hin);
        assert (H1 : googleEntry s1 key = Some entry)
          by (unfold googleEntry; rewrite Hc; exact Hin);
        rewrite H0
    end.
    match goal with
    | |- googleEntry (?m ?e ?s).2 key = _ =>
        assert (Hp : Preserves (fun s => googleEntry s key) m) by preserves;
        specialize (Hp e s); unfold outcome in Hp;
        destruct (m e s) as [[r|x] s2]; cbn; congruence
    end.
  - (* another key: nothing touches it *)
    assert (Hp : Preserves (fun s => googleEntry s key)
                   (Google.fetchAdsByBrand cfg brand options)).
    { pose proof (coldSearch_keeps_others key cfg (trim brand)
                    (Google.buildDomain (trim brand)) options) as Hc.
      unfold Google.fetchAdsByBrand, Google.lookupInCache. preserves. }
    specialize (Hp e s). unfold outcome in Hp.
    destruct (Google.fetchAdsByBrand cfg brand options e s) as [[r|x] s']; cbn;
      congruence.
Qed.

End GoogleFacts.



(** The three spellings of the specification reach the entry saved under
    any of them. *)
Example nike_spellings_hit :
  let entry := Some {| Meta.bce_pageId := "A"; Meta.bce_name := "Nike" |} in
  (Meta.lookupBrandInCache "Nike" Fixtures.offline Fixtures.metaNikeA).1 = Normal entry
  /\ (Meta.lookupBrandInCache " nike " Fixtures.offline Fixtures.metaNikeA).1 = Normal entry
  /\ (Meta.lookupBrandInCache "NIKE" Fixtures.offline Fixtures.metaNikeA).1 = Normal entry
  /\ Props.googleEntry Fixtures.googleNikeA (Google.normalizeKey " nike ")
     = Props.googleEntry Fixtures.googleNikeA (Google.normalizeKey "NIKE").
Proof. repeat split; vm_compute; reflexivity. Qed.

(** C2, as the code has it.  The Meta cache is first-writer-wins: after a
    save, a later save under the same normalised key changes nothing, and an
    entry that a lookup finds is still the one found after any save under
    its key.  The Google [saveToCache] has no such check: it stores the new
    entry under the key whatever was there; the Google [fetchAdsByBrand]
    calls it only after a miss, so a fetch leaves every entry present when
    it starts unchanged. *)
Theorem C2_first_writer_wins :
  (forall (e : Meta.Env) (s : Meta.State) t1 id1 n1 t2 id2 n2,
      Meta.normalizeKey t1 = Meta.normalizeKey t2 ->
      let s1 := (Meta.saveBrandToCache t1 id1 n1 e s).2 in
      Meta.saveBrandToCache t2 id2 n2 e s1 = (Normal tt, s1))
  /\ (forall (e : Meta.Env) (s : Meta.State) t entry t' id' n',
         (Meta.lookupBrandInCache t e s).1 = Normal (Some entry) ->
         Meta.normalizeKey t' = Meta.normalizeKey t ->
         (Meta.lookupBrandInCache t e (Meta.saveBrandToCache t' id' n' e s).2).1
         = Normal (Some entry))
  /\ (forall (e : Google.Env) (s : Google.State) t aid name dom,
         Props.googleEntry (Google.saveToCache t aid name dom e s).2
           (Google.normalizeKey t)
         = Some {| Google.ace_advertiserId := aid; Google.ace_name := name;
                   Google.ace_domain := dom |})
  /\ (forall cfg brand options (e : Google.Env) (s : Google.State) key entry,
         Props.googleEntry s key = Some entry ->
         Props.googleEntry (Google.fetchAdsByBrand cfg brand options e s).2 key
         = Some entry).
Proof.
  split; [|split; [|split]].
  - intros e s t1 id1 n1 t2 id2 n2 Hk s1.
    destruct (CacheFacts.saveBrandToCache_after t1 id1 n1 e s) as (c & Hc & Hin).
    rewrite Hk in Hin. exact (CacheFacts.saveBrandToCache_present _ _ _ _ _ _ _ Hc Hin).
  - intros e s t entry t' id' n' Hhit Hk.
    destruct (CacheFacts.lookupBrandInCache_run t e s) as (s0 & Hrun & _).
    rewrite Hrun in Hhit. cbn in Hhit. injection Hhit as Hhit.
    destruct (CacheFacts.saveBrandToCache_after t' id' n' e s) as (c & Hc & Hin).
    rewrite Hk, Hhit in Hin. cbn in Hin.
    destruct (CacheFacts.lookupBrandInCache_run t e
                (Meta.saveBrandToCache t' id' n' e s).2) as (s2 & Hrun2 & _).
    rewrite Hrun2. cbn. now rewrite (CacheFacts.metaLoaded_mem _ _ Hc), Hin.
  - intros. apply CacheFacts.saveToCache_stores.
  - intros. now apply GoogleFacts.fetchAdsByBrand_keeps_entries.
Qed.

Lemma C2_witness :
  Fixtures.metaNikeAB = Fixtures.metaNikeA
  /\ (Meta.lookupBrandInCache "Nike" Fixtures.offline Fixtures.metaNikeAB).1
     = Normal (Some {| Meta.bce_pageId := "A"; Meta.bce_name := "Nike" |}).
Proof.
  assert (H : Fixtures.metaNikeAB = Fixtures.metaNikeA).
  { exact (f_equal snd
             (proj1 C2_first_writer_wins Fixtures.offline (Fixtures.stateOf None None)
                "Nike" "A" "Nike" "Nike" "B" "Nike Inc." eq_refl)). }
  split; [exact H|]. rewrite H. vm_compute. reflexivity.
Defined.

(** The Google cache is not first-writer-wins: after save(Nike, A, Nike), the
    save(Nike, B, Nike Inc.) replaces the entry. *)
Lemma C2_counterexample :
  Props.googleEntry Fixtures.googleNikeA "nike"
    = Some {| Google.ace_advertiserId := "A"; Google.ace_name := "Nike";
              Google.ace_domain := "nike.com" |}
  /\ Props.googleEntry Fixtures.googleNikeAB "nike"
     = Some {| Google.ace_advertiserId := "B"; Google.ace_name := "Nike Inc.";
               Google.ace_domain := "nike.com" |}.
Proof. split; vm_compute; reflexivity. Qed.

(** ** Retry controller *)

Module RetryFacts.
Import Js Props JsFacts MonadFacts Meta.

Lemma runOnce_run attempt (e : Env) (s : State) :
  runOnce attempt e s
  = (match e_script e (s_calls s) with
     | CallReturns run =>
         match attemptError (CallReturns run) with
         | Some x => Thrown x
         | None => Normal run
         end
     | CallThrows x => Thrown x
     end, afterCall attempt s).
Proof.
  unfold runOnce, mbind, M_bind, bind, actorCall, afterCall, attemptError.
  destruct (e_script e (s_calls s)) as [run|x]; [|reflexivity].
  destruct (run_status run); reflexivity.
Qed.

(** With enough fuel the controller meets its description. *)
Lemma retry_spec_fuel cfg fuel : forall attempt (e : Env) (s : State),
  (maxRetries (retryConfig cfg) - attempt <= fuel)%nat ->
  RetrySpec cfg attempt e s (runActorWithRetry_fuel cfg fuel attempt e s).
Proof.
  induction fuel as [|fuel IH]; intros attempt e s Hfuel.
  all: unfold RetrySpec; simpl runActorWithRetry_fuel; unfold try_catch;
    rewrite runOnce_run;
    destruct (e_script e (s_calls s)) as [run|x] eqn:Hcall.
  all: try (destruct (attemptError (CallReturns run)) as [x|] eqn:Herr).
  (* the call returned a run whose status raises no error *)
  all: try solve
    [ exists 1%nat; cbn; rewrite Nat.add_sub; repeat split;
      [lia | lia | intros i Hi; lia | exact Hcall | exact Herr] ].
  (* the call ended in an error *)
  all: assert (Hx : attemptError (e_script e (s_calls s)) = Some x)
         by (rewrite Hcall; first [exact Herr | reflexivity]).
  all: fold (retried x);
    destruct ((maxRetries (retryConfig cfg) <=? attempt)%nat
              || negb (isRetryableError x) && negb (isRateLimitError x)) eqn:Hstop.
  all: try solve
    [ exists 1%nat; cbn; rewrite Nat.add_sub; repeat split;
      [ lia | lia | intros i Hi; lia | exact Hx
      | apply orb_true_iff in Hstop as [H|H];
        [ left; apply Nat.leb_le in H; lia
        | right; unfold retried; apply andb_true_iff in H as [H1 H2];
          apply negb_true_iff in H1, H2; now rewrite H1, H2 ] ] ].
  all: apply orb_false_iff in Hstop as [Hlim Hret]; apply Nat.leb_gt in Hlim.
  all: try (exfalso; lia).
  all: assert (Hretried : retried x = true)
         by (unfold retried; destruct (isRetryableError x), (isRateLimitError x);
             simpl in *; congruence).
  all: unfold mbind, M_bind, bind, sleep, emit; cbn [fst snd].
  all: match goal with
       | |- context [runActorWithRetry_fuel ?c ?f (S ?a) ?e0 ?s1] =>
           destruct (IH (S a) e0 s1 ltac:(lia)) as (k & Hk & Hcalls & Hmid & Hlast);
           destruct (runActorWithRetry_fuel c f (S a) e0 s1) as [res s2]
       end.
  all: cbn [fst snd s_calls afterCall] in *.
  all: exists (S k); split; [lia|]; split; [lia|]; split.
  all: try (intros i Hi; destruct i as [|i];
            [ rewrite Nat.add_0_r; exists x; repeat split; [exact Hx|exact Hretried|lia]
            | destruct (Hmid i ltac:(lia)) as (y & Hy & Hr & Hl);
              exists y; repeat split;
              [ replace (s_calls s + S i)%nat with (S (s_calls s) + i)%nat by lia;
                exact Hy | exact Hr | lia ] ]).
  all: replace (s_calls s + S k - 1)%nat with (S (s_calls s) + k - 1)%nat by lia;
    destruct res as [r|y]; [exact Hlast|];
    destruct Hlast as [Hy [Hl|Hr]]; (split; [exact Hy|]); [left; lia|right; exact Hr].
Qed.

Lemma runActorWithRetry_spec cfg attempt (e : Env) (s : State) :
  RetrySpec cfg attempt e s (runActorWithRetry cfg attempt e s).
Proof. unfold runActorWithRetry. now apply retry_spec_fuel. Qed.

(** More fuel than [maxRetries - attempt] changes nothing. *)
Lemma retry_fuel_enough cfg fuel : forall attempt (e : Env) (s : State),
  (maxRetries (retryConfig cfg) - attempt <= fuel)%nat ->
  runActorWithRetry_fuel cfg fuel attempt e s = runActorWithRetry cfg attempt e s.
Proof.
  unfold runActorWithRetry.
  induction fuel as [|fuel IH]; intros attempt e s Hfuel.
  - now replace (maxRetries (retryConfig cfg) - attempt)%nat with 0%nat by lia.
  - destruct (maxRetries (retryConfig cfg) - attempt)%nat as [|n] eqn:Hn.
    + simpl. unfold try_catch. destruct (runOnce attempt e s) as [[r|x] s1];
        [reflexivity|].
      assert (Hle : (maxRetries (retryConfig cfg) <=? attempt)%nat = true)
        by (apply Nat.leb_le; lia).
      now rewrite Hle.
    + simpl. unfold try_catch. destruct (runOnce attempt e s) as [[r|x] s1];
        [reflexivity|].
      destruct (_ || _); [reflexivity|].
      unfold mbind, M_bind, bind. destruct (sleep _ e s1) as [[[]|y] s2];
        [|reflexivity].
      rewrite (IH (S attempt)) by lia.
      now replace (maxRetries (retryConfig cfg) - S attempt)%nat with n by lia.
Qed.

(** A run-failed status is not retryable and not a rate limit; a timed-out
    status is retryable. *)
Lemma failed_not_retried run :
  run_status run = FAILED ->
  exists x, attemptError (CallReturns run) = Some x /\ retried x = false
            /\ x = ApifyError "Actor run failed with status: FAILED" RUN_FAILED.
Proof. intros H. unfold attemptError. rewrite H. eexists. now repeat split. Qed.

Lemma timed_out_retried run :
  run_status run = TIMED_OUT ->
  exists x, attemptError (CallReturns run) = Some x /\ retried x = true
            /\ x = ApifyError "Actor run timed out" TIMEOUT.
Proof. intros H. unfold attemptError. rewrite H. eexists. now repeat split. Qed.

End RetryFacts.

(** C3, as the code has it.  A run of [runActorWithRetry] makes between one
    and [max 1 maxRetries] calls of the actor.  A further call follows only
    an attempt that ended in a retryable error (network, timeout) or a
    rate-limit error.  A run reported as failed is never retried: its error
    is thrown at once.  A run reported as timed out raises a timeout error,
    which is retryable, so it is retried while attempts remain.  When the
    controller throws, it throws the error of its last attempt unchanged, the
    attempts being used up or the error being neither retryable nor a
    rate limit.  When it returns, it returns the run of its last call, whose
    status raises no error: that run is neither failed nor timed out. *)
Theorem C3_retry_controller (cfg : Meta.Config) (e : Meta.Env) (s : Meta.State) :
  let limit := Meta.maxRetries (Meta.retryConfig cfg) in
  let n0 := s_calls s in
  let res := Meta.runActorWithRetry cfg 1 e s in
  exists k : nat,
    (1 <= k)%nat /\ (k <= Nat.max 1 limit)%nat
    /\ s_calls res.2 = (n0 + k)%nat
    /\ (forall i : nat, (i + 1 < k)%nat ->
          exists x, Props.attemptError (e_script e (n0 + i)%nat) = Some x
                    /\ Props.retried x = true)
    /\ (forall (i : nat) run, (i < k)%nat ->
          e_script e (n0 + i)%nat = CallReturns run ->
          run_status run = FAILED ->
          (i + 1 = k)%nat
          /\ res.1 = Thrown (ApifyError "Actor run failed with status: FAILED"
                               RUN_FAILED))
    /\ (forall (i : nat) run, (i < k)%nat ->
          e_script e (n0 + i)%nat = CallReturns run ->
          run_status run = TIMED_OUT ->
          (i + 1 < limit)%nat -> (i + 1 < k)%nat)
    /\ match res.1 with
       | Normal run =>
           e_script e (n0 + k - 1)%nat = CallReturns run
           /\ Props.attemptError (CallReturns run) = None
           /\ run_status run <> FAILED /\ run_status run <> TIMED_OUT
       | Thrown x =>
           Props.attemptError (e_script e (n0 + k - 1)%nat) = Some x
           /\ ((limit <= k)%nat \/ Props.retried x = false)
       end.
Proof.
  intros limit n0 res.
  destruct (RetryFacts.runActorWithRetry_spec cfg 1 e s)
    as (k & Hk & Hcalls & Hmid & Hlast).
  fold res in Hcalls, Hlast. fold n0 in Hcalls, Hmid, Hlast. fold limit in Hmid, Hlast.
  exists k. split; [exact Hk|].
  split.
  { destruct (Nat.le_gt_cases k 1) as [|Hgt]; [lia|].
    destruct (Hmid (k - 2)%nat ltac:(lia)) as (x & _ & _ & Hl). lia. }
  split; [exact Hcalls|].
  split.
  { intros i Hi. destruct (Hmid i Hi) as (x & Hx & Hr & _). now exists x. }
  split.
  { intros i run Hi Hrun Hst.
    destruct (RetryFacts.failed_not_retried run Hst) as (x & Hx & Hnr & ->).
    assert (Hik : (i + 1 = k)%nat).
    { destruct (Nat.eq_dec (i + 1) k) as [|Hne]; [assumption|].
      destruct (Hmid i ltac:(lia)) as (y & Hy & Hr & _).
      rewrite Hrun, Hx in Hy. injection Hy as <-. congruence. }
    split; [exact Hik|].
    replace (n0 + k - 1)%nat with (n0 + i)%nat in Hlast by lia.
    destruct (res.1) as [r|y].
    - destruct Hlast as [Hr Hnone]. rewrite Hrun in Hr. injection Hr as <-.
      congruence.
    - destruct Hlast as [Hy _]. rewrite Hrun, Hx in Hy. now injection Hy as <-. }
  split.
  { intros i run Hi Hrun Hst Hlim.
    destruct (RetryFacts.timed_out_retried run Hst) as (x & Hx & Hr & ->).
    destruct (Nat.eq_dec (i + 1) k) as [Hik|Hne]; [|lia].
    exfalso.
    replace (n0 + k - 1)%nat with (n0 + i)%nat in Hlast by lia.
    destruct (res.1) as [r|y].
    - destruct Hlast as [Hr' Hnone]. rewrite Hrun in Hr'. injection Hr' as <-.
      congruence.
    - destruct Hlast as [Hy [Hl|Hnr]]; [lia|].
      rewrite Hrun, Hx in Hy. injection Hy as <-. congruence. }
  destruct (res.1) as [r|y].
  - destruct Hlast as [Hr Hnone]. split; [exact Hr|]. split; [exact Hnone|].
    unfold Props.attemptError in Hnone.
    split; intros Hst; rewrite Hst in Hnone; discriminate.
  - destruct Hlast as [Hy [Hl|Hnr]]; (split; [exact Hy|]); [left; lia|now right].
Qed.

(** A run reported as timed out is not surfaced at once: with the default
    configuration the actor is called again after a delay, and the result is
    the run of the second call. *)
Lemma C3_counterexample :
  let res :=
    Meta.runActorWithRetry Meta.DEFAULT_CONFIG 1
      (Fixtures.steadyEnv Fixtures.timedOutThenOk Fixtures.noItems)
      (Fixtures.stateOf None None) in
  run_status (Fixtures.runWith TIMED_OUT) = TIMED_OUT
  /\ res.1 = Normal (Fixtures.runWith SUCCEEDED)
  /\ s_calls res.2 = 2%nat
  /\ s_trace res.2 = [EvActorCall 2; EvSleep 1000; EvActorCall 1].
Proof. repeat split. Qed.

(** A run reported as failed ends the controller at its first call, and
    three network errors are retried with growing delays. *)
Example retry_scenarios :
  (Meta.runActorWithRetry Meta.DEFAULT_CONFIG 1
     (Fixtures.steadyEnv Fixtures.failedThenOk Fixtures.noItems)
     (Fixtures.stateOf None None)).1
  = Thrown (ApifyError "Actor run failed with status: FAILED" RUN_FAILED)
  /\ (let res :=
        Meta.runActorWithRetry Fixtures.fourRetries 1
          (Fixtures.steadyEnv Fixtures.threeNetworkErrors Fixtures.noItems)
          (Fixtures.stateOf None None) in
      res.1 = Normal (Fixtures.runWith SUCCEEDED)
      /\ s_trace res.2
         = [EvActorCall 4; EvSleep 4000; EvActorCall 3; EvSleep 2000;
            EvActorCall 2; EvSleep 1000; EvActorCall 1]).
Proof. repeat split. Qed.

(** ** Blank brand names *)

Module BlankFacts.
Import Js Props JsFacts MonadFacts.

Lemma trimStart_blank s : OnlyWhiteSpace s -> trimStart s = "".
Proof.
  unfold OnlyWhiteSpace. induction s as [|c r IH]; simpl; [reflexivity|].
  intros H. rewrite (H c) by now left. apply IH. intros d Hd. apply H. now right.
Qed.

Lemma trim_blank s : OnlyWhiteSpace s -> trim s = "".
Proof. intros H. unfold trim. now rewrite trimStart_blank. Qed.

Lemma meta_isBlank s : OnlyWhiteSpace s -> Meta.isBlank s = true.
Proof.
  intros H. unfold Meta.isBlank. rewrite (trim_blank s H). apply orb_true_r.
Qed.

Lemma google_isBlank s : OnlyWhiteSpace s -> Google.isBlank s = true.
Proof.
  intros H. unfold Google.isBlank. rewrite (trim_blank s H). apply orb_true_r.
Qed.

End BlankFacts.

(** C10.  For a brand name that is empty or holds only white space, both
    services return at once a failure with no ads and the code NO_RESULTS;
    the trace, the cache in memory, the cache file and the number of actor
    calls are what they were, so no cache lookup, no cache write and no
    call of the actor client took place. *)
Theorem C10_blank_brand_rejected (mcfg : Meta.Config) (gcfg : Google.Config)
    (jsDate : string -> option Z) (brand : string) (options : FetchAdsOptions)
    (me : Meta.Env) (ms : Meta.State) (ge : Google.Env) (gs : Google.State) :
  Props.OnlyWhiteSpace brand ->
  (exists r s',
      Meta.fetchAdsByBrand jsDate mcfg brand options me ms = (Normal r, s')
      /\ success r = false /\ ads r = []
      /\ error r = Some "Brand name is required"
      /\ errorCode r = Some NO_RESULTS
      /\ s_trace s' = s_trace ms /\ s_cache s' = s_cache ms
      /\ s_file s' = s_file ms /\ s_calls s' = s_calls ms)
  /\ (exists r s',
         Google.fetchAdsByBrand gcfg brand options ge gs = (Normal r, s')
         /\ success r = false /\ ads r = []
         /\ error r = Some "Brand name is required"
         /\ errorCode r = Some NO_RESULTS
         /\ s_trace s' = s_trace gs /\ s_cache s' = s_cache gs
         /\ s_file s' = s_file gs /\ s_calls s' = s_calls gs).
Proof.
  intros Hblank. split.
  - unfold Meta.fetchAdsByBrand, mbind, M_bind, bind, now.
    rewrite (BlankFacts.meta_isBlank brand Hblank).
    eexists _, _. split; [reflexivity|]. cbn. now repeat split.
  - unfold Google.fetchAdsByBrand, mbind, M_bind, bind, now.
    rewrite (BlankFacts.google_isBlank brand Hblank).
    eexists _, _. split; [reflexivity|]. cbn. now repeat split.
Qed.

Lemma C10_witness :
  Props.OnlyWhiteSpace "   "
  /\ exists r s',
       Google.fetchAdsByBrand Google.DEFAULT_CONFIG "   "
         {| maxAds := Some 5%Z; countryCode := None; activeOnly := None;
            timeoutMs := None |}
         Fixtures.offline Fixtures.googleNikeA = (Normal r, s')
       /\ errorCode r = Some NO_RESULTS
       /\ s_trace s' = s_trace Fixtures.googleNikeA.
Proof.
  assert (Hws : Props.OnlyWhiteSpace "   ").
  { intros c Hc. simpl in Hc. destruct Hc as [<-|[<-|[<-|[]]]]; reflexivity. }
  split; [exact Hws|].
  destruct (proj2 (C10_blank_brand_rejected Meta.DEFAULT_CONFIG Google.DEFAULT_CONFIG
                     Fixtures.noDate "   "
                     {| maxAds := Some 5%Z; countryCode := None; activeOnly := None;
                        timeoutMs := None |}
                     Fixtures.offline (Fixtures.stateOf None None)
                     Fixtures.offline Fixtures.googleNikeA Hws))
    as (r & s' & Hrun & _ & _ & _ & Hcode & Htrace & _).
  exists r, s'. now repeat split.
Defined.

(** ** Results of the orchestrators *)

Module EnsuresFacts.
Import Js Props JsFacts MonadFacts Spec.

Section Rules.
Context {Raw Cache : Type}.

Lemma Ensures_ret {A} (Q : A -> Prop) X (a : A) :
  Q a -> Ensures Q X (mret a : M Raw Cache A).
Proof. intros H e s. exact H. Qed.

Lemma Ensures_throw {A} (Q : A -> Prop) (x : JsError) :
  Ensures Q True (throw x : M Raw Cache A).
Proof. intros e s. exact I. Qed.

(** Inside a [try], what comes first may do anything. *)
Lemma Ensures_bind_any {A B} (Q : B -> Prop) (m : M Raw Cache A) k :
  (forall a, Ensures Q True (k a)) -> Ensures Q True (m ≫= k).
Proof.
  intros Hk e s. apply outcome_bind. unfold outcome.
  destruct (m e s) as [[a|x] s']; [apply Hk|exact I].
Qed.

(** Outside, what comes first must return. *)
Lemma Ensures_bind_total {A B} (P : A -> Prop) (Q : B -> Prop) (m : M Raw Cache A) k :
  Ensures P False m -> (forall a, P a -> Ensures Q False (k a)) ->
  Ensures Q False (m ≫= k).
Proof.
  intros Hm Hk e s. apply outcome_bind. specialize (Hm e s). unfold outcome in *.
  destruct (m e s) as [[a|x] s']; [now apply Hk|exact Hm].
Qed.

Lemma Ensures_try_catch {A} (Q : A -> Prop) X (m : M Raw Cache A) h :
  Ensures Q True m -> (forall x, Ensures Q X (h x)) -> Ensures Q X (try_catch m h).
Proof.
  intros Hm Hh e s. apply outcome_try_catch. specialize (Hm e s). unfold outcome in *.
  destruct (m e s) as [[a|x] s']; [exact Hm|apply Hh].
Qed.

Lemma Ensures_now X : Ensures (fun _ => True) X (now : M Raw Cache Z).
Proof. intros e s. exact I. Qed.

Lemma Ensures_run {A} (Q : A -> Prop) (m : M Raw Cache A) e s :
  Ensures Q False m -> exists a s', m e s = (Normal a, s') /\ Q a.
Proof.
  intros H. specialize (H e s). unfold outcome in H.
  destruct (m e s) as [[a|x] s']; [now exists a, s'|contradiction].
Qed.

End Rules.

Ltac ensures_step :=
  match goal with
  | |- Ensures _ _ (mret _) => apply Ensures_ret
  | |- Ensures _ True (throw _) => apply Ensures_throw
  | |- Ensures _ _ (try_catch _ _) => apply Ensures_try_catch; [|intros ?]
  | |- Ensures _ True (mbind _ _) => apply Ensures_bind_any; intros ?
  | |- Ensures _ False (mbind _ now) =>
      apply (Ensures_bind_total (fun _ => True)); [apply Ensures_now|intros ? _]
  | |- Ensures _ _ (if ?b then _ else _) => destruct b
  | |- Ensures _ _ (match ?x with _ => _ end) => destruct x
  end.

(** The result records of the orchestrators. *)
Ltac typed_failure :=
  unfold TypedFailure, ReportedFailure, Meta.successResult, Meta.failureResult,
    Google.failureResult; cbn;
  first [ discriminate | intros _; repeat split; eauto ].

Ltac ensures := repeat ensures_step; try typed_failure.

(** *** Meta *)

Lemma meta_handleError_typed error q startTime :
  Ensures ReportedFailure False (Meta.handleError error q startTime).
Proof. unfold Meta.handleError. destruct error; ensures. Qed.

Lemma meta_coldSearch_typed jsDate cfg t options startTime :
  Ensures ReportedFailure True (Meta.coldSearch jsDate cfg t options startTime).
Proof. unfold Meta.coldSearch. ensures. Qed.

Lemma meta_fetchAdsByPageId_typed jsDate cfg pid options :
  Ensures ReportedFailure False (Meta.fetchAdsByPageId jsDate cfg pid options).
Proof.
  pose proof meta_handleError_typed as Hh.
  unfold Meta.fetchAdsByPageId. ensures. apply Hh.
Qed.

Lemma meta_lookup_total t :
  Ensures (fun _ => True) False (Meta.lookupBrandInCache t).
Proof.
  intros e s. unfold outcome.
  destruct (CacheFacts.lookupBrandInCache_run t e s) as (s' & -> & _). exact I.
Qed.

Lemma meta_fetchAdsByBrand_typed jsDate cfg brand options :
  Ensures ReportedFailure False (Meta.fetchAdsByBrand jsDate cfg brand options).
Proof.
  unfold Meta.fetchAdsByBrand. ensures_step. ensures_step; [ensures|].
  apply (Ensures_bind_total (fun _ => True)); [apply meta_lookup_total|].
  intros [entry|] _.
  - apply (Ensures_bind_total ReportedFailure);
      [apply meta_fetchAdsByPageId_typed|].
    intros r Hr. apply Ensures_ret. exact Hr.
  - apply Ensures_try_catch;
      [apply meta_coldSearch_typed|intros x; apply meta_handleError_typed].
Qed.

(** *** Google *)

Lemma google_coldSearch_typed cfg t dom options startTime :
  Ensures TypedFailure True (Google.coldSearch cfg t dom options startTime).
Proof. unfold Google.coldSearch. ensures. Qed.

Lemma google_fetchAdsByAdvertiserId_typed cfg aid options :
  Ensures TypedFailure False (Google.fetchAdsByAdvertiserId cfg aid options).
Proof. unfold Google.fetchAdsByAdvertiserId. ensures. Qed.

Lemma google_lookup_total t :
  Ensures (fun _ => True) False (Google.lookupInCache t).
Proof. intros e s. exact I. Qed.

Lemma google_fetchAdsByBrand_typed cfg brand options :
  Ensures TypedFailure False (Google.fetchAdsByBrand cfg brand options).
Proof.
  unfold Google.fetchAdsByBrand. ensures_step. ensures_step; [ensures|].
  apply (Ensures_bind_total (fun _ => True)); [apply google_lookup_total|].
  intros [entry|] _.
  - apply (Ensures_bind_total TypedFailure);
      [apply google_fetchAdsByAdvertiserId_typed|].
    intros r Hr. apply Ensures_ret. exact Hr.
  - apply Ensures_try_catch; [apply google_coldSearch_typed|intros x; ensures].
Qed.

End EnsuresFacts.

(** ** A successful result means that nothing failed *)

Module SuccessFacts.
Import Js Props JsFacts MonadFacts.

(** *** Meta *)

Lemma meta_handleError_fails error q startTime (e : Meta.Env) (s : Meta.State) :
  exists r s', Meta.handleError error q startTime e s = (Normal r, s')
               /\ success r = false.
Proof. destruct error; eexists _, _; split; reflexivity. Qed.

Lemma meta_saveBrandToCache_calls t pid name :
  Preserves s_calls (Meta.saveBrandToCache t pid name).
Proof. unfold Meta.saveBrandToCache, Meta.loadBrandsCache. preserves. Qed.

Lemma meta_fetchDatasetItems_run ds (e : Meta.Env) (s : Meta.State) items s' :
  Meta.fetchDatasetItems ds e s = (Normal items, s') ->
  e_items e ds = ItemsReturn items /\ s_calls s' = s_calls s.
Proof.
  unfold Meta.fetchDatasetItems, try_catch, listItems, throw.
  destruct (e_items e ds) as [l|x]; intros H; inversion H; subst.
  now split.
Qed.

(** The common beginning of the two fetches: run the actor with retries,
    then read its dataset. *)
Lemma meta_fetch_prefix cfg (rest : ActorRun -> list Meta.ApifyRawAdItem -> Meta.M FetchAdsResult)
    (e : Meta.Env) (s : Meta.State) r s' :
  (forall run items, Preserves s_calls (rest run items)) ->
  (result ← Meta.runActorWithRetry cfg 1;
   rawAds ← Meta.fetchDatasetItems (defaultDatasetId result);
   rest result rawAds) e s = (Normal r, s') ->
  exists run items,
    e_script e (s_calls s' - 1)%nat = CallReturns run
    /\ attemptError (CallReturns run) = None
    /\ e_items e (defaultDatasetId run) = ItemsReturn items.
Proof.
  intros Hrest. rewrite bind_run.
  pose proof (RetryFacts.runActorWithRetry_spec cfg 1 e s) as Hspec.
  destruct (Meta.runActorWithRetry cfg 1 e s) as [[run|x] s1]; [|discriminate].
  destruct Hspec as (k & Hk & Hcalls & _ & Hrun & Hnone). cbn [fst snd] in *.
  rewrite bind_run.
  destruct (Meta.fetchDatasetItems (defaultDatasetId run) e s1)
    as [[items|x] s2] eqn:Hitems; [|discriminate].
  apply meta_fetchDatasetItems_run in Hitems as [Hitems Hc2].
  intros Hres. specialize (Hrest run items e s2). unfold outcome in Hrest.
  rewrite Hres in Hrest.
  exists run, items. repeat split; [|exact Hnone|exact Hitems].
  replace (s_calls s' - 1)%nat with (s_calls s + k - 1)%nat by lia. exact Hrun.
Qed.

Lemma meta_fetchAdsByPageId_success jsDate cfg pid options
    (e : Meta.Env) (s : Meta.State) r s' :
  Meta.fetchAdsByPageId jsDate cfg pid options e s = (Normal r, s') ->
  success r = true ->
  exists run items,
    e_script e (s_calls s' - 1)%nat = CallReturns run
    /\ attemptError (CallReturns run) = None
    /\ e_items e (defaultDatasetId run) = ItemsReturn items.
Proof.
  unfold Meta.fetchAdsByPageId. rewrite bind_now.
  destruct (Meta.isBlank pid).
  { intros H Hs. inversion H; subst. discriminate. }
  intros H Hs.
  apply (try_success _ _ _ _ success) in H; [|intros; apply meta_handleError_fails|exact Hs].
  revert H. apply meta_fetch_prefix.
  intros run items. unfold Meta.normalizeAdM. preserves.
Qed.

Lemma meta_fetchAdsByBrand_success jsDate cfg brand options
    (e : Meta.Env) (s : Meta.State) r s' :
  Meta.fetchAdsByBrand jsDate cfg brand options e s = (Normal r, s') ->
  success r = true ->
  exists run items,
    e_script e (s_calls s' - 1)%nat = CallReturns run
    /\ attemptError (CallReturns run) = None
    /\ e_items e (defaultDatasetId run) = ItemsReturn items.
Proof.
  unfold Meta.fetchAdsByBrand. rewrite bind_now.
  destruct (Meta.isBlank brand).
  { intros H Hs. inversion H; subst. discriminate. }
  rewrite bind_run.
  match goal with
  | |- context [Meta.lookupBrandInCache ?t ?e ?s0] =>
      destruct (CacheFacts.lookupBrandInCache_run t e s0) as (s1 & -> & _)
  end.
  destruct (Meta.brands _ !! _) as [entry|].
  - rewrite bind_run.
    destruct (Meta.fetchAdsByPageId jsDate cfg (Meta.bce_pageId entry) options e s1)
      as [[r1|x] s2] eqn:Hid; [|discriminate].
    intros H Hs. inversion H; subst. cbn in Hs.
    exact (meta_fetchAdsByPageId_success _ _ _ _ _ _ _ _ Hid Hs).
  - intros H Hs.
    apply (try_success _ _ _ _ success) in H;
      [|intros; apply meta_handleError_fails|exact Hs].
    revert H. unfold Meta.coldSearch. apply meta_fetch_prefix.
    intros run items.
    pose proof meta_saveBrandToCache_calls as Hsave.
    unfold Meta.normalizeAdM. preserves.
Qed.

(** *** Google *)

Lemma google_saveToCache_calls t aid name dom :
  Preserves s_calls (Google.saveToCache t aid name dom).
Proof. unfold Google.saveToCache, Google.saveCache. preserves. Qed.

Lemma google_normalizeAd_calls term raw :
  Preserves s_calls (Google.normalizeAd term raw).
Proof. unfold Google.normalizeAd, Google.adIdOf. preserves. Qed.

(** The one call of the actor and the reading of its dataset. *)
Lemma google_fetch_prefix (failed : Google.M FetchAdsResult)
    (rest : ActorRun -> list Google.GoogleAdRawItem -> Google.M FetchAdsResult)
    (e : Google.Env) (s : Google.State) r s' :
  (forall e1 s1 r1 s2, failed e1 s1 = (Normal r1, s2) -> success r1 = false) ->
  (run ← actorCall 1;
   if negb (RunStatus_eqb (run_status run) SUCCEEDED) then failed
   else items ← listItems (defaultDatasetId run); rest run items) e s
  = (Normal r, s') ->
  success r = true ->
  exists run items,
    e_script e (s_calls s) = CallReturns run
    /\ run_status run = SUCCEEDED
    /\ e_items e (defaultDatasetId run) = ItemsReturn items.
Proof.
  intros Hfailed. rewrite bind_run. unfold actorCall at 1.
  destruct (e_script e (s_calls s)) as [run|x]; [|discriminate].
  destruct (RunStatus_eqb (run_status run) SUCCEEDED) eqn:Hst; cbn [negb].
  2: { intros H Hs. apply Hfailed in H. congruence. }
  rewrite bind_run. unfold listItems at 1.
  destruct (e_items e (defaultDatasetId run)) as [items|x] eqn:Hitems;
    [|discriminate].
  intros _ _. exists run, items. repeat split; [|exact Hitems].
  now destruct (run_status run).
Qed.

Lemma google_fetchAdsByAdvertiserId_success cfg aid options
    (e : Google.Env) (s : Google.State) r s' :
  Google.fetchAdsByAdvertiserId cfg aid options e s = (Normal r, s') ->
  success r = true ->
  exists run items,
    e_script e (s_calls s) = CallReturns run
    /\ run_status run = SUCCEEDED
    /\ e_items e (defaultDatasetId run) = ItemsReturn items.
Proof.
  unfold Google.fetchAdsByAdvertiserId. rewrite bind_now.
  intros H Hs.
  apply (try_success _ _ _ _ success) in H; [|intros; now eexists _, _|exact Hs].
  change (s_calls s) with (s_calls (ticked s)).
  revert H Hs. apply google_fetch_prefix.
  intros e1 s1 r1 s2 H. inversion H; subst. reflexivity.
Qed.

Lemma google_fetchAdsByBrand_success cfg brand options
    (e : Google.Env) (s : Google.State) r s' :
  Google.fetchAdsByBrand cfg brand options e s = (Normal r, s') ->
  success r = true ->
  exists run items,
    e_script e (s_calls s) = CallReturns run
    /\ run_status run = SUCCEEDED
    /\ e_items e (defaultDatasetId run) = ItemsReturn items.
Proof.
  unfold Google.fetchAdsByBrand. rewrite bind_now.
  destruct (Google.isBlank brand).
  { intros H Hs. inversion H; subst. discriminate. }
  rewrite bind_run.
  match goal with
  | |- context [Google.lookupInCache ?t ?e ?s0] =>
      destruct (CacheFacts.lookupInCache_run t e s0) as (s1 & -> & _ & _ & Hc & _)
  end.
  change (s_calls (ticked s)) with (s_calls s) in Hc. rewrite <- Hc.
  destruct (googleEntry _ _) as [entry|].
  - rewrite bind_run.
    destruct (Google.fetchAdsByAdvertiserId cfg (Google.ace_advertiserId entry)
                options e s1) as [[r1|x] s2] eqn:Hid; [|discriminate].
    intros H Hs. inversion H; subst. cbn in Hs.
    exact (google_fetchAdsByAdvertiserId_success _ _ _ _ _ _ _ Hid Hs).
  - intros H Hs.
    apply (try_success _ _ _ _ success) in H; [|intros; now eexists _, _|exact Hs].
    revert H Hs. unfold Google.coldSearch. apply google_fetch_prefix.
    intros e1 s1' r1 s2 H. inversion H; subst. reflexivity.
Qed.

End SuccessFacts.

(** C8.  [fetchAdsByBrand] of either service returns a result and never
    throws; a result with [success = false] has no ads and an error message,
    and a result with [success = true] is returned only when the last call
    of the actor returned a run whose status raises no error and the dataset
    of that run could be read.  A failure of the Google service always
    carries an error code.  A failure of the Meta service does not:
    [handleError] gives a plain error whose message speaks of a quota, a
    credit or a usage limit the code [ApifyErrorCode.USAGE_QUOTA_EXCEEDED],
    which the enum does not have, so the result carries no error code.  This
    happens when the actor client refuses the call with the message
    Monthly usage hard limit exceeded. *)
Theorem C8_quota_failure_has_no_error_code :
  (let res :=
     Meta.fetchAdsByBrand Fixtures.noDate Meta.DEFAULT_CONFIG "Acme"
       Fixtures.fiveAds Samples.overLimit (Fixtures.stateOf None None) in
   exists r, res.1 = Normal r
             /\ success r = false /\ ads r = []
             /\ error r = Some "Monthly usage hard limit exceeded"
             /\ errorCode r = None
             /\ s_calls res.2 = 1%nat)
  /\ (forall lowerMessage,
        Meta.classifyMessage lowerMessage = None <-> Spec.QuotaMessage lowerMessage)
  /\ (forall thrown q startTime (e : Meta.Env) (s : Meta.State),
        exists r s',
          Meta.handleError thrown q startTime e s = (Normal r, s')
          /\ success r = false /\ ads r = []
          /\ error r = Some (match thrown with
                             | ApifyError message _ | Error message => message
                             | NonError => "An unknown error occurred"
                             end)
          /\ errorCode r = match thrown with
                           | ApifyError _ code => Some code
                           | Error message =>
                               Meta.classifyMessage (Js.toLowerCase message)
                           | NonError => Some UNKNOWN
                           end)
  /\ (forall (jsDate : string -> option Z) mcfg brand options
             (me : Meta.Env) (ms : Meta.State),
        exists r s',
          Meta.fetchAdsByBrand jsDate mcfg brand options me ms = (Normal r, s')
          /\ Spec.ReportedFailure r
          /\ (success r = true ->
              exists run items,
                e_script me (s_calls s' - 1)%nat = CallReturns run
                /\ Props.attemptError (CallReturns run) = None
                /\ e_items me (defaultDatasetId run) = ItemsReturn items))
  /\ (forall gcfg brand options (ge : Google.Env) (gs : Google.State),
        exists r s',
          Google.fetchAdsByBrand gcfg brand options ge gs = (Normal r, s')
          /\ Props.TypedFailure r
          /\ (success r = true ->
              exists run items,
                e_script ge (s_calls gs) = CallReturns run
                /\ run_status run = SUCCEEDED
                /\ e_items ge (defaultDatasetId run) = ItemsReturn items)).
Proof.
  split; [|split; [|split; [|split]]].
  - eexists. split; [vm_compute; reflexivity|]. now repeat split.
  - intros l. unfold Meta.classifyMessage, Spec.QuotaMessage. cbv zeta beta.
    rewrite <- !JsFacts.includes_spec.
    match goal with
    | |- (if ?c then _ else _) = _ <-> ?P =>
        assert (Hc : c = true <-> P)
          by (repeat (rewrite orb_true_iff || rewrite andb_true_iff); tauto);
        rewrite <- Hc; clear Hc; destruct c
    end; [split; reflexivity|].
    split; [|discriminate].
    repeat match goal with
           | |- context [if ?b then _ else _] => destruct b
           end; discriminate.
  - intros thrown q startTime e s.
    destruct thrown; eexists _, _; (split; [reflexivity|]); now repeat split.
  - intros jsDate mcfg brand options me ms.
    destruct (EnsuresFacts.Ensures_run _ _ me ms
                (EnsuresFacts.meta_fetchAdsByBrand_typed jsDate mcfg brand options))
      as (r & s' & Hrun & Htyped).
    exists r, s'. split; [exact Hrun|]. split; [exact Htyped|].
    exact (SuccessFacts.meta_fetchAdsByBrand_success _ _ _ _ _ _ _ _ Hrun).
  - intros gcfg brand options ge gs.
    destruct (EnsuresFacts.Ensures_run _ _ ge gs
                (EnsuresFacts.google_fetchAdsByBrand_typed gcfg brand options))
      as (r & s' & Hrun & Htyped).
    exists r, s'. split; [exact Hrun|]. split; [exact Htyped|].
    exact (SuccessFacts.google_fetchAdsByBrand_success _ _ _ _ _ _ _ Hrun).
Qed.

(** Without a network the Meta service gives up after three attempts and
    the Google service after one; both report the failure in the result. *)
Example offline_fetch_reports_failure :
  (let res :=
     Meta.fetchAdsByBrand Fixtures.noDate Meta.DEFAULT_CONFIG "Acme"
       Fixtures.fiveAds Fixtures.offline (Fixtures.stateOf None None) in
   exists r, res.1 = Normal r
             /\ success r = false /\ ads r = []
             /\ error r = Some "network unreachable"
             /\ errorCode r = Some UNKNOWN
             /\ s_calls res.2 = 3%nat)
  /\ (let res :=
        Google.fetchAdsByBrand Google.DEFAULT_CONFIG "Acme"
          Fixtures.fiveAds Fixtures.offline (Fixtures.stateOf None None) in
      exists r, res.1 = Normal r
                /\ success r = false /\ ads r = []
                /\ error r = Some "network unreachable"
                /\ errorCode r = Some UNKNOWN
                /\ s_calls res.2 = 1%nat).
Proof. split; eexists; (split; [vm_compute; reflexivity|]); now repeat split. Qed.

(** ** The discovered path *)

Module DiscoveryFacts.
Import Js Props JsFacts MonadFacts.

(** *** Meta *)

Lemma meta_retry_preserves {T} (f : Meta.State -> T) cfg fuel :
  (forall a, Preserves f (actorCall a : Meta.M ActorRun)) ->
  (forall ms, Preserves f (sleep ms : Meta.M unit)) ->
  forall attempt, Preserves f (Meta.runActorWithRetry_fuel cfg fuel attempt).
Proof.
  intros Hcall Hsleep.
  induction fuel as [|fuel IH]; intros attempt; simpl;
    unfold Meta.runOnce; preserves.
Qed.

Lemma meta_retry_writes cfg attempt :
  Preserves cacheWrites (Meta.runActorWithRetry cfg attempt).
Proof.
  unfold Meta.runActorWithRetry. apply meta_retry_preserves; intros; preserves.
Qed.

Lemma meta_fetchDatasetItems_writes ds :
  Preserves cacheWrites (Meta.fetchDatasetItems ds).
Proof. unfold Meta.fetchDatasetItems. preserves. Qed.

Lemma meta_handleError_writes error q startTime :
  Preserves cacheWrites (Meta.handleError error q startTime).
Proof. unfold Meta.handleError. destruct error; preserves. Qed.

Lemma meta_fetchAdsByPageId_writes jsDate cfg pid options :
  Preserves cacheWrites (Meta.fetchAdsByPageId jsDate cfg pid options).
Proof.
  pose proof (meta_retry_writes cfg) as Hr.
  pose proof meta_fetchDatasetItems_writes as Hd.
  pose proof meta_handleError_writes as Hh.
  unfold Meta.fetchAdsByPageId, Meta.normalizeAdM. preserves.
Qed.

(** Normalising the records of a dataset returns, and touches only the
    clock. *)
Lemma meta_normalize_all jsDate brand items (e : Meta.Env) : forall s : Meta.State,
  exists normalized s',
    mapM (Meta.normalizeAdM jsDate (fun _ => brand)) items e s = (Normal normalized, s')
    /\ MetaNormalized jsDate brand items normalized
    /\ s_trace s' = s_trace s /\ s_cache s' = s_cache s /\ s_file s' = s_file s
    /\ s_calls s' = s_calls s.
Proof.
  induction items as [|raw items IH]; intros s.
  - exists [], s. split; [reflexivity|]. split; [constructor|auto].
  - rewrite mapM_cons.
    change (Meta.normalizeAdM jsDate (fun _ => brand) raw e s)
      with (Normal (Meta.normalizeAd jsDate raw brand (e_clock e (s_ticks s))),
            ticked s).
    destruct (IH (ticked s)) as (ads & s' & -> & Hn & Ht & Hc & Hf & Hk).
    eexists _, _. split; [reflexivity|].
    split; [constructor; [now eexists|exact Hn]|auto].
Qed.

(** The cache writes of a save. *)
Lemma meta_save_writes t pid name (e : Meta.Env) (s : Meta.State) :
  exists s',
    Meta.saveBrandToCache t pid name e s = (Normal tt, s')
    /\ SaveWrites (Meta.normalizeKey t) pid (cacheWrites s) (cacheWrites s').
Proof.
  unfold Meta.saveBrandToCache, try_catch. rewrite bind_run.
  rewrite CacheFacts.loadBrandsCache_run.
  assert (Hh : cacheWrites (metaHydrated s) = cacheWrites s).
  { unfold metaHydrated. now destruct (s_cache s). }
  destruct (Meta.brands (metaLoaded s) !! Meta.normalizeKey t).
  - eexists. split; [reflexivity|]. left. exact Hh.
  - unfold mbind, M_bind, bind, set_cache, emit, now, writeCacheFile. cbn.
    destruct (e_writable e); cbn; eexists; (split; [reflexivity|]);
      unfold cacheWrites in *; cbn; rewrite Hh; [right; right|right; left];
      reflexivity.
Qed.

Lemma In_prefix {A} (x : A) n : forall l, In x (firstn n l) -> In x l.
Proof.
  induction n as [|n IH]; intros [|y l]; simpl; try tauto.
  intros [H|H]; [now left|right; now apply IH].
Qed.

Lemma filter_fromPage pid normalized n :
  Forall (fun ad => pageId ad = Some pid)
         (slice0 (List.filter (Meta.fromPage pid) normalized) n).
Proof.
  apply Forall_forall. intros ad Hin. unfold slice0 in Hin.
  apply list_elem_of_In, In_prefix, filter_In in Hin as [_ H].
  unfold Meta.fromPage in H. destruct (pageId ad) as [p|]; [|discriminate].
  apply streq_spec in H. now subst.
Qed.

(** The cold search of the Meta service: it ends as discovered, as described,
    or without a cache write. *)
Lemma meta_coldSearch_run jsDate cfg brand options startTime
    (e : Meta.Env) (s : Meta.State) :
  outcome (Meta.coldSearch jsDate cfg (trim brand) options startTime) e s
    (fun r s' =>
       (brandSource r = Some discovered
        /\ MetaDiscovered jsDate cfg brand options e s s' r)
       \/ (brandSource r = Some not_verified
           /\ cacheWrites s' = cacheWrites s))
    (fun _ s' => cacheWrites s' = cacheWrites s).
Proof.
  unfold outcome, Meta.coldSearch. rewrite bind_run.
  pose proof (meta_retry_writes cfg 1 e s) as Hw1. unfold outcome in Hw1.
  destruct (Meta.runActorWithRetry cfg 1 e s) as [[run|x] s1]; [|exact Hw1].
  rewrite bind_run.
  pose proof (meta_fetchDatasetItems_writes (defaultDatasetId run) e s1) as Hw2.
  unfold outcome in Hw2.
  destruct (Meta.fetchDatasetItems (defaultDatasetId run) e s1)
    as [[items|x] s2] eqn:Hitems; [|congruence].
  apply SuccessFacts.meta_fetchDatasetItems_run in Hitems as [Hitems _].
  destruct (length items =? 0)%nat.
  { rewrite bind_now. right. split; [reflexivity|]. unfold cacheWrites in *.
    cbn. congruence. }
  rewrite bind_run.
  destruct (meta_normalize_all jsDate (trim brand) items e s2)
    as (normalized & s3 & -> & Hnorm & Ht3 & _).
  assert (Hw3 : cacheWrites s3 = cacheWrites s)
    by (unfold cacheWrites in *; rewrite Ht3; congruence).
  destruct (Meta.findBestMatchingPage normalized (trim brand))
    as [[pid name]|] eqn:Hbest.
  2: { rewrite bind_now. right. split; [reflexivity|]. unfold cacheWrites in *.
       cbn. congruence. }
  destruct (ResolverFacts.findBestMatchingPage_sound _ _ _ Hbest) as (_ & Hpid & _).
  cbn [Meta.pm_pageId Meta.pm_pageName] in *.
  assert (Hne : isEmpty pid = false) by (destruct pid; [congruence|reflexivity]).
  rewrite Hne. cbn [negb]. rewrite bind_run.
  destruct (meta_save_writes (trim brand) pid name e s3) as (s4 & -> & Hsave).
  rewrite bind_now. left. split; [reflexivity|].
  exists run, items, normalized, pid, name. cbn.
  repeat split; try assumption; try reflexivity.
  - apply filter_fromPage.
  - fold (cacheWrites s4). now rewrite <- Hw3.
Qed.

(** A Meta fetch ends as discovered, as described, or without a cache
    write. *)
Lemma meta_fetchAdsByBrand_run jsDate cfg brand options
    (e : Meta.Env) (s : Meta.State) r s' :
  Meta.fetchAdsByBrand jsDate cfg brand options e s = (Normal r, s') ->
  (brandSource r = Some discovered
   /\ MetaDiscovered jsDate cfg brand options e s s' r)
  \/ (brandSource r <> Some discovered /\ cacheWrites s' = cacheWrites s).
Proof.
  unfold Meta.fetchAdsByBrand. rewrite bind_now.
  destruct (Meta.isBlank brand).
  { rewrite bind_now. intros H. inversion H; subst. right. now split. }
  rewrite bind_run.
  match goal with
  | |- context [Meta.lookupBrandInCache ?t ?e ?s0] =>
      destruct (CacheFacts.lookupBrandInCache_run t e s0)
        as (s1 & -> & _ & _ & _ & Hw1 & _)
  end.
  change (cacheWrites (ticked s)) with (cacheWrites s) in Hw1.
  destruct (Meta.brands _ !! _) as [entry|].
  - rewrite bind_run.
    pose proof (meta_fetchAdsByPageId_writes jsDate cfg (Meta.bce_pageId entry)
                  options e s1) as Hw2. unfold outcome in Hw2.
    destruct (Meta.fetchAdsByPageId jsDate cfg (Meta.bce_pageId entry) options e s1)
      as [[r1|x] s2]; [|discriminate].
    intros H. inversion H; subst. right. split; [discriminate|congruence].
  - unfold try_catch.
    pose proof (meta_coldSearch_run jsDate cfg brand options
                  (e_clock e (s_ticks s)) e s1) as Hcold.
    unfold outcome in Hcold.
    destruct (Meta.coldSearch jsDate cfg (trim brand) options
                (e_clock e (s_ticks s)) e s1) as [[r1|x] s2].
    + intros H. inversion H; subst.
      destruct Hcold as [[Hd Hdisc]|[Hn Hw]].
      * left. split; [exact Hd|].
        destruct Hdisc as (run & items & normalized & pid & name & H1 & H2 & H3
                           & H4 & H5 & H6 & H7 & H8 & H9).
        exists run, items, normalized, pid, name.
        rewrite Hw1 in H9. now repeat split.
      * right. split; [congruence|congruence].
    + pose proof (meta_handleError_writes x (trim brand) (e_clock e (s_ticks s))
                    e s2) as Hw3. unfold outcome in Hw3.
      destruct (SuccessFacts.meta_handleError_fails x (trim brand)
                  (e_clock e (s_ticks s)) e s2) as (r2 & s3 & Hh & _).
      rewrite Hh in Hw3 |- *. intros H. inversion H; subst.
      right. split; [|congruence].
      revert Hh. unfold Meta.handleError, Meta.failureResult.
      destruct x; cbn; intros Hh; inversion Hh; discriminate.
Qed.

(** *** Google *)

Lemma google_normalize_all term items (e : Google.Env) : forall s : Google.State,
  exists normalized s',
    mapM (Google.normalizeAd term) items e s = (Normal normalized, s')
    /\ GoogleNormalized term items normalized
    /\ s_trace s' = s_trace s /\ s_cache s' = s_cache s.
Proof.
  induction items as [|raw items IH]; intros s.
  - exists [], s. split; [reflexivity|]. split; [constructor|auto].
  - rewrite mapM_cons.
    destruct (GoogleNormalizerFacts.normalizeAd_runs term raw e s)
      as (adId & t & s1 & -> & _ & Hc1 & _ & _ & Ht1).
    destruct (IH s1) as (ads & s' & -> & Hn & Ht & Hc).
    eexists _, _. split; [reflexivity|].
    split; [constructor; [now eexists _, _|exact Hn]|].
    split; congruence.
Qed.

Lemma google_save_writes t aid name dom (e : Google.Env) (s : Google.State) :
  exists s',
    Google.saveToCache t aid name dom e s = (Normal tt, s')
    /\ (cacheWrites s' = EvCacheSave (Google.normalizeKey t) aid :: cacheWrites s
        \/ cacheWrites s'
           = EvWriteFile :: EvCacheSave (Google.normalizeKey t) aid :: cacheWrites s).
Proof.
  unfold Google.saveToCache, Google.saveCache, try_catch.
  unfold mbind, M_bind, bind, get, set_cache, emit, now, writeCacheFile. cbn.
  destruct (e_writable e); cbn; eexists; (split; [reflexivity|]);
    unfold cacheWrites; cbn; [right|left]; reflexivity.
Qed.

Lemma google_fetchAdsByAdvertiserId_writes cfg aid options :
  Preserves cacheWrites (Google.fetchAdsByAdvertiserId cfg aid options).
Proof.
  unfold Google.fetchAdsByAdvertiserId, Google.normalizeAd, Google.adIdOf.
  preserves.
Qed.

(** The cold search of the Google service: it ends as discovered, as
    described, or without a cache write. *)
Lemma google_coldSearch_run cfg brand dom options startTime
    (e : Google.Env) (s : Google.State) :
  outcome (Google.coldSearch cfg (trim brand) dom options startTime) e s
    (fun r s' =>
       (brandSource r = Some discovered
        /\ GoogleDiscovered cfg brand options e s s' r)
       \/ (brandSource r <> Some discovered
           /\ cacheWrites s' = cacheWrites s))
    (fun _ s' => cacheWrites s' = cacheWrites s).
Proof.
  unfold outcome, Google.coldSearch. rewrite bind_run. unfold actorCall at 1.
  destruct (e_script e (s_calls s)) as [run|x]; [|reflexivity].
  destruct (negb (RunStatus_eqb (run_status run) SUCCEEDED)).
  { rewrite bind_now. right. split; [discriminate|reflexivity]. }
  rewrite bind_run. unfold listItems at 1.
  destruct (e_items e (defaultDatasetId run)) as [items|x] eqn:Hitems;
    [|reflexivity].
  destruct items as [|firstAd rest].
  { rewrite bind_now. right. split; [discriminate|reflexivity]. }
  rewrite bind_run.
  match goal with
  | |- context [mapM _ _ e ?s2] =>
      destruct (google_normalize_all (trim brand) (firstAd :: rest) e s2)
        as (normalized & s3 & -> & Hnorm & Ht3 & _)
  end.
  assert (Hw3 : cacheWrites s3 = cacheWrites s)
    by (unfold cacheWrites; rewrite Ht3; reflexivity).
  rewrite bind_run.
  destruct (truthy (Google.g_advertiserId firstAd)) eqn:Hid.
  - destruct (Google.g_advertiserId firstAd) as [aid|] eqn:Haid; [|discriminate].
    cbn [default].
    match goal with
    | |- context [Google.saveToCache ?t ?a ?n ?d e s3] =>
        destruct (google_save_writes t a n d e s3) as (s4 & -> & Hsave)
    end.
    rewrite bind_now. left. split; [reflexivity|].
    exists run, firstAd, rest, normalized, aid. cbn.
    repeat split; try assumption; try reflexivity.
    + intros ->. discriminate.
    + fold (cacheWrites s4). now rewrite <- Hw3.
  - unfold mret at 1, M_ret, ret. rewrite bind_now.
    right. split; [discriminate|exact Hw3].
Qed.

(** A Google fetch ends as discovered, as described, or without a cache
    write. *)
Lemma google_fetchAdsByBrand_run cfg brand options
    (e : Google.Env) (s : Google.State) r s' :
  Google.fetchAdsByBrand cfg brand options e s = (Normal r, s') ->
  (brandSource r = Some discovered
   /\ GoogleDiscovered cfg brand options e s s' r)
  \/ (brandSource r <> Some discovered /\ cacheWrites s' = cacheWrites s).
Proof.
  unfold Google.fetchAdsByBrand. rewrite bind_now.
  destruct (Google.isBlank brand).
  { rewrite bind_now. intros H. inversion H; subst. right. now split. }
  rewrite bind_run.
  match goal with
  | |- context [Google.lookupInCache ?t ?e ?s0] =>
      destruct (CacheFacts.lookupInCache_run t e s0)
        as (s1 & -> & _ & _ & _ & Hw1 & _)
  end.
  change (cacheWrites (ticked s)) with (cacheWrites s) in Hw1.
  destruct (googleEntry _ _) as [entry|].
  - rewrite bind_run.
    pose proof (google_fetchAdsByAdvertiserId_writes cfg
                  (Google.ace_advertiserId entry) options e s1) as Hw2.
    unfold outcome in Hw2.
    destruct (Google.fetchAdsByAdvertiserId cfg (Google.ace_advertiserId entry)
                options e s1) as [[r1|x] s2]; [|discriminate].
    intros H. inversion H; subst. right. split; [discriminate|congruence].
  - unfold try_catch.
    pose proof (google_coldSearch_run cfg brand (Google.buildDomain (trim brand))
                  options (e_clock e (s_ticks s)) e s1) as Hcold.
    unfold outcome in Hcold.
    destruct (Google.coldSearch cfg (trim brand) (Google.buildDomain (trim brand))
                options (e_clock e (s_ticks s)) e s1) as [[r1|x] s2].
    + intros H. inversion H; subst.
      destruct Hcold as [[Hd Hdisc]|[Hn Hw]].
      * left. split; [exact Hd|].
        destruct Hdisc as (run & firstAd & rest & normalized & aid & H1 & H2 & H3
                           & H4 & H5 & H6 & H7).
        exists run, firstAd, rest, normalized, aid.
        rewrite Hw1 in H7. now repeat split.
      * right. split; [exact Hn|congruence].
    + rewrite bind_now. intros H. inversion H; subst.
      right. split; [discriminate|]. unfold cacheWrites in *. cbn. congruence.
Qed.

End DiscoveryFacts.

(** C4, as the code has it.  A Meta fetch that ends with
    [brandSource = discovered] has selected one page with a non-empty id
    among the normalised records of the dataset, returns the ads of that
    page only, filtered first and cut to [maxAds] afterwards, and has
    written the cache at most for that page; a Meta fetch that ends
    otherwise has not written the cache.  A Google fetch that ends with
    [brandSource = discovered] has saved the advertiser of the first record,
    whose id is not empty, and returns the first [maxAds] normalised ads
    without filtering them by advertiser; a Google fetch that ends otherwise
    has not written the cache. *)
Theorem C4_discovered_path (jsDate : string -> option Z)
    (mcfg : Meta.Config) (gcfg : Google.Config) (brand : string)
    (options : FetchAdsOptions)
    (me : Meta.Env) (ms ms' : Meta.State) (mr : FetchAdsResult)
    (ge : Google.Env) (gs gs' : Google.State) (gr : FetchAdsResult) :
  (Meta.fetchAdsByBrand jsDate mcfg brand options me ms = (Normal mr, ms') ->
   (brandSource mr = Some discovered ->
    Props.MetaDiscovered jsDate mcfg brand options me ms ms' mr)
   /\ (brandSource mr <> Some discovered ->
       Props.cacheWrites ms' = Props.cacheWrites ms))
  /\ (Google.fetchAdsByBrand gcfg brand options ge gs = (Normal gr, gs') ->
      (brandSource gr = Some discovered ->
       Props.GoogleDiscovered gcfg brand options ge gs gs' gr)
      /\ (brandSource gr <> Some discovered ->
          Props.cacheWrites gs' = Props.cacheWrites gs)).
Proof.
  split; intros Hrun.
  - destruct (DiscoveryFacts.meta_fetchAdsByBrand_run _ _ _ _ _ _ _ _ Hrun)
      as [[Hd Hdisc]|[Hn Hw]]; split; intros H; congruence || assumption.
  - destruct (DiscoveryFacts.google_fetchAdsByBrand_run _ _ _ _ _ _ _ Hrun)
      as [[Hd Hdisc]|[Hn Hw]]; split; intros H; congruence || assumption.
Qed.

(** The Acme scenario: the three ads of Widgets Inc come first in the
    dataset, page 1 is selected, and five ads of page 1 are returned. *)
Lemma C4_witness :
  exists r s',
    Meta.fetchAdsByBrand Fixtures.noDate Meta.DEFAULT_CONFIG "Acme"
      Fixtures.fiveAds Fixtures.acmeEnv (Fixtures.stateOf None None)
    = (Normal r, s')
    /\ brandSource r = Some discovered
    /\ map pageId (ads r) = repeat (Some "1") 5
    /\ Props.MetaDiscovered Fixtures.noDate Meta.DEFAULT_CONFIG "Acme"
         Fixtures.fiveAds Fixtures.acmeEnv (Fixtures.stateOf None None) s' r.
Proof.
  assert (Hsrc :
    match (Meta.fetchAdsByBrand Fixtures.noDate Meta.DEFAULT_CONFIG "Acme"
             Fixtures.fiveAds Fixtures.acmeEnv (Fixtures.stateOf None None)).1 with
    | Normal r => (brandSource r, map pageId (ads r))
    | Thrown _ => (None, [])
    end = (Some discovered, repeat (Some "1") 5))
    by (vm_compute; reflexivity).
  destruct (Meta.fetchAdsByBrand Fixtures.noDate Meta.DEFAULT_CONFIG "Acme"
              Fixtures.fiveAds Fixtures.acmeEnv (Fixtures.stateOf None None))
    as [[r|x] s'] eqn:Hrun; cbn [fst] in Hsrc; [|discriminate].
  injection Hsrc as Hd Hids.
  exists r, s'. split; [reflexivity|]. split; [exact Hd|]. split; [exact Hids|].
  exact (proj1 (proj1 (C4_discovered_path Fixtures.noDate Meta.DEFAULT_CONFIG
                         Google.DEFAULT_CONFIG "Acme" Fixtures.fiveAds
                         Fixtures.acmeEnv (Fixtures.stateOf None None) s' r
                         Fixtures.offline (Fixtures.stateOf None None)
                         (Fixtures.stateOf None None) r) Hrun) Hd).
Defined.

(** A Google fetch that ends as discovered returns the ads of every
    advertiser in the dataset: here the resolved advertiser is AR1 and the
    second ad is of AR2. *)
Lemma C4_counterexample :
  match (Google.fetchAdsByBrand Google.DEFAULT_CONFIG "Nike" Fixtures.fiveAds
           Fixtures.twoAdvertisersEnv (Fixtures.stateOf None None)) with
  | (Normal r, s') =>
      brandSource r = Some discovered
      /\ Props.googleEntry s' "nike"
         = Some {| Google.ace_advertiserId := "AR1"; Google.ace_name := "Nike";
                   Google.ace_domain := "nike.com" |}
      /\ map pageId (ads r) = [Some "AR1"; Some "AR2"]
      /\ ~ Forall (fun ad => pageId ad = Some "AR1") (ads r)
  | (Thrown _, _) => False
  end.
Proof.
  assert (Hv :
    match (Google.fetchAdsByBrand Google.DEFAULT_CONFIG "Nike" Fixtures.fiveAds
             Fixtures.twoAdvertisersEnv (Fixtures.stateOf None None)) with
    | (Normal r, s') =>
        (brandSource r, Props.googleEntry s' "nike", map pageId (ads r))
    | (Thrown _, _) => (None, None, [])
    end
    = (Some discovered,
       Some {| Google.ace_advertiserId := "AR1"; Google.ace_name := "Nike";
               Google.ace_domain := "nike.com" |},
       [Some "AR1"; Some "AR2"]))
    by (vm_compute; reflexivity).
  destruct (Google.fetchAdsByBrand Google.DEFAULT_CONFIG "Nike" Fixtures.fiveAds
              Fixtures.twoAdvertisersEnv (Fixtures.stateOf None None))
    as [[r|x] s']; [|discriminate].
  injection Hv as Hd Hentry Hids.
  repeat split; try assumption.
  intros H. destruct (ads r) as [|a1 [|a2 l]]; try discriminate.
  apply Forall_cons_1 in H as [_ H]. apply Forall_cons_1 in H as [H _].
  simpl in Hids. congruence.
Qed.

(* ===================================================================== *)
(** * Further properties of the code *)
(* ===================================================================== *)

(** ** Identity resolver: grouping and selection *)

Module GroupingFacts.
Import Js Props JsFacts Meta Spec.
Local Open Scope list_scope.

Lemma pm_get_snoc m k v p :
  pm_get (m ++ [(k, v)]) p
  = match pm_get m p with
    | Some x => Some x
    | None => if streq k p then Some v else None
    end.
Proof.
  induction m as [|[k0 v0] m IH]; simpl; [reflexivity|].
  destruct (streq k0 p); [reflexivity|exact IH].
Qed.

Lemma streq_refl a : streq a a = true.
Proof. apply String.eqb_refl. Qed.

Lemma streq_neq a b : a <> b -> streq a b = false.
Proof. intros H. now apply String.eqb_neq. Qed.

Lemma streq_cases a b : (a = b /\ streq a b = true) \/ (a <> b /\ streq a b = false).
Proof.
  unfold streq. destruct (String.eqb_spec a b); [left|right]; now split.
Qed.

Lemma pm_get_incr m k p :
  pm_get (pm_incr m k) p
  = if streq k p then bump <$> pm_get m p else pm_get m p.
Proof.
  induction m as [|[k0 v0] m IH]; cbn [pm_get pm_incr].
  - now destruct (streq k p).
  - destruct (streq_cases k0 k) as [[-> ->]|[Hk0 ->]]; cbn [pm_get].
    + destruct (streq_cases k p) as [[-> ->]|[Hkp ->]]; reflexivity.
    + rewrite IH. destruct (streq_cases k0 p) as [[-> ->]|[Hk0p ->]]; [|reflexivity].
      now rewrite (streq_neq k p) by congruence.
Qed.

Lemma pm_incr_keys m k : map fst (pm_incr m k) = map fst m.
Proof.
  induction m as [|[k0 v0] m IH]; simpl; [reflexivity|].
  destruct (streq k0 k); simpl; [reflexivity|now rewrite IH].
Qed.

Lemma pm_get_None_keys m k : pm_get m k = None -> ~ In k (map fst m).
Proof.
  induction m as [|[k0 v0] m IH]; simpl; [tauto|].
  unfold streq. destruct (String.eqb_spec k0 k) as [->|Hne]; [discriminate|].
  intros H [Heq|Hin]; [congruence|now apply IH].
Qed.

Lemma pm_get_In m k v : NoDup (map fst m) -> (In (k, v) m <-> pm_get m k = Some v).
Proof.
  induction m as [|[k0 v0] m IH]; simpl; intros Hnd.
  - split; [tauto|discriminate].
  - inversion Hnd as [|? ? Hnotin Hnd']; subst.
    unfold streq. destruct (String.eqb_spec k0 k) as [->|Hne].
    + split.
      * intros [Heq|Hin]; [congruence|].
        exfalso. apply Hnotin. apply list_elem_of_In. apply (in_map fst) in Hin. exact Hin.
      * intros [= ->]. now left.
    + rewrite <- (IH Hnd'). split; [intros [Heq|Hin]; [congruence|exact Hin]|tauto].
Qed.

Lemma find_snoc {A} (f : A -> bool) l a :
  List.find f (l ++ [a])
  = match List.find f l with
    | Some x => Some x
    | None => if f a then Some a else None
    end.
Proof.
  induction l as [|x l IH]; simpl; [reflexivity|].
  destruct (f x); [reflexivity|exact IH].
Qed.

Lemma find_None_filter {A} (f : A -> bool) l :
  List.find f l = None -> List.filter f l = [].
Proof.
  induction l as [|x l IH]; simpl; [reflexivity|].
  destruct (f x); [discriminate|exact IH].
Qed.

Lemma countOfPage_snoc pid ads ad :
  countOfPage pid (ads ++ [ad])
  = (countOfPage pid ads + (if fromPage pid ad then 1 else 0))%nat.
Proof.
  unfold countOfPage. rewrite List.filter_app, length_app. simpl.
  now destruct (fromPage pid ad).
Qed.

Lemma pageEntry_snoc_other pid ads ad :
  fromPage pid ad = false -> pageEntry pid (ads ++ [ad]) = pageEntry pid ads.
Proof.
  intros H. unfold pageEntry, firstOfPage.
  rewrite find_snoc, countOfPage_snoc, H, Nat.add_0_r.
  now destruct (List.find (fromPage pid) ads).
Qed.

Lemma groupByPage_snoc ads ad :
  groupByPage (ads ++ [ad]) = groupStep (groupByPage ads) ad.
Proof. unfold groupByPage. now rewrite fold_left_app. Qed.

(** The page map holds, for every page id, the entry of the page. *)
Lemma groupByPage_get ads : forall pid,
  pm_get (groupByPage ads) pid = pageEntry pid ads.
Proof.
  induction ads as [|ad ads IH] using rev_ind; intros pid.
  - unfold pageEntry. simpl. now destruct (isEmpty pid).
  - rewrite groupByPage_snoc. unfold groupStep.
    destruct (pageId ad) as [q|] eqn:Hq.
    2: { rewrite pageEntry_snoc_other; [apply IH|]. unfold fromPage. now rewrite Hq. }
    destruct (isEmpty q) eqn:Hqe.
    { destruct q; [|discriminate].
      destruct (isEmpty pid) eqn:Hpe.
      - rewrite IH. unfold pageEntry. now rewrite Hpe.
      - rewrite pageEntry_snoc_other; [apply IH|].
        unfold fromPage. rewrite Hq. now destruct pid. }
    assert (Hfrom : fromPage pid ad = streq q pid) by (unfold fromPage; now rewrite Hq).
    destruct (pm_get (groupByPage ads) q) as [v|] eqn:Hget.
    + rewrite pm_get_incr. unfold streq in *.
      destruct (String.eqb_spec q pid) as [->|Hne].
      * rewrite Hget. rewrite IH in Hget. unfold pageEntry, firstOfPage in *.
        rewrite Hqe in *. rewrite find_snoc, countOfPage_snoc, Hfrom.
        destruct (List.find (fromPage pid) ads) as [a0|]; [|discriminate].
        injection Hget as <-. cbn. unfold bump. cbn. now rewrite Nat.add_1_r.
      * rewrite pageEntry_snoc_other by exact Hfrom. apply IH.
    + rewrite pm_get_snoc. unfold streq in *.
      destruct (String.eqb_spec q pid) as [->|Hne].
      * rewrite Hget. rewrite IH in Hget. unfold pageEntry, firstOfPage in *.
        rewrite Hqe in *. rewrite find_snoc, countOfPage_snoc, Hfrom.
        destruct (List.find (fromPage pid) ads) as [a0|] eqn:Hfind; [discriminate|].
        unfold countOfPage. now rewrite (find_None_filter _ _ Hfind).
      * rewrite pageEntry_snoc_other by exact Hfrom. rewrite IH.
        now destruct (pageEntry pid ads).
Qed.

Lemma groupByPage_keys ads : NoDup (map fst (groupByPage ads)).
Proof.
  induction ads as [|ad ads IH] using rev_ind; [constructor|].
  rewrite groupByPage_snoc. unfold groupStep.
  destruct (pageId ad) as [q|]; [|exact IH].
  destruct (isEmpty q); [exact IH|].
  destruct (pm_get (groupByPage ads) q) as [v|] eqn:Hget.
  - now rewrite pm_incr_keys.
  - rewrite map_app. simpl. apply MetaNormalizerFacts.NoDup_snoc; [exact IH|].
    now apply pm_get_None_keys.
Qed.

End GroupingFacts.

Module SelectionFacts.
Import Js Props JsFacts Meta Spec.
Local Open Scope list_scope.

Lemma scoreStep_FirstBest sl l best x :
  FirstBest sl l best -> FirstBest sl (l ++ [x]) (scoreStep sl best x).
Proof.
  destruct x as [pid info]. unfold scoreStep.
  fold (pageScore sl info).
  destruct (pageScore sl info =? 0)%nat eqn:Hz.
  - apply Nat.eqb_eq in Hz. destruct best as [b|]; simpl.
    + intros (before & i & after & -> & Hn & Hs & Hp & Hb & Ha).
      exists before, i, (after ++ [(pid, info)])%list.
      rewrite <- app_assoc. simpl. repeat split; auto.
      intros p j Hin Hj. apply in_app_or in Hin as [Hin|[[= -> ->]|[]]];
        [now apply (Ha p)|congruence].
    + intros H p j Hin. apply in_app_or in Hin as [Hin|[[= -> ->]|[]]];
        [now apply (H p)|exact Hz].
  - apply Nat.eqb_neq in Hz. destruct best as [b|]; simpl.
    + intros (before & i & after & -> & Hn & Hs & Hp & Hb & Ha).
      fold (totalScore sl info).
      destruct (bm_score b <? totalScore sl info)%nat eqn:Hlt.
      * apply Nat.ltb_lt in Hlt. simpl.
        exists (before ++ (bm_pageId b, i) :: after)%list, info, [].
        repeat split; auto.
        -- intros p j Hin Hj. apply in_app_or in Hin as [Hin|[[= <- <-]|Hin]].
           ++ specialize (Hb p j Hin Hj). lia.
           ++ lia.
           ++ specialize (Ha p j Hin Hj). lia.
        -- intros p j [].
      * apply Nat.ltb_ge in Hlt. simpl.
        exists before, i, (after ++ [(pid, info)])%list.
        rewrite <- app_assoc. simpl. repeat split; auto.
        intros p j Hin Hj. apply in_app_or in Hin as [Hin|[[= -> ->]|[]]];
          [now apply (Ha p)|lia].
    + intros H. exists l, info, []. repeat split; auto.
      * intros p j Hin Hj. now specialize (H p j Hin).
      * intros p j [].
Qed.

Lemma fold_scoreStep_FirstBest sl l :
  FirstBest sl l (fold_left (scoreStep sl) l None).
Proof.
  induction l as [|x l IH] using rev_ind.
  - simpl. intros p i [].
  - rewrite fold_left_app. simpl. now apply scoreStep_FirstBest.
Qed.

Lemma nameScore_values a b :
  nameScore a b = 0%nat \/ nameScore a b = 100%nat
  \/ nameScore a b = 500%nat \/ nameScore a b = 1000%nat.
Proof.
  unfold nameScore. destruct (streq a b); [tauto|].
  destruct (_ || _); [tauto|]. destruct (_ || _); tauto.
Qed.

End SelectionFacts.

(** X1.  The grouping loop of [findBestMatchingPage] builds one entry per
    page: the keys of the page map are distinct, and the map holds an entry
    for a page id exactly when the id is not empty and some ad carries it;
    the entry then has the display name of the first ad of the page and the
    number of ads of the page. *)
Theorem X1_groupByPage_entries (ads : list Ad) :
  NoDup (map fst (Meta.groupByPage ads))
  /\ forall pid info,
       In (pid, info) (Meta.groupByPage ads)
       <-> pid <> ""
           /\ exists ad, Spec.firstOfPage pid ads = Some ad
                /\ info = {| Meta.pi_pageName := brandName ad;
                             Meta.pi_count := Spec.countOfPage pid ads |}.
Proof.
  split; [apply GroupingFacts.groupByPage_keys|].
  intros pid info.
  rewrite (GroupingFacts.pm_get_In _ _ _ (GroupingFacts.groupByPage_keys ads)).
  rewrite GroupingFacts.groupByPage_get. unfold Spec.pageEntry.
  destruct pid as [|c pid]; simpl.
  - split; [discriminate|]. intros [H _]. congruence.
  - destruct (Spec.firstOfPage (String c pid) ads) as [ad|].
    + split.
      * intros [= <-]. split; [discriminate|]. now exists ad.
      * intros [_ (ad' & [= <-] & ->)]. reflexivity.
    + split; [discriminate|]. intros [_ (ad' & [=] & _)].
Qed.

(** X2.  [findBestMatchingPage] selects no page exactly when the name of no
    page of the page map is textually related to the search term, compared
    in lower case: a single related candidate is enough for a selection. *)
Theorem X2_no_selection_iff_no_related_name (ads : list Ad) (searchTerm : string) :
  Meta.findBestMatchingPage ads searchTerm = None
  <-> forall pid info, In (pid, info) (Meta.groupByPage ads) ->
        ~ Props.TextualRelation (Js.toLowerCase (Meta.pi_pageName info))
                                (Js.toLowerCase searchTerm).
Proof.
  unfold Meta.findBestMatchingPage.
  pose proof (SelectionFacts.fold_scoreStep_FirstBest (Js.toLowerCase searchTerm)
                (Meta.groupByPage ads)) as H.
  destruct (Meta.groupByPage ads) as [|x l] eqn:Hmap.
  - simpl. split; [intros _ pid info []|reflexivity].
  - cbn [length Nat.eqb].
    destruct (fold_left _ (x :: l) None) as [b|]; simpl in H.
    + split; [discriminate|]. intros Hnone. exfalso.
      destruct H as (before & info & after & Heq & _ & _ & Hp & _).
      apply (Hnone (Meta.bm_pageId b) info).
      * rewrite Heq. apply in_or_app. right. now left.
      * now apply ResolverFacts.nameScore_related.
    + split; [|reflexivity]. intros _ pid info Hin Hrel.
      apply ResolverFacts.related_nameScore in Hrel. apply Hrel.
      exact (H pid info Hin).
Qed.

(** X3.  The page that [findBestMatchingPage] selects is an entry of the
    page map whose name scores above zero; its total score (name score plus
    the number of ads, capped at 50) is above that of every such entry
    before it in the map, and not below that of any such entry after it: the
    best candidate wins, and among equal candidates the one first met. *)
Theorem X3_selection_is_first_best (ads : list Ad) (searchTerm : string)
    (r : Meta.PageMatch) :
  Meta.findBestMatchingPage ads searchTerm = Some r ->
  let sl := Js.toLowerCase searchTerm in
  exists before info after,
    Meta.groupByPage ads = (before ++ (Meta.pm_pageId r, info) :: after)%list
    /\ Meta.pi_pageName info = Meta.pm_pageName r
    /\ Spec.pageScore sl info <> 0%nat
    /\ (forall pid i, In (pid, i) before -> Spec.pageScore sl i <> 0%nat ->
          (Spec.totalScore sl i < Spec.totalScore sl info)%nat)
    /\ (forall pid i, In (pid, i) after -> Spec.pageScore sl i <> 0%nat ->
          (Spec.totalScore sl i <= Spec.totalScore sl info)%nat).
Proof.
  intros H sl. unfold Meta.findBestMatchingPage in H.
  pose proof (SelectionFacts.fold_scoreStep_FirstBest sl (Meta.groupByPage ads)) as HF.
  destruct (length (Meta.groupByPage ads) =? 0)%nat; [discriminate|].
  fold sl in H.
  destruct (fold_left (Meta.scoreStep sl) (Meta.groupByPage ads) None) as [b|];
    [|discriminate].
  injection H as <-. simpl in *.
  destruct HF as (before & info & after & Heq & Hn & _ & Hp & Hb & Ha).
  now exists before, info, after.
Qed.

Lemma X3_witness :
  exists before info after,
    Meta.groupByPage Fixtures.acmeAds = (before ++ ("1", info) :: after)%list
    /\ Meta.pi_pageName info = "Acme Corp"
    /\ Spec.pageScore "acme" info <> 0%nat
    /\ (forall pid i, In (pid, i) before -> Spec.pageScore "acme" i <> 0%nat ->
          (Spec.totalScore "acme" i < Spec.totalScore "acme" info)%nat)
    /\ (forall pid i, In (pid, i) after -> Spec.pageScore "acme" i <> 0%nat ->
          (Spec.totalScore "acme" i <= Spec.totalScore "acme" info)%nat).
Proof.
  exact (X3_selection_is_first_best Fixtures.acmeAds "acme"
           {| Meta.pm_pageId := "1"; Meta.pm_pageName := "Acme Corp" |} eq_refl).
Defined.

(** X4.  The number of ads never outranks a better name: the name of the
    selected page scores at least as high against the search term as the
    name of every page of the page map (exact match over prefix match over
    containment).  The volume bonus, at most 50, only decides between names
    of the same rank. *)
Theorem X4_name_rank_dominates_volume (ads : list Ad) (searchTerm : string)
    (r : Meta.PageMatch) (pid : string) (info : Meta.PageInfo) :
  Meta.findBestMatchingPage ads searchTerm = Some r ->
  In (pid, info) (Meta.groupByPage ads) ->
  (Meta.nameScore (Js.toLowerCase (Meta.pi_pageName info)) (Js.toLowerCase searchTerm)
   <= Meta.nameScore (Js.toLowerCase (Meta.pm_pageName r)) (Js.toLowerCase searchTerm))%nat.
Proof.
  unfold Meta.findBestMatchingPage. intros H Hin.
  set (sl := Js.toLowerCase searchTerm) in *.
  pose proof (SelectionFacts.fold_scoreStep_FirstBest sl (Meta.groupByPage ads)) as HF.
  destruct (length (Meta.groupByPage ads) =? 0)%nat; [discriminate|].
  destruct (fold_left (Meta.scoreStep sl) (Meta.groupByPage ads) None) as [b|];
    [|discriminate].
  injection H as <-. simpl in *.
  destruct HF as (before & best & after & Heq & Hn & _ & Hp & Hb & Ha).
  rewrite <- Hn. fold (Spec.pageScore sl info). fold (Spec.pageScore sl best).
  destruct (Nat.eq_dec (Spec.pageScore sl info) 0) as [Hz|Hnz]; [lia|].
  assert (Hle : (Spec.totalScore sl info <= Spec.totalScore sl best)%nat).
  { rewrite Heq in Hin. apply in_app_or in Hin as [Hin|[[= _ <-]|Hin]].
    - specialize (Hb pid info Hin Hnz). lia.
    - lia.
    - exact (Ha pid info Hin Hnz). }
  unfold Spec.totalScore in Hle.
  pose proof (SelectionFacts.nameScore_values
                (Js.toLowerCase (Meta.pi_pageName info)) sl) as Hv1.
  pose proof (SelectionFacts.nameScore_values
                (Js.toLowerCase (Meta.pi_pageName best)) sl) as Hv2.
  unfold Spec.pageScore in *. lia.
Qed.

Lemma X4_witness :
  (Meta.nameScore "widgets inc" "acme" <= Meta.nameScore "acme corp" "acme")%nat.
Proof.
  apply (X4_name_rank_dominates_volume Fixtures.acmeAds "acme"
           {| Meta.pm_pageId := "1"; Meta.pm_pageName := "Acme Corp" |}
           "2" {| Meta.pi_pageName := "Widgets Inc"; Meta.pi_count := 3 |}).
  - reflexivity.
  - left. reflexivity.
Defined.

(** ** Retry controller: delays and trace *)

Module ScheduleFacts.
Import Js Props JsFacts MonadFacts Meta Spec.
Local Open Scope list_scope.




Lemma retryDelay_base rc attempt :
  (0 <= baseDelayMs rc)%Z -> (0 <= maxDelayMs rc)%Z -> (1 <= attempt)%nat ->
  (0 <= Z.min (baseDelayMs rc * 2 ^ (Z.of_nat attempt - 1)) (maxDelayMs rc)
   <= maxDelayMs rc)%Z
  /\ (Z.min (baseDelayMs rc * 2 ^ (Z.of_nat attempt - 1)) (maxDelayMs rc)
      <= Z.min (baseDelayMs rc * 2 ^ (Z.of_nat (S attempt) - 1)) (maxDelayMs rc))%Z.
Proof.
  intros Hb Hm Ha.
  assert (Hp : (0 < 2 ^ (Z.of_nat attempt - 1))%Z) by (apply Z.pow_pos_nonneg; lia).
  replace (Z.of_nat (S attempt) - 1)%Z with (Z.succ (Z.of_nat attempt - 1)) by lia.
  rewrite Z.pow_succ_r by lia.
  split; [nia|].
  apply Z.min_le_compat_r. nia.
Qed.

End ScheduleFacts.

(** X5.  With delays that are integers from 0 to 2^53 - 1, and a positive
    base delay or an attempt number of at most 1024, the delay before the
    retry that follows attempt number [attempt >= 1] is never negative, never
    above the cap (twice the cap after a rate-limit error), and never
    shrinks from one attempt to the next. *)
Theorem X5_retryDelay_bounded_and_monotone (rc : Meta.RetryConfig) (attempt : nat)
    (isRateLimit : bool) :
  Spec.safeInteger (Meta.baseDelayMs rc) -> Spec.safeInteger (Meta.maxDelayMs rc) ->
  (1 <= attempt)%nat ->
  ((0 < Meta.baseDelayMs rc)%Z \/ (S attempt <= 1024)%nat) ->
  (0 <= Meta.retryDelay rc attempt isRateLimit
   <= (if isRateLimit then 2 * Meta.maxDelayMs rc else Meta.maxDelayMs rc))%Z
  /\ (Meta.retryDelay rc attempt isRateLimit
      <= Meta.retryDelay rc (S attempt) isRateLimit)%Z.
Proof.
  intros [Hb _] [Hm _] Ha _. unfold Meta.retryDelay.
  destruct (ScheduleFacts.retryDelay_base rc attempt Hb Hm Ha) as [[H0 H1] H2].
  destruct isRateLimit; lia.
Qed.

Lemma X5_witness :
  (0 <= Meta.retryDelay (Meta.retryConfig Meta.DEFAULT_CONFIG) 6 true <= 2 * 30000)%Z
  /\ (Meta.retryDelay (Meta.retryConfig Meta.DEFAULT_CONFIG) 6 true
      <= Meta.retryDelay (Meta.retryConfig Meta.DEFAULT_CONFIG) 7 true)%Z.
Proof.
  apply (X5_retryDelay_bounded_and_monotone
           (Meta.retryConfig Meta.DEFAULT_CONFIG) 6 true);
    unfold Spec.safeInteger; simpl; lia.
Defined.


(** ** Brand caches: round trips, frames and the file *)

Module StoreFacts.
Import Js Props JsFacts MonadFacts CacheFacts.

Lemma metaHydrated_rest (s : Meta.State) :
  s_file (metaHydrated s) = s_file s /\ s_ticks (metaHydrated s) = s_ticks s
  /\ s_calls (metaHydrated s) = s_calls s /\ s_draws (metaHydrated s) = s_draws s.
Proof. unfold metaHydrated. destruct (s_cache s); cbn; auto. Qed.

(** A save under a key that the cache does not hold: the entry is added in
    memory with fresh metadata, and the file is written when it can be. *)
Lemma saveBrandToCache_absent t pid name (e : Meta.Env) (s : Meta.State) :
  Meta.brands (metaLoaded s) !! Meta.normalizeKey t = None ->
  let brands' :=
    <[Meta.normalizeKey t := {| Meta.bce_pageId := pid; Meta.bce_name := name |}]>
      (Meta.brands (metaLoaded s)) in
  let cache' :=
    {| Meta.brands := brands';
       Meta.cache_metadata :=
         Some {| Meta.lastUpdated := e_clock e (s_ticks s);
                 Meta.totalBrands := size brands';
                 Meta.note := match Meta.cache_metadata (metaLoaded s) with
                              | Some md => Meta.note md
                              | None => ""
                              end |} |} in
  exists s',
    Meta.saveBrandToCache t pid name e s = (Normal tt, s')
    /\ s_cache s' = Some cache'
    /\ s_file s' = (if e_writable e then Some cache' else s_file s).
Proof.
  intros Hk brands' cache'. unfold Meta.saveBrandToCache, try_catch.
  unfold mbind at 1, M_bind, bind. rewrite loadBrandsCache_run, Hk.
  destruct (metaHydrated_rest s) as (Hf & Ht & _).
  unfold mbind, M_bind, bind, set_cache, emit, now, writeCacheFile. cbn.
  rewrite Hf, Ht.
  destruct (e_writable e); cbn; eexists; repeat split; reflexivity.
Qed.

(** A save leaves the entries under the other keys as they were. *)
Lemma saveBrandToCache_others t pid name (e : Meta.Env) (s : Meta.State) :
  exists c,
    s_cache (Meta.saveBrandToCache t pid name e s).2 = Some c
    /\ forall key, key <> Meta.normalizeKey t ->
         Meta.brands c !! key = Meta.brands (metaLoaded s) !! key.
Proof.
  destruct (Meta.brands (metaLoaded s) !! Meta.normalizeKey t) as [entry|] eqn:Hk.
  - exists (metaLoaded s). split; [|reflexivity].
    unfold Meta.saveBrandToCache, try_catch.
    unfold mbind at 1, M_bind, bind. rewrite loadBrandsCache_run, Hk. cbn.
    apply metaHydrated_cache.
  - destruct (saveBrandToCache_absent t pid name e s Hk) as (s' & -> & Hc & _).
    eexists. split; [exact Hc|]. intros key Hne. cbn.
    now rewrite lookup_insert_ne by congruence.
Qed.

Lemma meta_lookup_result t (e : Meta.Env) (s : Meta.State) :
  (Meta.lookupBrandInCache t e s).1
  = Normal (Meta.brands (metaLoaded s) !! Meta.normalizeKey t).
Proof. destruct (lookupBrandInCache_run t e s) as (s' & -> & _). reflexivity. Qed.

Lemma google_lookup_result t (e : Google.Env) (s : Google.State) :
  (Google.lookupInCache t e s).1 = Normal (googleEntry s (Google.normalizeKey t)).
Proof. reflexivity. Qed.

(** What [saveCache] leaves when the cache in memory is set. *)
Lemma saveCache_run (e : Google.Env) (s : Google.State) c :
  s_cache s = Some c ->
  let c' :=
    {| Google.advertisers := Google.advertisers c;
       Google.cache_metadata :=
         Some {| Google.lastUpdated := e_clock e (s_ticks s);
                 Google.totalAdvertisers := size (Google.advertisers c);
                 Google.note := "Google Ads advertiser IDs cached for faster lookups" |} |} in
  exists s',
    Google.saveCache e s = (Normal tt, s')
    /\ s_cache s' = Some c'
    /\ s_file s' = (if e_writable e then Some c' else s_file s).
Proof.
  intros Hc c'. unfold Google.saveCache.
  unfold mbind at 1, M_bind, bind, get. rewrite Hc.
  unfold try_catch, mbind, M_bind, bind, now, set_cache, writeCacheFile; cbn.
  destruct (e_writable e); cbn; eexists; repeat split; reflexivity.
Qed.

End StoreFacts.

(** X7.  Meta brand cache, save then look up: after a lookup has missed, a
    save under the term makes every later lookup under a term with the same
    normalised key return the saved page id and name.  This holds whether or
    not the cache file can be written: the entry lives in memory. *)
Theorem X7_meta_save_then_lookup (e : Meta.Env) (s : Meta.State)
    (t t' pid name : string) :
  (Meta.lookupBrandInCache t e s).1 = Normal None ->
  Meta.normalizeKey t' = Meta.normalizeKey t ->
  (Meta.lookupBrandInCache t' e (Meta.saveBrandToCache t pid name e s).2).1
  = Normal (Some {| Meta.bce_pageId := pid; Meta.bce_name := name |}).
Proof.
  intros Hmiss Hk. rewrite StoreFacts.meta_lookup_result in Hmiss.
  injection Hmiss as Hmiss.
  destruct (CacheFacts.saveBrandToCache_after t pid name e s) as (c & Hc & Hin).
  rewrite Hmiss in Hin. cbn in Hin.
  rewrite StoreFacts.meta_lookup_result, (CacheFacts.metaLoaded_mem _ _ Hc), Hk.
  now rewrite Hin.
Qed.

Lemma X7_witness :
  (Meta.lookupBrandInCache " NIKE " Fixtures.offline
     (Meta.saveBrandToCache "Nike" "A" "Nike" Fixtures.offline
        (Fixtures.stateOf None None)).2).1
  = Normal (Some {| Meta.bce_pageId := "A"; Meta.bce_name := "Nike" |}).
Proof.
  apply (X7_meta_save_then_lookup Fixtures.offline (Fixtures.stateOf None None)
           "Nike" " NIKE " "A" "Nike"); reflexivity.
Defined.

(** X8.  A save to the Meta brand cache changes the answer of no lookup
    under another normalised key. *)
Theorem X8_meta_save_leaves_other_keys (e : Meta.Env) (s : Meta.State)
    (t t' pid name : string) :
  Meta.normalizeKey t' <> Meta.normalizeKey t ->
  (Meta.lookupBrandInCache t' e (Meta.saveBrandToCache t pid name e s).2).1
  = (Meta.lookupBrandInCache t' e s).1.
Proof.
  intros Hne.
  destruct (StoreFacts.saveBrandToCache_others t pid name e s) as (c & Hc & Hothers).
  rewrite !StoreFacts.meta_lookup_result, (CacheFacts.metaLoaded_mem _ _ Hc).
  now rewrite Hothers.
Qed.

Lemma X8_witness :
  (Meta.lookupBrandInCache "Nike" Fixtures.offline
     (Meta.saveBrandToCache "Adidas" "B" "Adidas" Fixtures.offline Fixtures.metaNikeA).2).1
  = (Meta.lookupBrandInCache "Nike" Fixtures.offline Fixtures.metaNikeA).1.
Proof.
  apply (X8_meta_save_leaves_other_keys Fixtures.offline Fixtures.metaNikeA
           "Adidas" "Nike" "B" "Adidas").
  vm_compute. discriminate.
Defined.

(** X9.  A save that adds an entry to the Meta brand cache never throws; it
    leaves in memory a cache with one entry more, whose metadata counts the
    entries; when the file can be written the file holds that same cache,
    and when it cannot the file is left as it was. *)
Theorem X9_meta_save_metadata_and_file (e : Meta.Env) (s : Meta.State)
    (t pid name : string) :
  (Meta.lookupBrandInCache t e s).1 = Normal None ->
  let res := Meta.saveBrandToCache t pid name e s in
  res.1 = Normal tt
  /\ exists c md,
       s_cache res.2 = Some c
       /\ Meta.cache_metadata c = Some md
       /\ Meta.totalBrands md = size (Meta.brands c)
       /\ size (Meta.brands c) = S (size (Meta.brands (Props.metaLoaded s)))
       /\ s_file res.2 = (if e_writable e then Some c else s_file s).
Proof.
  intros Hmiss res. subst res. rewrite StoreFacts.meta_lookup_result in Hmiss.
  injection Hmiss as Hmiss.
  destruct (StoreFacts.saveBrandToCache_absent t pid name e s Hmiss)
    as (s' & -> & Hc & Hf).
  split; [reflexivity|]. cbn [snd].
  eexists _, _. split; [exact Hc|]. cbn.
  split; [reflexivity|]. split; [reflexivity|]. split; [|exact Hf].
  now apply map_size_insert_None.
Qed.

Lemma X9_witness :
  let res := Meta.saveBrandToCache "Nike" "A" "Nike" Fixtures.offline
               (Fixtures.stateOf None None) in
  res.1 = Normal tt
  /\ exists c md,
       s_cache res.2 = Some c
       /\ Meta.cache_metadata c = Some md
       /\ Meta.totalBrands md = size (Meta.brands c)
       /\ size (Meta.brands c)
          = S (size (Meta.brands (Props.metaLoaded (Fixtures.stateOf None None))))
       /\ s_file res.2 = Some c.
Proof.
  exact (X9_meta_save_metadata_and_file Fixtures.offline (Fixtures.stateOf None None)
           "Nike" "A" "Nike" eq_refl).
Defined.

(** X10.  A lookup in the Meta brand cache never writes the cache file.
    Under a key that the cache object does not inherit it answers from the
    cache in memory once it is loaded, whatever the file holds by then, and
    with no cache in memory and a missing or unreadable file it finds
    nothing. *)
Theorem X10_meta_lookup_reads_only (e : Meta.Env) (s : Meta.State) (t : string) :
  let res := Meta.lookupBrandInCache t e s in
  s_file res.2 = s_file s
  /\ Props.cacheWrites res.2 = Props.cacheWrites s
  /\ (Js.inheritedKey (Meta.normalizeKey t) = false ->
      (forall c, s_cache s = Some c ->
         res.1 = Normal (Meta.brands c !! Meta.normalizeKey t))
      /\ (s_cache s = None -> s_file s = None -> res.1 = Normal None)).
Proof.
  intros res. subst res.
  destruct (CacheFacts.lookupBrandInCache_run t e s)
    as (s' & Hrun & Hc & Hf & _ & Hw & _).
  rewrite Hrun. cbn [fst snd]. repeat split; try assumption.
  - intros c Hmem. now rewrite (CacheFacts.metaLoaded_mem _ _ Hmem).
  - intros Hmem Hfile. unfold Props.metaLoaded. now rewrite Hmem, Hfile.
Qed.

Lemma X10_witness :
  (Meta.lookupBrandInCache " NIKE " Fixtures.offline Fixtures.metaNikeA).1
  = Normal (Some {| Meta.bce_pageId := "A"; Meta.bce_name := "Nike" |})
  /\ (Meta.lookupBrandInCache "Adidas" Fixtures.offline (Fixtures.stateOf None None)).1
     = Normal None.
Proof.
  split.
  - destruct (X10_meta_lookup_reads_only Fixtures.offline Fixtures.metaNikeA " NIKE ")
      as (_ & _ & H).
    destruct (H eq_refl) as [Hmem _]. exact (Hmem _ eq_refl).
  - destruct (X10_meta_lookup_reads_only Fixtures.offline (Fixtures.stateOf None None)
                "Adidas") as (_ & _ & H).
    destruct (H eq_refl) as [_ Hnone]. exact (Hnone eq_refl eq_refl).
Defined.

(** X11.  A save to the Google advertiser cache never throws.  Under a key
    other than [__proto__] it stores the entry under the normalised key in
    memory, replacing what was there, with metadata that counts the entries;
    when the file can be written the file holds that same cache, and when it
    cannot the file is left as it was. *)
Theorem X11_google_save_metadata_and_file (e : Google.Env) (s : Google.State)
    (t aid name dom : string) :
  let res := Google.saveToCache t aid name dom e s in
  res.1 = Normal tt
  /\ (Google.normalizeKey t <> "__proto__" ->
      exists c md,
        s_cache res.2 = Some c
        /\ Google.advertisers c
           = <[Google.normalizeKey t :=
                 {| Google.ace_advertiserId := aid; Google.ace_name := name;
                    Google.ace_domain := dom |}]>
               (Google.advertisers (default Google.emptyCache (s_cache s)))
        /\ Google.cache_metadata c = Some md
        /\ Google.totalAdvertisers md = size (Google.advertisers c)
        /\ s_file res.2 = (if e_writable e then Some c else s_file s)).
Proof.
  intros res. subst res. unfold Google.saveToCache.
  unfold mbind, M_bind, bind, get, set_cache, emit.
  match goal with
  | |- context [Google.saveCache e ?s0] =>
      destruct (StoreFacts.saveCache_run e s0 _ eq_refl) as (s' & -> & Hc & Hf)
  end.
  split; [reflexivity|]. intros _. cbn [snd].
  eexists _, _. split; [exact Hc|]. cbn.
  repeat split. exact Hf.
Qed.

Lemma X11_witness :
  let res := Google.saveToCache " Adidas " "AR2" "adidas AG" "adidas.com"
               Fixtures.offline Fixtures.googleNikeA in
  exists c md,
    s_cache res.2 = Some c
    /\ Google.advertisers c
       = <["adidas" :=
             {| Google.ace_advertiserId := "AR2"; Google.ace_name := "adidas AG";
                Google.ace_domain := "adidas.com" |}]>
           (Google.advertisers
              (default Google.emptyCache (s_cache Fixtures.googleNikeA)))
    /\ Google.cache_metadata c = Some md
    /\ Google.totalAdvertisers md = size (Google.advertisers c)
    /\ s_file res.2
       = (if e_writable (Fixtures.offline : Google.Env) then Some c
          else s_file Fixtures.googleNikeA).
Proof.
  refine (proj2 (X11_google_save_metadata_and_file Fixtures.offline
                   Fixtures.googleNikeA " Adidas " "AR2" "adidas AG" "adidas.com") _).
  discriminate.
Defined.

(** X12.  Google advertiser cache, save then look up: after a save under a
    term whose key is not [__proto__], a lookup under any term with the same
    normalised key returns the saved entry, and a lookup under a term with
    another key, not inherited by the cache object, returns what it returned
    before. *)
Theorem X12_google_save_then_lookup (e : Google.Env) (s : Google.State)
    (t t' aid name dom : string) :
  Google.normalizeKey t <> "__proto__" ->
  let s' := (Google.saveToCache t aid name dom e s).2 in
  (Google.normalizeKey t' = Google.normalizeKey t ->
   (Google.lookupInCache t' e s').1
   = Normal (Some {| Google.ace_advertiserId := aid; Google.ace_name := name;
                     Google.ace_domain := dom |}))
  /\ (Google.normalizeKey t' <> Google.normalizeKey t ->
      Js.inheritedKey (Google.normalizeKey t') = false ->
      (Google.lookupInCache t' e s').1 = (Google.lookupInCache t' e s).1).
Proof.
  intros _ s'. subst s'. rewrite !StoreFacts.google_lookup_result. split.
  - intros ->. now rewrite CacheFacts.saveToCache_stores.
  - intros Hne _. now rewrite CacheFacts.saveToCache_others.
Qed.

Lemma X12_witness :
  let s' := (Google.saveToCache "Adidas" "AR2" "adidas AG" "adidas.com"
               Fixtures.offline Fixtures.googleNikeA).2 in
  (Google.lookupInCache " ADIDAS " Fixtures.offline s').1
  = Normal (Some {| Google.ace_advertiserId := "AR2"; Google.ace_name := "adidas AG";
                    Google.ace_domain := "adidas.com" |})
  /\ (Google.lookupInCache "Nike" Fixtures.offline s').1
     = (Google.lookupInCache "Nike" Fixtures.offline Fixtures.googleNikeA).1.
Proof.
  split.
  - refine (proj1 (X12_google_save_then_lookup Fixtures.offline Fixtures.googleNikeA
                     "Adidas" " ADIDAS " "AR2" "adidas AG" "adidas.com" _) eq_refl).
    discriminate.
  - refine (proj2 (X12_google_save_then_lookup Fixtures.offline Fixtures.googleNikeA
                     "Adidas" "Nike" "AR2" "adidas AG" "adidas.com" _) _ eq_refl);
      discriminate.
Defined.

(** ** Media lists *)

Module MediaFacts.
Import Js Props JsFacts Meta MetaNormalizerFacts Spec.
Local Open Scope list_scope.

Lemma pushUnique_grows media url mk :
  exists ext, pushUnique media url mk = media ++ ext.
Proof.
  unfold pushUnique. destruct url as [u|]; [|exists []; now rewrite app_nil_r].
  destruct (negb (isEmpty u) && negb (seen media u)).
  - now exists [mk u].
  - exists []. now rewrite app_nil_r.
Qed.

Lemma cardStep_grows media card : exists ext, cardStep media card = media ++ ext.
Proof.
  unfold cardStep.
  destruct (pushUnique_grows media
              (or_else (card_resized_image_url card) (card_video_preview_image_url card))
              imageOf) as (e1 & ->).
  destruct (pushUnique_grows (media ++ e1) (card_video_hd_url card)
              (videoOf (card_video_preview_image_url card) None)) as (e2 & ->).
  exists (e1 ++ e2). now rewrite app_assoc.
Qed.

Lemma forEachOpt_grows {A} (arr : option (list A)) step media :
  (forall m x, exists ext, step m x = m ++ ext) ->
  exists ext, forEachOpt arr step media = media ++ ext.
Proof.
  intros Hstep. unfold forEachOpt.
  destruct arr as [l|]; [|exists []; now rewrite app_nil_r].
  revert media. induction l as [|x l IH]; intros media; simpl.
  - exists []. now rewrite app_nil_r.
  - destruct (Hstep media x) as (e1 & ->). destruct (IH (media ++ e1)) as (e2 & ->).
    exists (e1 ++ e2). now rewrite app_assoc.
Qed.

Lemma parseMedia_split rawAd :
  parseMedia rawAd
  = afterVideo rawAd
      (pushAlways (mediaBeforeVideo rawAd) (r_videoUrl rawAd) (videoOf None None)).
Proof. reflexivity. Qed.

Lemma afterVideo_grows rawAd media : exists ext, afterVideo rawAd media = media ++ ext.
Proof.
  unfold afterVideo.
  destruct (forEachOpt_grows (r_videos rawAd)
              (fun media v =>
                 pushUnique media (v_url v) (videoOf (v_thumbnailUrl v) (v_duration v)))
              media) as (e1 & ->); [intros; apply pushUnique_grows|].
  destruct (forEachOpt_grows (r_snapshot rawAd ?> snap_videos)
              (fun media v =>
                 pushUnique media
                   (or_else (sv_video_hd_url v) (sv_video_sd_url v))
                   (videoOf (sv_video_preview_image_url v) None))
              (media ++ e1)) as (e2 & ->); [intros; apply pushUnique_grows|].
  destruct (forEachOpt_grows (r_media rawAd) mediaItemStep ((media ++ e1) ++ e2))
    as (e3 & ->); [intros; apply pushUnique_grows|].
  exists (e1 ++ e2 ++ e3). now rewrite !app_assoc.
Qed.

Lemma afterVideo_NoDup rawAd media :
  NoDup (urls media) -> NoDup (urls (afterVideo rawAd media)).
Proof.
  intros H. unfold afterVideo.
  apply forEachOpt_NoDup; [apply mediaItemStep_NoDup|].
  apply forEachOpt_NoDup; [intros; now apply pushUnique_NoDup|].
  apply forEachOpt_NoDup; [intros; now apply pushUnique_NoDup|exact H].
Qed.

Lemma mediaBeforeVideo_NoDup rawAd : NoDup (urls (mediaBeforeVideo rawAd)).
Proof.
  unfold mediaBeforeVideo.
  apply forEachOpt_NoDup; [apply cardStep_NoDup|].
  apply forEachOpt_NoDup; [intros; now apply pushUnique_NoDup|].
  apply forEachOpt_NoDup; [intros; now apply pushUnique_NoDup|].
  now apply pushAlways_first.
Qed.

(** *** No empty URL *)

Lemma Filled_snoc media m : Filled media -> m_url m <> "" -> Filled (media ++ [m]).
Proof.
  intros H Hm. apply List.Forall_app. split; [exact H|]. now constructor.
Qed.

Lemma pushUnique_Filled media url mk :
  (forall u, m_url (mk u) = u) -> Filled media -> Filled (pushUnique media url mk).
Proof.
  intros Hmk H. unfold pushUnique. destruct url as [u|]; [|exact H].
  destruct u as [|c u]; simpl; [exact H|].
  destruct (seen media (String c u)); simpl; [exact H|].
  apply Filled_snoc; [exact H|]. now rewrite Hmk.
Qed.

Lemma pushAlways_Filled media url mk :
  (forall u, m_url (mk u) = u) -> Filled media -> Filled (pushAlways media url mk).
Proof.
  intros Hmk H. unfold pushAlways. destruct url as [u|]; [|exact H].
  destruct u as [|c u]; simpl; [exact H|].
  apply Filled_snoc; [exact H|]. now rewrite Hmk.
Qed.

Lemma forEachOpt_Filled {A} (arr : option (list A)) step media :
  (forall media x, Filled media -> Filled (step media x)) ->
  Filled media -> Filled (forEachOpt arr step media).
Proof.
  intros Hstep. unfold forEachOpt. destruct arr as [l|]; [|auto].
  revert media. induction l as [|x l IH]; intros media H; simpl; auto.
Qed.

Lemma cardStep_Filled media card : Filled media -> Filled (cardStep media card).
Proof.
  intros H. unfold cardStep.
  apply pushUnique_Filled; [reflexivity|].
  apply pushUnique_Filled; [reflexivity|exact H].
Qed.

End MediaFacts.

(** X13.  When [parseMedia] deduplicates: the media list of a Meta record
    has no URL twice exactly when its direct [videoUrl], if it has one, is
    not among the URLs collected before it (the direct images, the images of
    the snapshot and the carousel cards).  Every other push is guarded. *)
Theorem X13_parseMedia_distinct_iff (rawAd : Meta.ApifyRawAdItem) :
  NoDup (Props.urls (Meta.parseMedia rawAd))
  <-> forall u, Meta.r_videoUrl rawAd = Some u -> u <> "" ->
        ~ In u (Props.urls (Spec.mediaBeforeVideo rawAd)).
Proof.
  rewrite MediaFacts.parseMedia_split.
  pose proof (MediaFacts.mediaBeforeVideo_NoDup rawAd) as Hbefore.
  destruct (Meta.r_videoUrl rawAd) as [u|] eqn:Hv; simpl.
  2: { split; [intros _ u [=]|]. intros _. now apply MediaFacts.afterVideo_NoDup. }
  destruct u as [|c u]; simpl.
  { split; [intros _ u [= <-]; congruence|].
    intros _. now apply MediaFacts.afterVideo_NoDup. }
  split.
  - intros Hnd v [= <-] _ Hin.
    match type of Hnd with
    | NoDup (Props.urls (Spec.afterVideo _ ?m)) =>
        destruct (MediaFacts.afterVideo_grows rawAd m) as (ext & Heq)
    end.
    rewrite Heq in Hnd. unfold Props.urls in Hnd. rewrite !map_app in Hnd.
    apply NoDup_app in Hnd as [Hnd _]. apply NoDup_app in Hnd as (_ & Hdisj & _).
    apply (Hdisj (String c u)).
    + now apply list_elem_of_In.
    + simpl. apply list_elem_of_In. now left.
  - intros H. apply MediaFacts.afterVideo_NoDup.
    rewrite MetaNormalizerFacts.urls_snoc. simpl.
    apply MetaNormalizerFacts.NoDup_snoc; [exact Hbefore|].
    apply (H (String c u)); [reflexivity|discriminate].
Qed.

(** X14.  No entry of the media list of a Meta record has an empty URL:
    every source of [parseMedia] is skipped when its URL is missing or
    empty. *)
Theorem X14_parseMedia_urls_not_empty (rawAd : Meta.ApifyRawAdItem) :
  List.Forall (fun m => m_url m <> "") (Meta.parseMedia rawAd).
Proof.
  unfold Meta.parseMedia. fold (Spec.Filled (Meta.parseMedia rawAd)).
  unfold Meta.parseMedia.
  apply MediaFacts.forEachOpt_Filled;
    [intros; now apply MediaFacts.pushUnique_Filled|].
  apply MediaFacts.forEachOpt_Filled;
    [intros; now apply MediaFacts.pushUnique_Filled|].
  apply MediaFacts.forEachOpt_Filled;
    [intros; now apply MediaFacts.pushUnique_Filled|].
  apply MediaFacts.pushAlways_Filled; [reflexivity|].
  apply MediaFacts.forEachOpt_Filled; [apply MediaFacts.cardStep_Filled|].
  apply MediaFacts.forEachOpt_Filled;
    [intros; now apply MediaFacts.pushUnique_Filled|].
  apply MediaFacts.forEachOpt_Filled;
    [intros; now apply MediaFacts.pushUnique_Filled|].
  apply MediaFacts.pushAlways_Filled; [reflexivity|constructor].
Qed.

(** ** Google normaliser: media and image source *)

Module GoogleMediaFacts.
Import Js Props JsFacts Google Spec.

Lemma falsy_None (o : option string) : o <> Some "" -> truthy o = false -> o = None.
Proof.
  unfold truthy. destruct o as [[|c u]|]; simpl; intros H1 H2;
    [congruence|discriminate|reflexivity].
Qed.

Lemma filter_snoc {A} (f : A -> bool) l x :
  List.filter f (l ++ [x])%list = (List.filter f l ++ (if f x then [x] else []))%list.
Proof. rewrite List.filter_app. simpl. now destruct (f x). Qed.

Lemma addImage_Agree acc u :
  u <> "" -> truthy (acc_imageUrl acc) = false -> MediaAgree acc ->
  MediaAgree
    {| acc_imageUrl := Some u; acc_videoUrl := acc_videoUrl acc;
       acc_media :=
         (acc_media acc ++
          [{| m_type := image; m_url := u; m_thumbnailUrl := None;
              m_duration := None |}])%list |}.
Proof.
  intros Hu Hfalsy (Hi & Hv & Hni & Hnv & Hf).
  rewrite (falsy_None _ Hni Hfalsy) in Hi.
  unfold MediaAgree; cbn [acc_imageUrl acc_videoUrl acc_media].
  rewrite !filter_snoc, !map_app, Hi, Hv. cbn.
  repeat split; [now rewrite app_nil_r|congruence|exact Hnv|].
  apply List.Forall_app. split; [exact Hf|]. now constructor.
Qed.

Lemma addVideo_Agree acc u thumb :
  u <> "" -> truthy (acc_videoUrl acc) = false -> MediaAgree acc ->
  MediaAgree
    {| acc_imageUrl := acc_imageUrl acc; acc_videoUrl := Some u;
       acc_media :=
         (acc_media acc ++
          [{| m_type := video; m_url := u; m_thumbnailUrl := thumb;
              m_duration := None |}])%list |}.
Proof.
  intros Hu Hfalsy (Hi & Hv & Hni & Hnv & Hf).
  rewrite (falsy_None _ Hnv Hfalsy) in Hv.
  unfold MediaAgree; cbn [acc_imageUrl acc_videoUrl acc_media].
  rewrite !filter_snoc, !map_app, Hi, Hv. cbn.
  repeat split; [now rewrite app_nil_r|exact Hni|congruence|].
  apply List.Forall_app. split; [exact Hf|]. now constructor.
Qed.

Lemma guard_split (u : string) (o : option string) :
  negb (isEmpty u) && negb (truthy o) = true -> u <> "" /\ truthy o = false.
Proof.
  intros H. apply andb_true_iff in H as [H1 H2].
  apply negb_true_iff in H1, H2. split; [|exact H2]. now destruct u.
Qed.

Lemma variationStep_Agree acc variation :
  MediaAgree acc -> MediaAgree (variationStep acc variation).
Proof.
  intros H. unfold variationStep.
  set (acc1 := if truthy (text_iframeUrl variation) then _ else acc).
  assert (H1 : MediaAgree acc1).
  { subst acc1. destruct (truthy (text_iframeUrl variation)); [|exact H].
    destruct (extractImageUrl (text_iframeUrl variation)) as [u|]; [|exact H].
    destruct (negb (isEmpty u) && negb (truthy (acc_imageUrl acc))) eqn:G; [|exact H].
    destruct (guard_split _ _ G). now apply addImage_Agree. }
  clearbody acc1.
  set (acc2 := match image_imageUrl variation with Some _ => _ | None => acc1 end).
  assert (H2 : MediaAgree acc2).
  { subst acc2. destruct (image_imageUrl variation) as [u|]; [|exact H1].
    destruct (negb (isEmpty u) && negb (truthy (acc_imageUrl acc1))) eqn:G; [|exact H1].
    destruct (guard_split _ _ G). now apply addImage_Agree. }
  clearbody acc2.
  destruct (video_videoUrl variation) as [u|]; [|exact H2].
  destruct (negb (isEmpty u) && negb (truthy (acc_videoUrl acc2))) eqn:G; [|exact H2].
  destruct (guard_split _ _ G). now apply addVideo_Agree.
Qed.

Lemma extractMedia_Agree raw : MediaAgree (extractMedia raw).
Proof.
  unfold extractMedia.
  assert (H0 : MediaAgree {| acc_imageUrl := None; acc_videoUrl := None; acc_media := [] |}).
  { unfold MediaAgree; cbn. repeat split; try discriminate. constructor. }
  revert H0. generalize {| acc_imageUrl := None; acc_videoUrl := None; acc_media := [] |}.
  induction (default [] (g_variations raw)) as [|v l IH]; intros acc H; simpl; [exact H|].
  apply IH. now apply variationStep_Agree.
Qed.

Lemma listOf_length (o : option string) : (length (listOf o) <= 1)%nat.
Proof. destruct o; simpl; lia. Qed.

(** *** The image source of an HTML fragment *)

Lemma spanNonQuote_spec s run rest :
  spanNonQuote s = (run, rest) ->
  s = run ++ rest /\ QuoteFree run
  /\ match rest with String c _ => isQuote c = true | EmptyString => True end.
Proof.
  revert run rest. induction s as [|c s IH]; intros run rest; simpl.
  - intros [= <- <-]. repeat split. intros c [].
  - destruct (isQuote c) eqn:Hq.
    + intros [= <- <-]. repeat split; [intros d []|exact Hq].
    + destruct (spanNonQuote s) as [run' rest'] eqn:Hs.
      intros [= <- <-]. destruct (IH _ _ eq_refl) as (-> & Hfree & Hrest).
      repeat split; [|exact Hrest].
      intros d [<-|Hd]; [exact Hq|now apply Hfree].
Qed.

Lemma spanNonQuote_complete u q post :
  QuoteFree u -> isQuote q = true ->
  spanNonQuote (u ++ String q post) = (u, String q post).
Proof.
  intros Hfree Hq. induction u as [|c u IH].
  - rewrite append_empty. simpl. now rewrite Hq.
  - rewrite append_cons. simpl. rewrite (Hfree c) by now left.
    rewrite IH; [reflexivity|]. intros d Hd. apply Hfree. now right.
Qed.

Lemma matchSrcHere_sound s u :
  matchSrcHere s = Some u ->
  exists q1 q2 post,
    s = "src=" ++ String q1 (u ++ String q2 post)
    /\ isQuote q1 = true /\ isQuote q2 = true /\ u <> "" /\ QuoteFree u.
Proof.
  intros H.
  destruct s as [|a1 s]; [discriminate|].
  destruct (Ascii.eqb_spec a1 "s") as [->|Hne].
  2: { exfalso. destruct a1 as [[] [] [] [] [] [] [] []]; try discriminate.
       now apply Hne. }
  destruct s as [|a2 s]; [discriminate|].
  destruct (Ascii.eqb_spec a2 "r") as [->|Hne].
  2: { exfalso. destruct a2 as [[] [] [] [] [] [] [] []]; try discriminate.
       now apply Hne. }
  destruct s as [|a3 s]; [discriminate|].
  destruct (Ascii.eqb_spec a3 "c") as [->|Hne].
  2: { exfalso. destruct a3 as [[] [] [] [] [] [] [] []]; try discriminate.
       now apply Hne. }
  destruct s as [|a4 s]; [discriminate|].
  destruct (Ascii.eqb_spec a4 "=") as [->|Hne].
  2: { exfalso. destruct a4 as [[] [] [] [] [] [] [] []]; try discriminate.
       now apply Hne. }
  destruct s as [|q1 r]; [discriminate|].
  cbn [matchSrcHere] in H.
  destruct (isQuote q1) eqn:Hq1; [|discriminate].
  destruct (spanNonQuote r) as [run rest] eqn:Hspan.
  destruct rest as [|q2 post]; [discriminate|].
  destruct (spanNonQuote_spec _ _ _ Hspan) as (-> & Hfree & Hq2).
  destruct run as [|c run]; [discriminate|].
  injection H as <-.
  exists q1, q2, post. repeat split; try assumption; discriminate.
Qed.

Lemma matchSrcHere_complete q1 u q2 post :
  isQuote q1 = true -> isQuote q2 = true -> u <> "" -> QuoteFree u ->
  matchSrcHere ("src=" ++ String q1 (u ++ String q2 post)) = Some u.
Proof.
  intros Hq1 Hq2 Hu Hfree.
  rewrite !append_cons, append_empty. cbn [matchSrcHere]. rewrite Hq1.
  rewrite (spanNonQuote_complete _ _ _ Hfree Hq2).
  destruct u; [congruence|reflexivity].
Qed.

Lemma matchSrc_unfold s :
  matchSrc s
  = match matchSrcHere s with
    | Some u => Some u
    | None => match s with EmptyString => None | String _ r => matchSrc r end
    end.
Proof. destruct s; reflexivity. Qed.

Lemma matchSrc_sound s u : matchSrc s = Some u -> HasSrc s u.
Proof.
  induction s as [|c s IH]; rewrite matchSrc_unfold.
  - destruct (matchSrcHere "") eqn:E; [|discriminate].
    intros [= ->]. destruct (matchSrcHere_sound _ _ E) as (q1 & q2 & post & H).
    now exists "", q1, q2, post.
  - destruct (matchSrcHere (String c s)) eqn:E.
    + intros [= ->]. destruct (matchSrcHere_sound _ _ E) as (q1 & q2 & post & H).
      exists "", q1, q2, post. now rewrite append_empty.
    + intros H. destruct (IH H) as (pre & q1 & q2 & post & -> & Hrest).
      exists (String c pre), q1, q2, post. now rewrite append_cons.
Qed.

Lemma matchSrc_complete s u : HasSrc s u -> is_Some (matchSrc s).
Proof.
  intros (pre & q1 & q2 & post & -> & Hq1 & Hq2 & Hu & Hfree).
  induction pre as [|c pre IH]; rewrite matchSrc_unfold.
  - rewrite append_empty, (matchSrcHere_complete _ _ _ _ Hq1 Hq2 Hu Hfree). eauto.
  - destruct (matchSrcHere _); [eauto|]. rewrite append_cons. exact IH.
Qed.

End GoogleMediaFacts.

(** X15.  The id of a normalised Meta ad is never empty: it is the first
    non-empty one of the id fields of the record ([id], [adArchiveID],
    [ad_archive_id], [adid]), and when there is none it is generated and
    starts with generated_. *)
Theorem X15_meta_id_never_empty (jsDate : string -> option Z)
    (rawAd : Meta.ApifyRawAdItem) (brand : string) (t : Z) :
  let ad := Meta.normalizeAd jsDate rawAd brand t in
  id ad <> ""
  /\ (Js.truthy (Meta.naturalId rawAd) = true -> Some (id ad) = Meta.naturalId rawAd)
  /\ (Js.truthy (Meta.naturalId rawAd) = false ->
      Props.IsPrefix "generated_" (id ad)).
Proof.
  intros ad. subst ad. unfold Meta.normalizeAd; cbn [id].
  unfold Js.or_str, Js.truthy.
  destruct (Meta.naturalId rawAd) as [[|c n]|]; cbn.
  - repeat split; [discriminate|discriminate|].
    intros _. unfold Meta.generateAdId, Meta.hashString. now eexists.
  - repeat split; [discriminate|discriminate].
  - repeat split; [discriminate|discriminate|].
    intros _. unfold Meta.generateAdId, Meta.hashString. now eexists.
Qed.

(** X16.  The Google normaliser always returns, and the id of its ad is
    never empty: it is the creative id of the record when that is not empty;
    otherwise it is made of the word google, the clock reading and a random
    draw. *)
Theorem X16_google_id_never_empty (term : string) (raw : Google.GoogleAdRawItem)
    (e : Google.Env) (s : Google.State) :
  exists ad s',
    Google.normalizeAd term raw e s = (Normal ad, s')
    /\ id ad <> ""
    /\ (Js.truthy (Google.g_creativeId raw) = true ->
        Some (id ad) = Google.g_creativeId raw)
    /\ (Js.truthy (Google.g_creativeId raw) = false ->
        id ad = "google-" ++ Js.showZ (e_clock e (s_ticks s)) ++ "-"
                  ++ e_random e (s_draws s)).
Proof.
  unfold Google.normalizeAd, Google.adIdOf.
  destruct (Js.truthy (Google.g_creativeId raw)) eqn:E.
  - unfold Js.truthy in E. destruct (Google.g_creativeId raw) as [[|c u]|];
      try discriminate.
    eexists _, _. split; [reflexivity|]. cbn. repeat split; discriminate.
  - eexists _, _. split; [reflexivity|]. cbn. repeat split; discriminate.
Qed.

(** X17.  In a normalised Google ad the fields [imageUrl] and [videoUrl]
    agree with the media list: the list holds at most one image and at most
    one video, whose URLs are those two fields, and no URL is empty. *)
Theorem X17_google_media_agrees_with_fields (raw : Google.GoogleAdRawItem)
    (term adId : string) (t : Z) :
  let ad := Google.buildAd raw term adId t in
  map m_url (List.filter Meta.isImage (media ad)) = Spec.listOf (imageUrl ad)
  /\ map m_url (List.filter Meta.isVideo (media ad)) = Spec.listOf (videoUrl ad)
  /\ (length (media ad) <= 2)%nat
  /\ List.Forall (fun m => m_url m <> "") (media ad).
Proof.
  intros ad. subst ad. cbn [Google.buildAd media imageUrl videoUrl].
  destruct (GoogleMediaFacts.extractMedia_Agree raw) as (Hi & Hv & _ & _ & Hf).
  repeat split; try assumption.
  pose proof (FormatFacts.counts_length (Google.acc_media (Google.extractMedia raw))) as Hc.
  unfold Props.videoCount, Props.imageCount in Hc.
  apply (f_equal (@length string)) in Hi, Hv. rewrite length_map in Hi, Hv.
  pose proof (GoogleMediaFacts.listOf_length (Google.acc_imageUrl (Google.extractMedia raw))).
  pose proof (GoogleMediaFacts.listOf_length (Google.acc_videoUrl (Google.extractMedia raw))).
  lia.
Qed.

(** X18.  The Google [extractImageUrl] finds an image exactly in the
    fragments that hold one: what it returns is a non-empty text without
    quotes that stands in the fragment between quotes after the letters
    src=, and it returns such a text whenever the fragment holds one. *)
Theorem X18_google_extractImageUrl_sound_and_complete (html : string) :
  (forall u, Google.extractImageUrl (Some html) = Some u -> Spec.HasSrc html u)
  /\ ((exists u, Spec.HasSrc html u) -> is_Some (Google.extractImageUrl (Some html))).
Proof.
  unfold Google.extractImageUrl. split.
  - intros u. destruct (Js.isEmpty html); [discriminate|].
    apply GoogleMediaFacts.matchSrc_sound.
  - intros (u & Hsrc).
    assert (Hne : Js.isEmpty html = false).
    { destruct Hsrc as (pre & q1 & q2 & post & -> & _).
      destruct pre; [now rewrite JsFacts.append_empty|now rewrite JsFacts.append_cons]. }
    rewrite Hne. now apply (GoogleMediaFacts.matchSrc_complete _ u).
Qed.

(** ** Paths of the fetch orchestrators *)

Module PathFacts.
Import Js Props JsFacts MonadFacts.

(** A first call that raises no error ends the retry controller. *)
Lemma retry_first_ok cfg attempt (e : Meta.Env) (s : Meta.State) run :
  e_script e (s_calls s) = CallReturns run ->
  attemptError (CallReturns run) = None ->
  Meta.runActorWithRetry cfg attempt e s = (Normal run, afterCall attempt s).
Proof.
  intros Hcall Herr. unfold Meta.runActorWithRetry.
  destruct (Meta.maxRetries (Meta.retryConfig cfg) - attempt)%nat;
    simpl; unfold try_catch; rewrite RetryFacts.runOnce_run, Hcall, Herr; reflexivity.
Qed.

(** A first call that reports a failed run ends it too. *)
Lemma retry_first_failed cfg attempt (e : Meta.Env) (s : Meta.State) run :
  e_script e (s_calls s) = CallReturns run ->
  run_status run = FAILED ->
  Meta.runActorWithRetry cfg attempt e s
  = (Thrown (ApifyError "Actor run failed with status: FAILED" RUN_FAILED),
     afterCall attempt s).
Proof.
  intros Hcall Hst. unfold Meta.runActorWithRetry.
  destruct (Meta.maxRetries (Meta.retryConfig cfg) - attempt)%nat;
    simpl; unfold try_catch; rewrite RetryFacts.runOnce_run, Hcall;
    unfold attemptError; rewrite Hst; cbn;
    now rewrite orb_true_r.
Qed.

(** Normalising the records of a dataset, each under its own brand. *)
Lemma meta_normalize_each jsDate brand items (e : Meta.Env) : forall s : Meta.State,
  exists normalized s',
    mapM (Meta.normalizeAdM jsDate brand) items e s = (Normal normalized, s')
    /\ Forall2 (fun raw ad => exists t, ad = Meta.normalizeAd jsDate raw (brand raw) t)
         items normalized
    /\ s_trace s' = s_trace s /\ s_cache s' = s_cache s /\ s_file s' = s_file s
    /\ s_calls s' = s_calls s.
Proof.
  induction items as [|raw items IH]; intros s.
  - exists [], s. split; [reflexivity|]. split; [constructor|auto].
  - rewrite mapM_cons.
    change (Meta.normalizeAdM jsDate brand raw e s)
      with (Normal (Meta.normalizeAd jsDate raw (brand raw) (e_clock e (s_ticks s))),
            ticked s).
    destruct (IH (ticked s)) as (ads & s' & -> & Hn & Ht & Hc & Hf & Hk).
    eexists _, _. split; [reflexivity|].
    split; [constructor; [now eexists|exact Hn]|auto].
Qed.

(** A successful fetch by page id returns every record of the dataset,
    normalised. *)
Lemma meta_fetchAdsByPageId_all jsDate cfg pid options
    (e : Meta.Env) (s : Meta.State) r s' :
  Meta.fetchAdsByPageId jsDate cfg pid options e s = (Normal r, s') ->
  success r = true ->
  exists run items,
    e_items e (defaultDatasetId run) = ItemsReturn items
    /\ Forall2
         (fun raw ad =>
            exists t, ad = Meta.normalizeAd jsDate raw
                             (or_str (Meta.r_pageName raw) (trim pid)) t)
         items (ads r)
    /\ totalFound r = Some (length items).
Proof.
  unfold Meta.fetchAdsByPageId. rewrite bind_now.
  destruct (Meta.isBlank pid).
  { intros H Hs. inversion H; subst. discriminate. }
  intros H Hs.
  apply (try_success _ _ _ _ success) in H;
    [|intros; apply SuccessFacts.meta_handleError_fails|exact Hs].
  revert H. rewrite bind_run.
  destruct (Meta.runActorWithRetry cfg 1 e (ticked s)) as [[run|x] s1]; [|discriminate].
  rewrite bind_run.
  destruct (Meta.fetchDatasetItems (defaultDatasetId run) e s1)
    as [[items|x] s2] eqn:Hitems; [|discriminate].
  apply SuccessFacts.meta_fetchDatasetItems_run in Hitems as [Hitems _].
  destruct items as [|raw items]; cbn [length Nat.eqb].
  { rewrite bind_now. intros H. inversion H; subst. exists run, [].
    repeat split; [exact Hitems|constructor]. }
  rewrite bind_run.
  destruct (meta_normalize_each jsDate
              (fun rawAd => or_str (Meta.r_pageName rawAd) (trim pid))
              (raw :: items) e s2) as (normalized & s3 & -> & Hnorm & _).
  rewrite bind_now. intros H. inversion H; subst. exists run, (raw :: items).
  cbn [ads totalFound Meta.successResult].
  repeat split; [exact Hitems|exact Hnorm|].
  f_equal. symmetry. exact (Forall2_length _ _ _ Hnorm).
Qed.

(** The state in which the cold search starts. *)
Lemma meta_miss_run jsDate cfg brand options (e : Meta.Env) (s : Meta.State) :
  Meta.isBlank brand = false ->
  (Meta.lookupBrandInCache (trim brand) e s).1 = Normal None ->
  exists s1,
    Meta.fetchAdsByBrand jsDate cfg brand options e s
    = try_catch (Meta.coldSearch jsDate cfg (trim brand) options (e_clock e (s_ticks s)))
        (fun error => Meta.handleError error (trim brand) (e_clock e (s_ticks s)))
        e s1
    /\ s_calls s1 = s_calls s
    /\ cacheWrites s1 = cacheWrites s /\ clientCalls s1 = clientCalls s.
Proof.
  intros Hblank Hmiss. unfold Meta.fetchAdsByBrand. rewrite bind_now, Hblank, bind_run.
  destruct (CacheFacts.lookupBrandInCache_run (trim brand) e s) as (s0 & Hrun0 & _).
  rewrite Hrun0 in Hmiss. cbn in Hmiss. injection Hmiss as Hmiss.
  destruct (CacheFacts.lookupBrandInCache_run (trim brand) e (ticked s))
    as (s1 & -> & _ & _ & Hc & Hw & Hcl).
  change (metaLoaded (ticked s)) with (metaLoaded s). rewrite Hmiss.
  exists s1. repeat split; assumption.
Qed.

End PathFacts.

Module GooglePathFacts.
Import Js Props JsFacts MonadFacts Spec.

Lemma google_normalize_calls term items (e : Google.Env) (s : Google.State) :
  exists normalized s',
    mapM (Google.normalizeAd term) items e s = (Normal normalized, s')
    /\ GoogleNormalized term items normalized
    /\ s_calls s' = s_calls s /\ s_cache s' = s_cache s
    /\ cacheWrites s' = cacheWrites s.
Proof.
  destruct (DiscoveryFacts.google_normalize_all term items e s)
    as (normalized & s' & Hrun & Hn & Ht & Hc).
  exists normalized, s'. repeat split; try assumption.
  - pose proof (Preserves_mapM s_calls (Google.normalizeAd term) items
                  (SuccessFacts.google_normalizeAd_calls term) e s) as H.
    unfold outcome in H. now rewrite Hrun in H.
  - unfold cacheWrites. now rewrite Ht.
Qed.

Lemma google_save_calls t aid name dom (e : Google.Env) (s : Google.State) :
  exists s', Google.saveToCache t aid name dom e s = (Normal tt, s')
             /\ s_calls s' = s_calls s.
Proof.
  destruct (DiscoveryFacts.google_save_writes t aid name dom e s) as (s' & Hrun & _).
  exists s'. split; [exact Hrun|].
  pose proof (SuccessFacts.google_saveToCache_calls t aid name dom e s) as H.
  unfold outcome in H. now rewrite Hrun in H.
Qed.

(** A fetch by advertiser id: one call, and the result by what the call and
    the dataset do; a successful one returns the normalised records, cut to
    [maxAds]. *)
Lemma fetchAdsByAdvertiserId_outcome cfg aid options (e : Google.Env) (s : Google.State) :
  exists r s',
    Google.fetchAdsByAdvertiserId cfg aid options e s = (Normal r, s')
    /\ s_calls s' = S (s_calls s)
    /\ GoogleOutcome e (s_calls s) r
    /\ (success r = true ->
        exists run items normalized,
          e_script e (s_calls s) = CallReturns run
          /\ e_items e (defaultDatasetId run) = ItemsReturn items
          /\ GoogleNormalized "" items normalized
          /\ ads r = slice0 normalized
                       (num_or (maxAds options) (Google.defaultMaxAds cfg))).
Proof.
  unfold Google.fetchAdsByAdvertiserId, GoogleOutcome. rewrite bind_now.
  unfold try_catch. rewrite bind_run. unfold actorCall at 1.
  change (s_calls (ticked s)) with (s_calls s).
  destruct (e_script e (s_calls s)) as [run|x].
  2: { rewrite bind_now. eexists _, _. split; [reflexivity|]. cbn.
       repeat split. discriminate. }
  destruct (RunStatus_eqb (run_status run) SUCCEEDED); cbn [negb].
  2: { rewrite bind_now. eexists _, _. split; [reflexivity|]. cbn.
       repeat split. discriminate. }
  rewrite bind_run. unfold listItems at 1. cbn [defaultDatasetId].
  destruct (e_items e (defaultDatasetId run)) as [items|x] eqn:Hitems.
  2: { rewrite bind_now. eexists _, _. split; [reflexivity|]. cbn.
       repeat split. discriminate. }
  rewrite bind_run.
  match goal with
  | |- context [mapM _ _ e ?s2] =>
      destruct (google_normalize_calls "" items e s2)
        as (normalized & s3 & -> & Hnorm & Hcalls & _)
  end.
  rewrite bind_now. eexists _, _. split; [reflexivity|]. cbn in *.
  repeat split.
  - exact Hcalls.
  - f_equal. symmetry. exact (Forall2_length _ _ _ Hnorm).
  - intros _. now exists run, items, normalized.
Qed.

(** A cold search: one call, and the result by what the call and the
    dataset do. *)
Lemma coldSearch_outcome cfg t dom options startTime (e : Google.Env) (s : Google.State) :
  exists r s',
    try_catch (Google.coldSearch cfg t dom options startTime)
      (fun error =>
         t' ← now;
         mret (Google.failureResult (Google.messageOf error) UNKNOWN
                 (Some not_verified) t (t' - startTime)%Z)) e s
    = (Normal r, s')
    /\ s_calls s' = S (s_calls s)
    /\ GoogleOutcome e (s_calls s) r.
Proof.
  unfold Google.coldSearch, GoogleOutcome, try_catch. rewrite bind_run.
  unfold actorCall at 1.
  destruct (e_script e (s_calls s)) as [run|x].
  2: { rewrite bind_now. eexists _, _. split; [reflexivity|]. cbn. now repeat split. }
  destruct (RunStatus_eqb (run_status run) SUCCEEDED); cbn [negb].
  2: { rewrite bind_now. eexists _, _. split; [reflexivity|]. cbn. now repeat split. }
  rewrite bind_run. unfold listItems at 1. cbn [defaultDatasetId].
  destruct (e_items e (defaultDatasetId run)) as [items|x] eqn:Hitems.
  2: { rewrite bind_now. eexists _, _. split; [reflexivity|]. cbn. now repeat split. }
  destruct items as [|firstAd rest].
  { rewrite bind_now. eexists _, _. split; [reflexivity|]. cbn. now repeat split. }
  rewrite bind_run.
  match goal with
  | |- context [mapM _ _ e ?s2] =>
      destruct (google_normalize_calls t (firstAd :: rest) e s2)
        as (normalized & s3 & -> & Hnorm & Hcalls & _)
  end.
  rewrite bind_run.
  destruct (truthy (Google.g_advertiserId firstAd)).
  - match goal with
    | |- context [Google.saveToCache ?a ?b ?c ?d e s3] =>
        destruct (google_save_calls a b c d e s3) as (s4 & -> & Hcalls4)
    end.
    rewrite bind_now. eexists _, _. split; [reflexivity|]. cbn in *.
    repeat split; [congruence|].
    f_equal. symmetry. exact (Forall2_length _ _ _ Hnorm).
  - unfold mret at 1, M_ret, ret. rewrite bind_now.
    eexists _, _. split; [reflexivity|]. cbn in *.
    repeat split; [congruence|].
    f_equal. symmetry. exact (Forall2_length _ _ _ Hnorm).
Qed.

(** A fetch by brand, for a brand that is not blank. *)
Lemma fetchAdsByBrand_outcome cfg brand options (e : Google.Env) (s : Google.State) :
  Google.isBlank brand = false ->
  exists r s',
    Google.fetchAdsByBrand cfg brand options e s = (Normal r, s')
    /\ s_calls s' = S (s_calls s)
    /\ GoogleOutcome e (s_calls s) r.
Proof.
  intros Hblank. unfold Google.fetchAdsByBrand. rewrite bind_now, Hblank, bind_run.
  destruct (CacheFacts.lookupInCache_run (trim brand) e (ticked s))
    as (s1 & -> & _ & _ & Hc & _).
  change (s_calls (ticked s)) with (s_calls s) in Hc.
  destruct (googleEntry _ _) as [entry|].
  - rewrite bind_run.
    destruct (fetchAdsByAdvertiserId_outcome cfg (Google.ace_advertiserId entry)
                options e s1) as (r & s' & -> & Hcalls & Hout & _).
    rewrite Hc in *. eexists _, _. split; [reflexivity|]. split; [exact Hcalls|].
    unfold GoogleOutcome in *. cbn.
    destruct (e_script e (s_calls s)) as [run|x]; [|exact Hout].
    destruct (RunStatus_eqb (run_status run) SUCCEEDED); [|exact Hout].
    destruct (e_items e (defaultDatasetId run)); exact Hout.
  - destruct (coldSearch_outcome cfg (trim brand) (Google.buildDomain (trim brand))
                options (e_clock e (s_ticks s)) e s1) as (r & s' & Hrun & Hcalls & Hout).
    rewrite Hc in *. exists r, s'. split; [exact Hrun|]. now split.
Qed.

End GooglePathFacts.

(** X19.  Meta fetch with the brand in the cache: the result is marked as
    cached and carries the cached name, the cache is not written, and a
    successful result holds every record of the dataset, normalised in
    order; the records are neither filtered by page nor cut to [maxAds], and
    a record without a page name is named by the page id. *)
Theorem X19_meta_cache_hit (jsDate : string -> option Z) (cfg : Meta.Config)
    (brand : string) (options : FetchAdsOptions) (e : Meta.Env) (s : Meta.State)
    (entry : Meta.BrandCacheEntry) :
  Meta.isBlank brand = false ->
  (Meta.lookupBrandInCache (Js.trim brand) e s).1 = Normal (Some entry) ->
  exists r s',
    Meta.fetchAdsByBrand jsDate cfg brand options e s = (Normal r, s')
    /\ brandSource r = Some cached
    /\ verifiedBrandName r = Some (Meta.bce_name entry)
    /\ Props.cacheWrites s' = Props.cacheWrites s
    /\ (success r = true ->
        exists run items,
          e_items e (defaultDatasetId run) = ItemsReturn items
          /\ Forall2
               (fun raw ad =>
                  exists t, ad = Meta.normalizeAd jsDate raw
                                   (Js.or_str (Meta.r_pageName raw)
                                      (Js.trim (Meta.bce_pageId entry))) t)
               items (ads r)
          /\ totalFound r = Some (length items)).
Proof.
  intros Hblank Hhit. unfold Meta.fetchAdsByBrand.
  rewrite MonadFacts.bind_now, Hblank, MonadFacts.bind_run.
  rewrite StoreFacts.meta_lookup_result in Hhit. injection Hhit as Hhit.
  destruct (CacheFacts.lookupBrandInCache_run (Js.trim brand) e (Props.ticked s))
    as (s1 & -> & _ & _ & _ & Hw & _).
  change (Props.metaLoaded (Props.ticked s)) with (Props.metaLoaded s). rewrite Hhit.
  change (Props.cacheWrites (Props.ticked s)) with (Props.cacheWrites s) in Hw.
  rewrite MonadFacts.bind_run.
  destruct (EnsuresFacts.Ensures_run _ _ e s1
              (EnsuresFacts.meta_fetchAdsByPageId_typed jsDate cfg
                 (Meta.bce_pageId entry) options)) as (r1 & s2 & Hrun & _).
  pose proof (DiscoveryFacts.meta_fetchAdsByPageId_writes jsDate cfg
                (Meta.bce_pageId entry) options e s1) as Hw2.
  unfold Props.outcome in Hw2. rewrite Hrun in Hw2 |- *.
  eexists _, _. split; [reflexivity|]. cbn.
  repeat split; [congruence|].
  intros Hs. exact (PathFacts.meta_fetchAdsByPageId_all _ _ _ _ _ _ _ _ Hrun Hs).
Qed.

Lemma X19_witness :
  exists r s',
    Meta.fetchAdsByBrand Fixtures.noDate Meta.DEFAULT_CONFIG " NIKE " Fixtures.fiveAds
      Fixtures.acmeEnv Fixtures.metaNikeA = (Normal r, s')
    /\ brandSource r = Some cached
    /\ verifiedBrandName r = Some "Nike"
    /\ Props.cacheWrites s' = Props.cacheWrites Fixtures.metaNikeA
    /\ (success r = true ->
        exists run items,
          e_items Fixtures.acmeEnv (defaultDatasetId run) = ItemsReturn items
          /\ Forall2
               (fun raw ad =>
                  exists t, ad = Meta.normalizeAd Fixtures.noDate raw
                                   (Js.or_str (Meta.r_pageName raw) (Js.trim "A")) t)
               items (ads r)
          /\ totalFound r = Some (length items)).
Proof.
  apply (X19_meta_cache_hit Fixtures.noDate Meta.DEFAULT_CONFIG " NIKE "
           Fixtures.fiveAds Fixtures.acmeEnv Fixtures.metaNikeA
           {| Meta.bce_pageId := "A"; Meta.bce_name := "Nike" |});
    vm_compute; reflexivity.
Defined.

(** X20.  Meta fetch, brand not in the cache, no record in the dataset: when
    the first call of the actor returns a run that is neither failed nor
    timed out and the dataset of the run is empty, the fetch succeeds with no
    ads, a total of zero and the source not_verified, after that one call,
    and leaves the cache unwritten. *)
Theorem X20_meta_empty_dataset (jsDate : string -> option Z) (cfg : Meta.Config)
    (brand : string) (options : FetchAdsOptions) (e : Meta.Env) (s : Meta.State)
    (run : ActorRun) :
  Meta.isBlank brand = false ->
  (Meta.lookupBrandInCache (Js.trim brand) e s).1 = Normal None ->
  e_script e (s_calls s) = CallReturns run ->
  run_status run <> FAILED -> run_status run <> TIMED_OUT ->
  e_items e (defaultDatasetId run) = ItemsReturn [] ->
  exists r s',
    Meta.fetchAdsByBrand jsDate cfg brand options e s = (Normal r, s')
    /\ success r = true /\ ads r = [] /\ totalFound r = Some 0%nat
    /\ brandSource r = Some not_verified /\ verifiedBrandName r = None
    /\ s_calls s' = S (s_calls s)
    /\ Props.cacheWrites s' = Props.cacheWrites s.
Proof.
  intros Hblank Hmiss Hcall Hnf Hnt Hitems.
  destruct (PathFacts.meta_miss_run jsDate cfg brand options e s Hblank Hmiss)
    as (s1 & -> & Hc & Hw & _).
  unfold try_catch, Meta.coldSearch. rewrite MonadFacts.bind_run.
  rewrite (PathFacts.retry_first_ok cfg 1 e s1 run).
  2: { now rewrite Hc. }
  2: { unfold Props.attemptError. destruct (run_status run); congruence. }
  rewrite MonadFacts.bind_run.
  unfold Meta.fetchDatasetItems, try_catch, listItems. rewrite Hitems.
  cbn [length Nat.eqb]. rewrite MonadFacts.bind_now.
  eexists _, _. split; [reflexivity|]. cbn.
  repeat split; [congruence|]. unfold Props.cacheWrites in *. cbn. exact Hw.
Qed.

Lemma X20_witness :
  exists r s',
    Meta.fetchAdsByBrand Fixtures.noDate Meta.DEFAULT_CONFIG "Acme" Fixtures.fiveAds
      Samples.emptyEnv (Fixtures.stateOf None None) = (Normal r, s')
    /\ success r = true /\ ads r = [] /\ totalFound r = Some 0%nat
    /\ brandSource r = Some not_verified /\ verifiedBrandName r = None
    /\ s_calls s' = 1%nat
    /\ Props.cacheWrites s' = [].
Proof.
  apply (X20_meta_empty_dataset Fixtures.noDate Meta.DEFAULT_CONFIG "Acme"
           Fixtures.fiveAds Samples.emptyEnv (Fixtures.stateOf None None)
           (Fixtures.runWith SUCCEEDED));
    first [reflexivity | discriminate].
Defined.

(** X21.  Meta fetch, brand not in the cache, run reported as failed: the
    fetch makes that one call of the actor, reads no dataset, writes no
    cache, and reports the failure with the code RUN_FAILED and the message
    of the retry controller. *)
Theorem X21_meta_failed_run (jsDate : string -> option Z) (cfg : Meta.Config)
    (brand : string) (options : FetchAdsOptions) (e : Meta.Env) (s : Meta.State)
    (run : ActorRun) :
  Meta.isBlank brand = false ->
  (Meta.lookupBrandInCache (Js.trim brand) e s).1 = Normal None ->
  e_script e (s_calls s) = CallReturns run ->
  run_status run = FAILED ->
  exists r s',
    Meta.fetchAdsByBrand jsDate cfg brand options e s = (Normal r, s')
    /\ success r = false /\ ads r = []
    /\ errorCode r = Some RUN_FAILED
    /\ error r = Some "Actor run failed with status: FAILED"
    /\ s_calls s' = S (s_calls s)
    /\ Props.clientCalls s' = EvActorCall 1 :: Props.clientCalls s
    /\ Props.cacheWrites s' = Props.cacheWrites s.
Proof.
  intros Hblank Hmiss Hcall Hst.
  destruct (PathFacts.meta_miss_run jsDate cfg brand options e s Hblank Hmiss)
    as (s1 & -> & Hc & Hw & Hcl).
  unfold try_catch, Meta.coldSearch. rewrite MonadFacts.bind_run.
  rewrite (PathFacts.retry_first_failed cfg 1 e s1 run) by (try rewrite Hc; assumption).
  eexists _, _. split; [reflexivity|]. cbn.
  repeat split; [congruence| |].
  - unfold Props.clientCalls in *. cbn. now rewrite Hcl.
  - unfold Props.cacheWrites in *. cbn. exact Hw.
Qed.

Lemma X21_witness :
  exists r s',
    Meta.fetchAdsByBrand Fixtures.noDate Meta.DEFAULT_CONFIG "Acme" Fixtures.fiveAds
      Samples.failingEnv (Fixtures.stateOf None None) = (Normal r, s')
    /\ success r = false /\ ads r = []
    /\ errorCode r = Some RUN_FAILED
    /\ error r = Some "Actor run failed with status: FAILED"
    /\ s_calls s' = 1%nat
    /\ Props.clientCalls s' = [EvActorCall 1]
    /\ Props.cacheWrites s' = [].
Proof.
  apply (X21_meta_failed_run Fixtures.noDate Meta.DEFAULT_CONFIG "Acme"
           Fixtures.fiveAds Samples.failingEnv (Fixtures.stateOf None None)
           (Fixtures.runWith FAILED)); reflexivity.
Defined.

(** X22.  Meta fetch, brand not in the cache, dataset that cannot be read:
    whatever error the reading raises, the fetch reports the code
    NETWORK_ERROR with a fixed message; the error of the reading is not
    passed on, and the run is not called again. *)
Theorem X22_meta_unreadable_dataset (jsDate : string -> option Z) (cfg : Meta.Config)
    (brand : string) (options : FetchAdsOptions) (e : Meta.Env) (s : Meta.State)
    (run : ActorRun) (x : JsError) :
  Meta.isBlank brand = false ->
  (Meta.lookupBrandInCache (Js.trim brand) e s).1 = Normal None ->
  e_script e (s_calls s) = CallReturns run ->
  run_status run <> FAILED -> run_status run <> TIMED_OUT ->
  e_items e (defaultDatasetId run) = ItemsThrow x ->
  exists r s',
    Meta.fetchAdsByBrand jsDate cfg brand options e s = (Normal r, s')
    /\ success r = false /\ ads r = []
    /\ errorCode r = Some NETWORK_ERROR
    /\ error r = Some "Failed to fetch results from dataset"
    /\ s_calls s' = S (s_calls s)
    /\ Props.cacheWrites s' = Props.cacheWrites s.
Proof.
  intros Hblank Hmiss Hcall Hnf Hnt Hitems.
  destruct (PathFacts.meta_miss_run jsDate cfg brand options e s Hblank Hmiss)
    as (s1 & -> & Hc & Hw & _).
  unfold try_catch, Meta.coldSearch. rewrite MonadFacts.bind_run.
  rewrite (PathFacts.retry_first_ok cfg 1 e s1 run).
  2: { now rewrite Hc. }
  2: { unfold Props.attemptError. destruct (run_status run); congruence. }
  rewrite MonadFacts.bind_run.
  unfold Meta.fetchDatasetItems, try_catch, listItems. rewrite Hitems.
  eexists _, _. split; [reflexivity|]. cbn.
  repeat split; [congruence|]. unfold Props.cacheWrites in *. cbn. exact Hw.
Qed.

Lemma X22_witness :
  exists r s',
    Meta.fetchAdsByBrand Fixtures.noDate Meta.DEFAULT_CONFIG "Acme" Fixtures.fiveAds
      Samples.unreadableEnv (Fixtures.stateOf None None) = (Normal r, s')
    /\ success r = false /\ ads r = []
    /\ errorCode r = Some NETWORK_ERROR
    /\ error r = Some "Failed to fetch results from dataset"
    /\ s_calls s' = 1%nat
    /\ Props.cacheWrites s' = [].
Proof.
  apply (X22_meta_unreadable_dataset Fixtures.noDate Meta.DEFAULT_CONFIG "Acme"
           Fixtures.fiveAds Samples.unreadableEnv (Fixtures.stateOf None None)
           (Fixtures.runWith SUCCEEDED) (Error "socket hang up"));
    first [reflexivity | discriminate].
Defined.

(** X23.  Google fetch with the brand in the cache: the result is marked as
    cached and carries the cached name, the cache is left as it was, and a
    successful result holds the normalised records of the dataset cut to
    [maxAds], with the total counting all of them. *)
Theorem X23_google_cache_hit (cfg : Google.Config) (brand : string)
    (options : FetchAdsOptions) (e : Google.Env) (s : Google.State)
    (entry : Google.AdvertiserCacheEntry) :
  Google.isBlank brand = false ->
  (Google.lookupInCache (Js.trim brand) e s).1 = Normal (Some entry) ->
  exists r s',
    Google.fetchAdsByBrand cfg brand options e s = (Normal r, s')
    /\ brandSource r = Some cached
    /\ verifiedBrandName r = Some (Google.ace_name entry)
    /\ Props.cacheWrites s' = Props.cacheWrites s
    /\ (success r = true ->
        exists run items normalized,
          e_script e (s_calls s) = CallReturns run
          /\ e_items e (defaultDatasetId run) = ItemsReturn items
          /\ Props.GoogleNormalized "" items normalized
          /\ ads r = Js.slice0 normalized
                       (num_or (maxAds options) (Google.defaultMaxAds cfg))
          /\ totalFound r = Some (length items)).
Proof.
  intros Hblank Hhit. unfold Google.fetchAdsByBrand.
  rewrite MonadFacts.bind_now, Hblank, MonadFacts.bind_run.
  change ((Google.lookupInCache (Js.trim brand) e s).1)
    with (Normal (A := option Google.AdvertiserCacheEntry)
            (Props.googleEntry s (Google.normalizeKey (Js.trim brand)))) in Hhit.
  injection Hhit as Hhit.
  destruct (CacheFacts.lookupInCache_run (Js.trim brand) e (Props.ticked s))
    as (s1 & -> & _ & _ & Hc & Hw & _).
  change (Props.googleEntry (Props.ticked s)) with (Props.googleEntry s). rewrite Hhit.
  change (Props.cacheWrites (Props.ticked s)) with (Props.cacheWrites s) in Hw.
  change (s_calls (Props.ticked s)) with (s_calls s) in Hc.
  rewrite MonadFacts.bind_run.
  destruct (GooglePathFacts.fetchAdsByAdvertiserId_outcome cfg
              (Google.ace_advertiserId entry) options e s1)
    as (r1 & s2 & Hrun & _ & Hout & Hads).
  pose proof (DiscoveryFacts.google_fetchAdsByAdvertiserId_writes cfg
                (Google.ace_advertiserId entry) options e s1) as Hw2.
  unfold Props.outcome in Hw2. rewrite Hrun in Hw2 |- *.
  eexists _, _. split; [reflexivity|]. cbn.
  repeat split; [congruence|].
  intros Hs. destruct (Hads Hs) as (run & items & normalized & H1 & H2 & H3 & H4).
  rewrite Hc in H1. exists run, items, normalized. repeat split; try assumption.
  unfold Spec.GoogleOutcome in Hout. rewrite Hc, H1 in Hout.
  destruct (RunStatus_eqb (run_status run) SUCCEEDED); [|destruct Hout; congruence].
  rewrite H2 in Hout. exact (proj2 Hout).
Qed.

Lemma X23_witness :
  exists r s',
    Google.fetchAdsByBrand Google.DEFAULT_CONFIG " NIKE " Fixtures.fiveAds
      Fixtures.twoAdvertisersEnv Fixtures.googleNikeA = (Normal r, s')
    /\ brandSource r = Some cached
    /\ verifiedBrandName r = Some "Nike"
    /\ Props.cacheWrites s' = Props.cacheWrites Fixtures.googleNikeA
    /\ (success r = true ->
        exists run items normalized,
          e_script Fixtures.twoAdvertisersEnv (s_calls Fixtures.googleNikeA)
            = CallReturns run
          /\ e_items Fixtures.twoAdvertisersEnv (defaultDatasetId run)
             = ItemsReturn items
          /\ Props.GoogleNormalized "" items normalized
          /\ ads r = Js.slice0 normalized
                       (num_or (maxAds Fixtures.fiveAds)
                          (Google.defaultMaxAds Google.DEFAULT_CONFIG))
          /\ totalFound r = Some (length items)).
Proof.
  apply (X23_google_cache_hit Google.DEFAULT_CONFIG " NIKE " Fixtures.fiveAds
           Fixtures.twoAdvertisersEnv Fixtures.googleNikeA
           {| Google.ace_advertiserId := "A"; Google.ace_name := "Nike";
              Google.ace_domain := "nike.com" |});
    vm_compute; reflexivity.
Defined.

(** X24.  A fetch of the Google service for a brand that is not blank makes
    exactly one call of the actor, in the cache-hit and in the cold path
    alike, and never calls again.  Its result follows from that call: an
    error of the call or of the reading of the dataset is reported with the
    code UNKNOWN and the message of the error; a run whose status is not
    SUCCEEDED with the code RUN_FAILED; otherwise the fetch succeeds, and its
    total is the number of records of the dataset.  A failure carries a
    message and no ads. *)
Theorem X24_google_one_call_outcomes (cfg : Google.Config) (brand : string)
    (options : FetchAdsOptions) (e : Google.Env) (s : Google.State) :
  Google.isBlank brand = false ->
  exists r s',
    Google.fetchAdsByBrand cfg brand options e s = (Normal r, s')
    /\ s_calls s' = S (s_calls s)
    /\ Spec.GoogleOutcome e (s_calls s) r
    /\ (success r = false -> ads r = [] /\ is_Some (error r)).
Proof.
  intros Hblank.
  destruct (GooglePathFacts.fetchAdsByBrand_outcome cfg brand options e s Hblank)
    as (r & s' & Hrun & Hcalls & Hout).
  exists r, s'. repeat split; try assumption.
  - pose proof (EnsuresFacts.google_fetchAdsByBrand_typed cfg brand options e s) as Ht.
    unfold Props.outcome in Ht. rewrite Hrun in Ht. now apply Ht.
  - pose proof (EnsuresFacts.google_fetchAdsByBrand_typed cfg brand options e s) as Ht.
    unfold Props.outcome in Ht. rewrite Hrun in Ht. now apply Ht.
Qed.

Lemma X24_witness :
  exists r s',
    Google.fetchAdsByBrand Google.DEFAULT_CONFIG "Acme" Fixtures.fiveAds
      Samples.unreadableEnv (Fixtures.stateOf None None) = (Normal r, s')
    /\ s_calls s' = 1%nat
    /\ Spec.GoogleOutcome Samples.unreadableEnv 0 r
    /\ (success r = false -> ads r = [] /\ is_Some (error r)).
Proof.
  apply (X24_google_one_call_outcomes Google.DEFAULT_CONFIG "Acme" Fixtures.fiveAds
           Samples.unreadableEnv (Fixtures.stateOf None None)).
  reflexivity.
Defined.

(** ** Domains and URLs handed to the actors *)

Module DomainFacts.
Import Js Props JsFacts Google Spec.

Lemma space_not_alnum c : isWhiteSpace c = true -> isLowerAlnum c = false.
Proof. destruct c as [[] [] [] [] [] [] [] []]; cbv; congruence. Qed.

Lemma keep_trimStart s : keepLowerAlnum (trimStart s) = keepLowerAlnum s.
Proof.
  induction s as [|c r IH]; simpl; [reflexivity|].
  destruct (isWhiteSpace c) eqn:E; [|reflexivity].
  now rewrite (space_not_alnum c E).
Qed.

Lemma keep_trimEnd s : keepLowerAlnum (trimEnd s) = keepLowerAlnum s.
Proof.
  induction s as [|c r IH]; simpl; [reflexivity|].
  destruct (isWhiteSpace c) eqn:E; simpl.
  - rewrite (space_not_alnum c E).
    destruct (trimEnd r) eqn:Er; simpl in *; [exact IH|].
    now rewrite (space_not_alnum c E).
  - now rewrite IH.
Qed.

Lemma keep_trim s : keepLowerAlnum (trim s) = keepLowerAlnum s.
Proof. unfold trim. now rewrite keep_trimEnd, keep_trimStart. Qed.

Lemma chars_app a b : chars (a ++ b) = (chars a ++ chars b)%list.
Proof.
  induction a as [|c a IH]; [now rewrite append_empty|].
  rewrite append_cons. simpl. now rewrite IH.
Qed.

Lemma keep_chars s c : In c (chars (keepLowerAlnum s)) -> isLowerAlnum c = true.
Proof.
  induction s as [|d r IH]; simpl; [tauto|].
  destruct (isLowerAlnum d) eqn:E; [|exact IH].
  simpl. intros [<-|H]; [exact E|now apply IH].
Qed.

Lemma trimStart_chars s c : In c (chars (trimStart s)) -> In c (chars s).
Proof.
  induction s as [|d r IH]; simpl; [tauto|].
  destruct (isWhiteSpace d); [|tauto]. intros H. right. now apply IH.
Qed.

Lemma trimEnd_chars s c : In c (chars (trimEnd s)) -> In c (chars s).
Proof.
  induction s as [|d r IH]; simpl; [tauto|].
  destruct (isWhiteSpace d && isEmpty (trimEnd r)); simpl; [tauto|].
  intros [H|H]; [now left|right; now apply IH].
Qed.

Lemma trim_chars s c : In c (chars (trim s)) -> In c (chars s).
Proof. unfold trim. intros H. now apply trimStart_chars, trimEnd_chars. Qed.

Lemma assoc_In m key v : assoc m key = Some v -> In v (map snd m).
Proof.
  induction m as [|[k w] m IH]; simpl; [discriminate|].
  destruct (streq k key); [intros [= ->]; now left|].
  intros H. right. now apply IH.
Qed.

End DomainFacts.

(** X25.  The domain that the Google service builds for a brand depends only
    on the normalised key of the brand: two spellings that share a cache key
    (letter case, surrounding white space) give the same domain, so the
    domain stored in a cache entry fits every spelling that finds it. *)
Theorem X25_buildDomain_depends_on_key (a b : string) :
  Google.normalizeKey a = Google.normalizeKey b ->
  Google.buildDomain a = Google.buildDomain b.
Proof.
  intros Hk. unfold Google.buildDomain. rewrite Hk.
  destruct (Google.assoc Google.domainMap (Google.normalizeKey b)); [reflexivity|].
  f_equal. f_equal.
  rewrite <- (DomainFacts.keep_trim (Js.toLowerCase a)).
  rewrite <- (DomainFacts.keep_trim (Js.toLowerCase b)).
  unfold Google.normalizeKey in Hk. now rewrite Hk.
Qed.

Lemma X25_witness : Google.buildDomain "  Nike " = Google.buildDomain "NIKE".
Proof. apply (X25_buildDomain_depends_on_key "  Nike " "NIKE"). reflexivity. Defined.

(** X26.  For every brand whose key the domain table does not inherit, the
    domain that the Google service builds ends in .com and holds only
    lower-case letters, digits, dots and hyphens.  [buildSearchUrl] writes it
    as the last parameter of the search URL, so nothing of the brand text can
    add a parameter to that URL. *)
Theorem X26_buildDomain_is_host_name (brand region : string) :
  Js.inheritedKey (Google.normalizeKey brand) = false ->
  (exists stem, Google.buildDomain brand = stem ++ ".com")
  /\ (forall c, In c (Spec.chars (Google.buildDomain brand)) ->
       Spec.isHostChar c = true)
  /\ ActorInput.buildSearchUrl (Google.buildDomain brand) region
     = "https://adstransparency.google.com/?region=" ++ region
         ++ "&domain=" ++ Google.buildDomain brand.
Proof.
  intros _.
  enough (H : (exists stem, Google.buildDomain brand = stem ++ ".com")
              /\ (forall c, In c (Spec.chars (Google.buildDomain brand)) ->
                    Spec.isHostChar c = true)).
  { destruct H as [H1 H2]. split; [exact H1|]. split; [exact H2|reflexivity]. }
  unfold Google.buildDomain.
  destruct (Google.assoc Google.domainMap (Google.normalizeKey brand)) as [d|] eqn:E.
  - apply DomainFacts.assoc_In in E. simpl in E.
    repeat (destruct E as [<-|E];
            [split;
             [match goal with
              | |- exists stem, ?d = _ =>
                  exists (Js.substring0 (String.length d - 4) d)
              end; vm_compute; reflexivity
             |intros c Hc; vm_compute in Hc;
              repeat (destruct Hc as [<-|Hc]; [reflexivity|]); destruct Hc]|]).
    destruct E.
  - split; [now eexists|].
    intros c Hc. rewrite DomainFacts.chars_app in Hc.
    apply in_app_or in Hc as [Hc|Hc].
    + apply DomainFacts.trim_chars, DomainFacts.keep_chars in Hc.
      unfold Spec.isHostChar. now rewrite Hc.
    + vm_compute in Hc. repeat (destruct Hc as [<-|Hc]; [reflexivity|]). destruct Hc.
Qed.

Lemma X26_witness :
  (exists stem, Google.buildDomain "Ben & Jerry's" = stem ++ ".com")
  /\ (forall c, In c (Spec.chars (Google.buildDomain "Ben & Jerry's")) ->
       Spec.isHostChar c = true)
  /\ ActorInput.buildSearchUrl (Google.buildDomain "Ben & Jerry's") "US"
     = "https://adstransparency.google.com/?region=" ++ "US"
         ++ "&domain=" ++ Google.buildDomain "Ben & Jerry's".
Proof. exact (X26_buildDomain_is_host_name "Ben & Jerry's" "US" eq_refl). Defined.

Module EncodingFacts.
Import Js Props JsFacts ActorInput Spec.

Lemma encodeUnit_chars c d : In d (chars (encodeUnit c)) -> isEncodedChar d = true.
Proof.
  destruct c as [[] [] [] [] [] [] [] []]; intros H; vm_compute in H;
    repeat (destruct H as [<-|H]; [reflexivity|]); destruct H.
Qed.

Lemma formUrlEncode_chars s d : In d (chars (formUrlEncode s)) -> isEncodedChar d = true.
Proof.
  induction s as [|c r IH]; simpl; [tauto|].
  fold (chars (encodeUnit c ++ formUrlEncode r)). rewrite DomainFacts.chars_app.
  intros H. apply in_app_or in H as [H|H]; [now apply (encodeUnit_chars c)|now apply IH].
Qed.

End EncodingFacts.

(** X27.  The Ad Library URL that the Meta service hands to the actor always
    has the same six parameters in the same order.  The brand name and the
    country code enter it only in encoded form, made of ASCII letters and
    digits and the characters * - . _ + and the percent sign: no brand name
    can end its parameter or add another one.  The input of the actor holds
    that URL alone, and asks for at most 200 records. *)
Theorem X27_ad_library_url_parameters (brandName : string) (options : FetchAdsOptions) :
  exists status country q,
    ActorInput.buildAdLibraryUrl brandName options
    = "https://www.facebook.com/ads/library/?"
        ++ Js.join "&"
             [ "active_status=" ++ status; "ad_type=all"; "country=" ++ country;
               "q=" ++ q; "search_type=page"; "media_type=all" ]
    /\ (status = "active" \/ status = "all")
    /\ q = ActorInput.formUrlEncode brandName
    /\ (forall c, In c (Spec.chars country) -> Spec.isEncodedChar c = true)
    /\ (forall c, In c (Spec.chars q) -> Spec.isEncodedChar c = true)
    /\ (forall maxAds,
          ActorInput.in_urls (ActorInput.buildActorInput brandName options maxAds)
          = [ActorInput.buildAdLibraryUrl brandName options]
          /\ (ActorInput.in_count (ActorInput.buildActorInput brandName options maxAds)
              <= 200)%Z).
Proof.
  exists (ActorInput.activeStatusOf options),
         (ActorInput.formUrlEncode (Js.or_str (countryCode options) "US")),
         (ActorInput.formUrlEncode brandName).
  split; [|split; [|split; [reflexivity|split; [|split]]]].
  - unfold ActorInput.buildAdLibraryUrl, ActorInput.searchParams.
    cbn [map]. f_equal.
    unfold ActorInput.activeStatusOf.
    destruct (Meta.isTrue (activeOnly options)); reflexivity.
  - unfold ActorInput.activeStatusOf. destruct (Meta.isTrue _); auto.
  - apply EncodingFacts.formUrlEncode_chars.
  - apply EncodingFacts.formUrlEncode_chars.
  - intros maxAds. split; [reflexivity|]. cbn. lia.
Qed.

(** ** The number of ads of a result *)

Module BoundFacts.
Import Js Props JsFacts MonadFacts EnsuresFacts Spec.

Lemma slice0_length {A} (l : list A) n :
  (0 <= n)%Z ->
  (length (slice0 l n) <= Z.to_nat n)%nat /\ (length (slice0 l n) <= length l)%nat.
Proof.
  intros Hn. unfold slice0. rewrite length_firstn.
  assert (Hneg : (n <? 0)%Z = false) by (apply Z.ltb_ge; lia).
  rewrite Hneg. lia.
Qed.

Lemma AdsWithin_none limit total source verified md :
  AdsWithin limit
    {| success := true; ads := []; error := None; errorCode := None;
       totalFound := total; brandSource := source; verifiedBrandName := verified;
       metadata := md |}.
Proof. split; cbn; intros; lia. Qed.

Lemma AdsWithin_failure limit message code source q d :
  AdsWithin limit (Google.failureResult message code source q d).
Proof. split; cbn; intros; lia. Qed.

Lemma AdsWithin_slice limit (l : list Ad) source verified md :
  (0 <= limit)%Z ->
  AdsWithin limit
    {| success := true; ads := slice0 l limit; error := None; errorCode := None;
       totalFound := Some (length l); brandSource := source;
       verifiedBrandName := verified; metadata := md |}.
Proof.
  intros H. destruct (slice0_length l limit H) as [H1 H2].
  split; cbn; [exact H1|]. intros n [= <-]. exact H2.
Qed.

Ltac within :=
  repeat ensures_step;
  first [ apply AdsWithin_failure | apply AdsWithin_none
        | apply AdsWithin_slice; assumption ].

Lemma google_coldSearch_within cfg t dom options startTime :
  (0 <= num_or (maxAds options) (Google.defaultMaxAds cfg))%Z ->
  Ensures (AdsWithin (num_or (maxAds options) (Google.defaultMaxAds cfg))) True
    (Google.coldSearch cfg t dom options startTime).
Proof. intros H. unfold Google.coldSearch. within. Qed.

Lemma google_fetchAdsByAdvertiserId_within cfg aid options :
  (0 <= num_or (maxAds options) (Google.defaultMaxAds cfg))%Z ->
  Ensures (AdsWithin (num_or (maxAds options) (Google.defaultMaxAds cfg))) False
    (Google.fetchAdsByAdvertiserId cfg aid options).
Proof. intros H. unfold Google.fetchAdsByAdvertiserId. within. Qed.

Lemma google_fetchAdsByBrand_within cfg brand options :
  (0 <= num_or (maxAds options) (Google.defaultMaxAds cfg))%Z ->
  Ensures (AdsWithin (num_or (maxAds options) (Google.defaultMaxAds cfg))) False
    (Google.fetchAdsByBrand cfg brand options).
Proof.
  intros H. unfold Google.fetchAdsByBrand. ensures_step. ensures_step; [within|].
  apply (Ensures_bind_total (fun _ => True)); [apply google_lookup_total|].
  intros [entry|] _.
  - apply (Ensures_bind_total
             (AdsWithin (num_or (maxAds options) (Google.defaultMaxAds cfg))));
      [now apply google_fetchAdsByAdvertiserId_within|].
    intros r Hr. apply Ensures_ret. exact Hr.
  - apply Ensures_try_catch; [now apply google_coldSearch_within|intros x; within].
Qed.

End BoundFacts.

(** X28.  The Google service keeps to [maxAds]: when the effective limit
    ([options.maxAds], or the default when that is missing or zero) is not
    negative, a fetch returns a result with at most that many ads, and with
    no more ads than the total it reports, on the cache-hit path and on the
    cold path alike. *)
Theorem X28_google_result_within_maxAds (cfg : Google.Config) (brand : string)
    (options : FetchAdsOptions) (e : Google.Env) (s : Google.State) :
  let limit := num_or (maxAds options) (Google.defaultMaxAds cfg) in
  (0 <= limit)%Z ->
  exists r s',
    Google.fetchAdsByBrand cfg brand options e s = (Normal r, s')
    /\ (length (ads r) <= Z.to_nat limit)%nat
    /\ forall n, totalFound r = Some n -> (length (ads r) <= n)%nat.
Proof.
  intros limit Hlimit.
  destruct (EnsuresFacts.Ensures_run _ _ e s
              (BoundFacts.google_fetchAdsByBrand_within cfg brand options Hlimit))
    as (r & s' & Hrun & Hw1 & Hw2).
  now exists r, s'.
Qed.

Lemma X28_witness :
  exists r s',
    Google.fetchAdsByBrand Google.DEFAULT_CONFIG "Nike" Fixtures.fiveAds
      Fixtures.twoAdvertisersEnv (Fixtures.stateOf None None) = (Normal r, s')
    /\ (length (ads r) <= 5)%nat
    /\ forall n, totalFound r = Some n -> (length (ads r) <= n)%nat.
Proof.
  apply (X28_google_result_within_maxAds Google.DEFAULT_CONFIG "Nike" Fixtures.fiveAds
           Fixtures.twoAdvertisersEnv (Fixtures.stateOf None None)).
  vm_compute. discriminate.
Defined.

(** ** The search route *)

Module RouteFacts.
Import Js Props JsFacts MonadFacts Routes.

Lemma validate_accepted q brand n cc :
  validate q = Accepted brand n cc ->
  Google.isBlank (trim brand) = false /\ (1 <= n <= 100)%Z.
Proof.
  unfold validate. destruct (q_brand q) as [b|]; [|discriminate].
  destruct (isEmpty b || (String.length (trim b) =? 0)%nat) eqn:Hb; [discriminate|].
  destruct (if truthy (q_maxAds q) then _ else _) as [m|]; [|discriminate].
  destruct ((m <? 1)%Z || (100 <? m)%Z) eqn:Hm; [discriminate|].
  intros H.
  assert (Hbn : b = brand /\ m = n).
  { destruct (if truthy (q_countryCode q) then _ else _) as [[|u l]|];
      [| destruct (isCountryCode (u :: l)) |]; inversion H; now subst. }
  destruct Hbn as [-> ->]. split.
  - apply orb_false_iff in Hb as [_ Hlen].
    unfold Google.isBlank. rewrite trim_idem, Hlen, orb_false_r.
    destruct (trim brand); [discriminate|reflexivity].
  - apply orb_false_iff in Hm as [H1 H2].
    apply Z.ltb_ge in H1, H2. lia.
Qed.

Lemma loadCache_run (e : Google.Env) (s : Google.State) :
  exists s0, Google.loadCache e s = (Normal tt, s0) /\ s_calls s0 = s_calls s.
Proof.
  unfold Google.loadCache. rewrite bind_run. unfold get at 1.
  destruct (s_cache s); [now exists s|].
  unfold try_catch. rewrite bind_run. unfold readCacheFile at 1.
  destruct (s_file s); eexists; split; reflexivity.
Qed.

Lemma failure_code (e : Google.Env) n r :
  Spec.GoogleOutcome e n r -> success r = false ->
  errorCode r = Some UNKNOWN \/ errorCode r = Some RUN_FAILED.
Proof.
  unfold Spec.GoogleOutcome. intros H Hs.
  destruct (e_script e n) as [run|x]; [|left; tauto].
  destruct (RunStatus_eqb (run_status run) SUCCEEDED); [|right; tauto].
  destruct (e_items e (defaultDatasetId run)); [|left; tauto].
  destruct H. congruence.
Qed.

(** The fetch that both handlers make, for an accepted query. *)
Lemma fetch_of_route t n cc (e : Google.Env) (s0 : Google.State) :
  Google.isBlank t = false -> (1 <= n <= 100)%Z ->
  exists r s',
    Google.fetchAdsByBrand Google.DEFAULT_CONFIG t
      {| maxAds := Some n; countryCode := cc; activeOnly := None;
         timeoutMs := None |} e s0 = (Normal r, s')
    /\ (s_calls s' <= S (s_calls s0))%nat
    /\ (success r = true -> length (ads r) <= 100)%nat
    /\ (success r = false ->
        errorCode r = Some UNKNOWN \/ errorCode r = Some RUN_FAILED).
Proof.
  intros Hblank Hn.
  set (options := {| maxAds := Some n; countryCode := cc; activeOnly := None;
                     timeoutMs := None |}).
  destruct (GooglePathFacts.fetchAdsByBrand_outcome Google.DEFAULT_CONFIG
              t options e s0 Hblank) as (r & s' & Hrun & Hcalls & Hout).
  assert (Hlimit : num_or (maxAds options) (Google.defaultMaxAds Google.DEFAULT_CONFIG) = n).
  { cbn. destruct (Z.eqb_spec n 0); [lia|reflexivity]. }
  assert (Hpos : (0 <= num_or (maxAds options)
                         (Google.defaultMaxAds Google.DEFAULT_CONFIG))%Z)
    by (rewrite Hlimit; lia).
  pose proof (BoundFacts.google_fetchAdsByBrand_within Google.DEFAULT_CONFIG
                t options Hpos e s0) as Hw.
  unfold Props.outcome in Hw. rewrite Hrun in Hw.
  destruct Hw as [Hw _]. rewrite Hlimit in Hw.
  exists r, s'. split; [exact Hrun|]. split; [lia|]. split; [intros _; lia|].
  intros Hs. exact (failure_code _ _ _ Hout Hs).
Qed.

End RouteFacts.

(** X29.  Both handlers of GET /search never throw and answer with the
    status 200, 400, 401 or 500: 400 for a query that fails validation and
    401 when the API key is missing, both without a call of the actor; 200
    exactly for a success; 500 for every failure of the fetch, so the
    statuses 402, 404, 429 and 504 of [getStatusCodeForApifyError] are never
    sent.  The ads of a body are never more than 100, and a request costs at
    most one call of the actor.  The handler that fetches for every request
    counts in [total] the ads it returns.  So does the handler with the
    search history when it fetches; when it finds a stored search it answers
    200 without touching the service, returns the first [maxAds] stored ads
    and counts in [total] all the stored ones, which can be more than it
    returns. *)
Theorem X29_search_route_statuses (production : bool) (apiKey : option string)
    (q : Routes.Query) (e : Google.Env) (s : Google.State) :
  (exists status body s',
     Routes.search production apiKey q e s = (Normal (status, body), s')
     /\ (status = 200 \/ status = 400 \/ status = 401 \/ status = 500)%Z
     /\ (Routes.rs_success body = true <-> status = 200%Z)
     /\ Routes.rs_total body = length (Routes.rs_ads body)
     /\ (length (Routes.rs_ads body) <= 100)%nat
     /\ (s_calls s' <= S (s_calls s))%nat
     /\ (status = 400%Z \/ status = 401%Z -> s_calls s' = s_calls s))
  /\ (forall getCachedSearch isoTime,
      exists status body s',
        RoutesWithHistory.search production apiKey getCachedSearch isoTime q e s
        = (Normal (status, body), s')
        /\ (status = 200 \/ status = 400 \/ status = 401 \/ status = 500)%Z
        /\ (Routes.rs_success body = true <-> status = 200%Z)
        /\ (length (Routes.rs_ads body) <= Routes.rs_total body)%nat
        /\ (Routes.rs_fromCache body <> Some true ->
            Routes.rs_total body = length (Routes.rs_ads body))
        /\ (length (Routes.rs_ads body) <= 100)%nat
        /\ (s_calls s' <= S (s_calls s))%nat
        /\ (status = 400%Z \/ status = 401%Z -> s_calls s' = s_calls s)
        /\ (forall brand n cc,
              Routes.validate q = Routes.Accepted brand n cc ->
              match getCachedSearch (Js.trim brand) with
              | Some item =>
                  status = 200%Z /\ s' = s
                  /\ Routes.rs_fromCache body = Some true
                  /\ Routes.rs_total body = length (SearchHistory.h_results item)
                  /\ Routes.rs_ads body
                     = Js.slice0
                         (map (RoutesWithHistory.cachedToAd isoTime
                                 (SearchHistory.h_searchedAt item))
                            (SearchHistory.h_results item)) n
                  /\ length (Routes.rs_ads body)
                     = Nat.min (Z.to_nat n) (length (SearchHistory.h_results item))
              | None => Routes.rs_fromCache body <> Some true
              end)).
Proof.
  split.
  - unfold Routes.search.
    destruct (Routes.validate q) as [message|brand n cc] eqn:Hv.
    { eexists _, _, _. split; [reflexivity|]. cbn.
      repeat split; try tauto; try lia; discriminate. }
    destruct (RouteFacts.validate_accepted _ _ _ _ Hv) as [Hblank Hn].
    unfold try_catch. rewrite MonadFacts.bind_run. unfold Routes.newGoogleAdsService.
    destruct (Js.truthy apiKey); cbn [negb].
    2: { eexists _, _, _. split; [reflexivity|]. cbn.
         repeat split; try tauto; try lia; discriminate. }
    destruct (RouteFacts.loadCache_run e s) as (s0 & -> & Hc0).
    rewrite MonadFacts.bind_run.
    destruct (RouteFacts.fetch_of_route (Js.trim brand) n cc e s0 Hblank Hn)
      as (r & s' & Hrun & Hcalls & Hlen & Hcode).
    rewrite Hrun.
    destruct (success r) eqn:Hs; cbn [negb].
    + eexists _, _, _. split; [reflexivity|]. cbn.
      repeat split; try tauto; try lia; try discriminate;
        try (intros [H|H]; discriminate).
    + destruct (Hcode eq_refl) as [Hc|Hc]; rewrite Hc.
      all: eexists _, _, _; (split; [reflexivity|]); cbn.
      all: repeat split; try tauto; try lia; try discriminate;
        try (intros [H|H]; discriminate).
  - intros getCachedSearch isoTime. unfold RoutesWithHistory.search.
    destruct (Routes.validate q) as [message|brand n cc] eqn:Hv.
    { eexists _, _, _. split; [reflexivity|]. cbn.
      repeat split; try tauto; try lia; discriminate. }
    destruct (RouteFacts.validate_accepted _ _ _ _ Hv) as [Hblank Hn].
    cbv zeta. unfold try_catch.
    destruct (getCachedSearch (Js.trim brand)) as [item|] eqn:Hhit.
    { destruct (BoundFacts.slice0_length
                  (map (RoutesWithHistory.cachedToAd isoTime
                          (SearchHistory.h_searchedAt item))
                     (SearchHistory.h_results item)) n ltac:(lia)) as [Hl1 Hl2].
      rewrite length_map in Hl2.
      eexists _, _, _. split; [reflexivity|]. cbn.
      rewrite length_map.
      split; [tauto|]. split; [tauto|]. split; [exact Hl2|].
      split; [intros H; now destruct H|]. split; [lia|]. split; [lia|].
      split; [intros [H|H]; discriminate|].
      intros brand' n' cc' Heq. injection Heq as <- <- <-. rewrite Hhit.
      repeat split.
      unfold Js.slice0. rewrite length_firstn, length_map.
      assert (Hneg : (n <? 0)%Z = false) by (apply Z.ltb_ge; lia).
      rewrite Hneg. lia. }
    rewrite MonadFacts.bind_run. unfold Routes.newGoogleAdsService.
    destruct (Js.truthy apiKey); cbn [negb].
    2: { eexists _, _, _. split; [reflexivity|]. cbn.
         repeat split; try tauto; try lia; try discriminate.
         intros brand' n' cc' Heq. injection Heq as <- <- <-. rewrite Hhit.
         discriminate. }
    destruct (RouteFacts.loadCache_run e s) as (s0 & -> & Hc0).
    rewrite MonadFacts.bind_run.
    destruct (RouteFacts.fetch_of_route (Js.trim brand) n cc e s0 Hblank Hn)
      as (r & s' & Hrun & Hcalls & Hlen & Hcode).
    rewrite Hrun.
    destruct (success r) eqn:Hs; cbn [negb].
    + eexists _, _, _. split; [reflexivity|]. cbn.
      repeat split; try tauto; try lia; try discriminate;
        try (intros [H|H]; discriminate).
      intros brand' n' cc' Heq. injection Heq as <- <- <-. rewrite Hhit.
      discriminate.
    + destruct (Hcode eq_refl) as [Hc|Hc]; rewrite Hc.
      all: eexists _, _, _; (split; [reflexivity|]); cbn.
      all: repeat split; try tauto; try lia; try discriminate;
        try (intros [H|H]; discriminate).
      all: intros brand' n' cc' Heq; injection Heq as <- <- <-; rewrite Hhit;
        discriminate.
Qed.

(** With a stored search of three ads and [maxAds=2], the handler with the
    search history returns two ads and a total of three, and calls nothing. *)
Example stored_search_total_exceeds_ads :
  let q := {| Routes.q_brand := Some "Acme"; Routes.q_maxAds := Some "2";
              Routes.q_countryCode := None |} in
  let res := RoutesWithHistory.search false None Samples.storedSearch (fun _ => 0%Z) q
               (Fixtures.offline : Google.Env) (Fixtures.stateOf None None) in
  exists body,
    res.1 = Normal (200%Z, body)
    /\ Routes.rs_success body = true
    /\ Routes.rs_fromCache body = Some true
    /\ length (Routes.rs_ads body) = 2%nat
    /\ Routes.rs_total body = 3%nat
    /\ res.2 = Fixtures.stateOf None None.
Proof. eexists. vm_compute. repeat split. Qed.

(** ** The number of calls of a fetch *)

Module CallFacts.
Import Js Props JsFacts MonadFacts Spec.

Section Rules.
Context {Raw Cache : Type}.

Lemma CallsWithin_preserved {A} (m : M Raw Cache A) N :
  Preserves s_calls m -> CallsWithin N m.
Proof.
  intros H e s. specialize (H e s). unfold outcome in *.
  destruct (m e s) as [[a|x] s']; lia.
Qed.

Lemma CallsWithin_first {A B} (m : M Raw Cache A) (k : A -> M Raw Cache B) N :
  CallsWithin N m -> (forall a, Preserves s_calls (k a)) -> CallsWithin N (m ≫= k).
Proof.
  intros Hm Hk e s. apply outcome_bind. specialize (Hm e s). unfold outcome in *.
  destruct (m e s) as [[a|x] s1]; [|lia].
  specialize (Hk a e s1). unfold outcome in Hk.
  destruct (k a e s1) as [[b|y] s2]; lia.
Qed.

Lemma CallsWithin_after {A B} (m : M Raw Cache A) (k : A -> M Raw Cache B) N :
  Preserves s_calls m -> (forall a, CallsWithin N (k a)) -> CallsWithin N (m ≫= k).
Proof.
  intros Hm Hk e s. apply outcome_bind. specialize (Hm e s). unfold outcome in *.
  destruct (m e s) as [[a|x] s1]; [|lia].
  specialize (Hk a e s1). unfold outcome in Hk.
  destruct (k a e s1) as [[b|y] s2]; lia.
Qed.

Lemma CallsWithin_try_catch {A} (m : M Raw Cache A) h N :
  CallsWithin N m -> (forall x, Preserves s_calls (h x)) ->
  CallsWithin N (try_catch m h).
Proof.
  intros Hm Hh e s. apply outcome_try_catch. specialize (Hm e s). unfold outcome in *.
  destruct (m e s) as [[a|x] s1]; [exact Hm|].
  specialize (Hh x e s1). unfold outcome in Hh.
  destruct (h x e s1) as [[b|y] s2]; lia.
Qed.

End Rules.

Lemma retry_calls cfg :
  CallsWithin (Nat.max 1 (Meta.maxRetries (Meta.retryConfig cfg)))
    (Meta.runActorWithRetry cfg 1).
Proof.
  intros e s. unfold outcome.
  destruct (RetryFacts.runActorWithRetry_spec cfg 1 e s) as (k & Hk & Hcalls & Hmid & _).
  assert (Hle : (k <= Nat.max 1 (Meta.maxRetries (Meta.retryConfig cfg)))%nat).
  { destruct (Nat.le_gt_cases k 1) as [|Hgt]; [lia|].
    destruct (Hmid (k - 2)%nat ltac:(lia)) as (x & _ & _ & Hl). lia. }
  destruct (Meta.runActorWithRetry cfg 1 e s) as [[run|x] s']; cbn in Hcalls; lia.
Qed.

Lemma meta_lookup_calls t : Preserves s_calls (Meta.lookupBrandInCache t).
Proof. unfold Meta.lookupBrandInCache, Meta.loadBrandsCache. preserves. Qed.

Lemma meta_handleError_calls error q startTime :
  Preserves s_calls (Meta.handleError error q startTime).
Proof. unfold Meta.handleError. destruct error; preserves. Qed.

Lemma meta_fetchDatasetItems_calls ds : Preserves s_calls (Meta.fetchDatasetItems ds).
Proof. unfold Meta.fetchDatasetItems. preserves. Qed.

Lemma meta_fetchAdsByPageId_calls jsDate cfg pid options :
  CallsWithin (Nat.max 1 (Meta.maxRetries (Meta.retryConfig cfg)))
    (Meta.fetchAdsByPageId jsDate cfg pid options).
Proof.
  unfold Meta.fetchAdsByPageId.
  apply CallsWithin_after; [preserves|].
  intros startTime. destruct (Meta.isBlank pid).
  { apply CallsWithin_preserved. preserves. }
  apply CallsWithin_try_catch; [|intros x; apply meta_handleError_calls].
  apply CallsWithin_first; [apply retry_calls|]. intros run.
  pose proof meta_fetchDatasetItems_calls as Hd.
  unfold Meta.normalizeAdM. preserves.
Qed.

Lemma meta_coldSearch_calls jsDate cfg t options startTime :
  CallsWithin (Nat.max 1 (Meta.maxRetries (Meta.retryConfig cfg)))
    (Meta.coldSearch jsDate cfg t options startTime).
Proof.
  unfold Meta.coldSearch.
  apply CallsWithin_first; [apply retry_calls|]. intros run.
  pose proof meta_fetchDatasetItems_calls as Hd.
  pose proof SuccessFacts.meta_saveBrandToCache_calls as Hsave.
  unfold Meta.normalizeAdM. preserves.
Qed.

Lemma meta_fetchAdsByBrand_calls jsDate cfg brand options :
  CallsWithin (Nat.max 1 (Meta.maxRetries (Meta.retryConfig cfg)))
    (Meta.fetchAdsByBrand jsDate cfg brand options).
Proof.
  unfold Meta.fetchAdsByBrand.
  apply CallsWithin_after; [preserves|].
  intros startTime. destruct (Meta.isBlank brand).
  { apply CallsWithin_preserved. preserves. }
  apply CallsWithin_after; [apply meta_lookup_calls|].
  intros [entry|].
  - apply CallsWithin_first; [apply meta_fetchAdsByPageId_calls|].
    intros r. preserves.
  - apply CallsWithin_try_catch;
      [apply meta_coldSearch_calls|intros x; apply meta_handleError_calls].
Qed.

End CallFacts.

(** X30.  What a fetch of the Meta service costs: whatever the actor
    answers, one [fetchAdsByBrand] makes at most [max 1 maxRetries] calls of
    the actor, on the cache-hit path and on the cold path alike, and none for
    a blank brand. *)
Theorem X30_meta_fetch_call_budget (jsDate : string -> option Z) (cfg : Meta.Config)
    (brand : string) (options : FetchAdsOptions) (e : Meta.Env) (s : Meta.State) :
  let res := Meta.fetchAdsByBrand jsDate cfg brand options e s in
  (s_calls s <= s_calls res.2
   <= s_calls s + Nat.max 1 (Meta.maxRetries (Meta.retryConfig cfg)))%nat
  /\ (Meta.isBlank brand = true -> s_calls res.2 = s_calls s).
Proof.
  intros res. subst res. split.
  - pose proof (CallFacts.meta_fetchAdsByBrand_calls jsDate cfg brand options e s) as H.
    unfold Props.outcome in H.
    destruct (Meta.fetchAdsByBrand jsDate cfg brand options e s) as [[r|x] s']; exact H.
  - intros Hblank. unfold Meta.fetchAdsByBrand.
    rewrite MonadFacts.bind_now, Hblank. reflexivity.
Qed.
